(** * static/main.js: odds conversion and Kelly stake, verified

    A shallow embedding of [static/main.js].  JavaScript Numbers are IEEE 754
    binary64 values; they are modelled by the Standard Library's
    specification of floating-point arithmetic ([SpecFloat]) at precision 53
    and maximal exponent 1024, so every arithmetic step below rounds exactly
    the way the script does.  The page itself (the elements read and written
    by the handlers) is a finite map from element ids to elements. *)

From stdpp Require Import gmap strings.
From Stdlib Require Import ZArith Bool Lia Reals Lra Zfloor.
From Stdlib Require Import Floats.SpecFloat.

Local Open Scope Z_scope.

(** ** JavaScript Numbers *)

Module JS.

Definition prec : Z := 53.
Definition emax : Z := 1024.

(** A Number is a binary64 value: a signed zero, a signed infinity, NaN, or
    [(-1)^s * m * 2^e]. *)
Abbreviation number := spec_float.

Definition NaN : number := S754_nan.
Definition Infinity : number := S754_infinity false.
Definition pzero : number := S754_zero false.
Definition nzero : number := S754_zero true.

(** The representation invariant of a Number. *)
Definition valid (x : number) : bool := valid_binary prec emax x.

Definition add : number -> number -> number := SFadd prec emax.
Definition sub : number -> number -> number := SFsub prec emax.
Definition mul : number -> number -> number := SFmul prec emax.
Definition div : number -> number -> number := SFdiv prec emax.

(** Relational operators; every comparison with NaN is false. *)
Definition ltb (x y : number) : bool := SFltb x y.
Definition leb (x y : number) : bool := SFleb x y.
Definition gtb (x y : number) : bool := SFltb y x.
Definition geb (x y : number) : bool := SFleb y x.

(** [isFinite(x)] on a Number. *)
Definition isFinite (x : number) : bool :=
  match x with
  | S754_zero _ | S754_finite _ _ _ => true
  | S754_infinity _ | S754_nan => false
  end.

Definition isNaN (x : number) : bool :=
  match x with S754_nan => true | _ => false end.

(** [ToBoolean] on a Number: [+0], [-0] and NaN are falsy. *)
Definition truthy (x : number) : bool :=
  match x with
  | S754_zero _ | S754_nan => false
  | _ => true
  end.

(** The Number for an integer, and for the decimal literal [n / 10^k]:
    the exact quotient rounded once to nearest, as the parser of numeric
    literals and [ToNumber] on a decimal string do (ECMAScript leaves room
    for another choice only past the 20th significant digit, and engines do
    not take it). *)
Definition of_Z (n : Z) : number := binary_normalize prec emax n 0 false.

Definition of_decimal (neg : bool) (n : N) (k : nat) : number :=
  match n with
  | N0 => S754_zero neg
  | Npos p =>
      let '(mz, ez, lz) :=
        SFdiv_core_binary prec emax (Zpos p) 0 (10 ^ Z.of_nat k) 0 in
      binary_round_aux prec emax neg mz ez lz
  end.

(** [Math.abs]. *)
Definition Math_abs (x : number) : number := SFabs x.

(** [Math.max] and [Math.min] of two Numbers: NaN if either is NaN, and
    [+0] counts as larger than [-0]. *)
Definition Math_max (x y : number) : number :=
  match SFcompare x y with
  | None => NaN
  | Some Lt => y
  | Some Gt => x
  | Some Eq => match x with S754_zero true => y | _ => x end
  end.

Definition Math_min (x y : number) : number :=
  match SFcompare x y with
  | None => NaN
  | Some Lt => x
  | Some Gt => y
  | Some Eq => match x with S754_zero true => x | _ => y end
  end.

(** [floor (m * 2^e + 1/2)] for a positive mantissa. *)
Definition round_half_up_pos (m : positive) (e : Z) : Z :=
  match e with
  | Z0 => Zpos m
  | Zpos _ => Zpos m * 2 ^ e
  | Zneg _ => (2 * Zpos m + 2 ^ (- e)) / 2 ^ (- e + 1)
  end.

(** [floor (- m * 2^e + 1/2)] for a positive mantissa. *)
Definition round_half_up_neg (m : positive) (e : Z) : Z :=
  match e with
  | Z0 => Zneg m
  | Zpos _ => Zneg m * 2 ^ e
  | Zneg _ => (2 * Zneg m + 2 ^ (- e)) / 2 ^ (- e + 1)
  end.

(** [Math.round]: the integer nearest to [x], ties towards [+Infinity]; the
    sign of [x] is kept when the result is zero. *)
Definition Math_round (x : number) : number :=
  match x with
  | S754_finite s m e =>
      if 0 <=? e then x
      else binary_normalize prec emax
             (if s then round_half_up_neg m e else round_half_up_pos m e) 0 s
  | _ => x
  end.

(** The strings [Number.prototype.toFixed] returns: the decimal expansion of
    an integer [n] with the point [f] places from the right and an optional
    minus sign, or [ToString(x)] when [x] is not finite or is at least
    [10^21]. *)
Inductive numeral :=
  | Fixed (neg : bool) (n : N) (f : nat)
  | Plain (x : number).

(** The constant [10^21] is a Number: [7629394531250000 * 2^17]. *)
Definition ten21 : number := S754_finite false 7629394531250000 17.

(** [x.toFixed(f)]: "let n be an integer for which [n / 10^f - x] is as close
    to zero as possible; if there are two such n, pick the larger n", taken
    on the absolute value of [x]. *)
Definition toFixed (f : nat) (x : number) : numeral :=
  match x with
  | S754_nan | S754_infinity _ => Plain x
  | S754_zero _ => Fixed false 0 f
  | S754_finite s m e =>
      if SFleb ten21 (SFabs x) then Plain x
      else
        let scaled := Zpos m * 10 ^ Z.of_nat f in
        let n := match e with
                 | Z0 => scaled
                 | Zpos _ => scaled * 2 ^ e
                 | Zneg _ => (2 * scaled + 2 ^ (- e)) / 2 ^ (- e + 1)
                 end in
        Fixed s (Z.to_N n) f
  end.

(** Unary [+] on the result of [toFixed]: [ToNumber] of the decimal string.
    [ToString] of a Number reads back as the same Number. *)
Definition ToNumber (s : numeral) : number :=
  match s with
  | Fixed neg n f => of_decimal neg n f
  | Plain x => x
  end.

End JS.

Import JS.

(** ** The Numbers written in the script *)

Definition n0 : number := pzero.
Definition n1 : number := of_Z 1.
Definition n100 : number := of_Z 100.
(** The literal [0.10]. *)
Definition n0_10 : number := of_decimal false 10 2.

(** ** Utility: convert American -> decimal (main.js, lines 2-7) *)

(** The values the script passes around: Numbers, strings and [null]. *)
Inductive value :=
  | VNum (x : number)
  | VStr (s : string)
  | VNull.

Section Script.

(** [ToNumber] on strings (numeric-literal parsing) and [parseFloat] belong
    to the JavaScript runtime, as do the two conversions of a Number to a
    string; the script is modelled over any implementation of them. *)
Variable StringToNumber : string -> number.
Variable parseFloat : string -> number.
Variable NumberToString : number -> string.
Variable numeralToString : numeral -> string.

(** [Number(a)]. *)
Definition Number (a : value) : number :=
  match a with
  | VNum x => x
  | VStr s => StringToNumber s
  | VNull => pzero
  end.

(** [None] is the script's [null]. *)
Definition americanToDecimal (a : value) : option number :=
  let n := Number a in
  if negb (isFinite n) then None
  else if gtb n n0 then Some (ToNumber (toFixed 4 (add (div n n100) n1)))
  else Some (ToNumber (toFixed 4 (add (div n100 (Math_abs n)) n1))).

(** ** Recommended stake (main.js, lines 10-21) *)

Definition computeKelly (bankroll percentCap odds prob : number) : number :=
  if negb (truthy odds) || negb (truthy prob) || leb odds n0
     || leb prob n0 || geb prob n1
  then pzero
  else
    let b := sub odds n1 in
    if leb b n0 then pzero
    else
      let f := div (sub (mul b prob) (sub n1 prob)) b in
      let f := Math_max pzero f in
      let rawStake := mul f bankroll in
      let cap := mul percentCap bankroll in
      let recommended := Math_min rawStake cap in
      let recommended := Math_max recommended n0_10 in
      div (Math_round (mul recommended n100)) n100.

(** ** The page *)

(** An element, as far as the script uses it: its [value] and its
    [textContent]. *)
Record element := Element { value_of : string; textContent : string }.

(** A [fetch] call: the URL and the three fields of the JSON body. *)
Record request := Request {
  url : string; req_sport : string; req_bet_type : string; req_prob : string }.

(** The document (element ids to elements), the alerts shown and the network
    calls issued so far. *)
Record page := Page {
  elements : gmap string element;
  alerts : list string;
  fetched : list request }.

(** A DOM event; [preventDefault()] sets the flag, and the browser performs
    the default action (for a submit event, sending the form) only when it is
    still unset after the handlers ran. *)
Record event := Event { defaultPrevented : bool }.

(** [document.getElementById(id).value]; [None] is the TypeError raised when
    the element does not exist. *)
Definition getValue (id : string) (p : page) : option string :=
  value_of <$> elements p !! id.

Definition getTextContent (id : string) (p : page) : option string :=
  textContent <$> elements p !! id.

(** [document.getElementById(id).value = v]. *)
Definition setValue (id v : string) (p : page) : option page :=
  el ← elements p !! id;
  Some (Page (<[id := Element v (textContent el)]> (elements p))
             (alerts p) (fetched p)).

(** [document.getElementById(id).textContent = t]. *)
Definition setTextContent (id t : string) (p : page) : option page :=
  el ← elements p !! id;
  Some (Page (<[id := Element (value_of el) t]> (elements p))
             (alerts p) (fetched p)).

Definition alert (msg : string) (p : page) : page :=
  Page (elements p) (alerts p ++ [msg]) (fetched p).

(** [s || d] on strings: the empty string is falsy. *)
Definition or_default (s d : string) : string :=
  match s with EmptyString => d | _ => s end.

Definition nonempty (s : string) : bool :=
  match s with EmptyString => false | _ => true end.

(** ** updateRecommended (main.js, lines 54-66)

    [bankroll] and [percentCap] are the two Numbers the enclosing listener
    read from the page when it was installed. *)
Definition updateRecommended (bankroll percentCap : number) (p : page)
  : option page :=
  a ← getValue "american_odds" p;
  let dec := americanToDecimal (VStr a) in
  pv ← getValue "prob" p;
  let pr := parseFloat pv in
  let noRecommendation :=
    p ← setTextContent "recommended_stake" "—" p;
    setValue "odds_hidden" "" p in
  match dec with
  | None => noRecommendation
  | Some d =>
      if negb (isFinite pr) then noRecommendation
      else
        p ← setTextContent "converted_decimal" (NumberToString d) p;
        let rec := computeKelly bankroll percentCap d pr in
        p ← setTextContent "recommended_stake"
              ("$" ++ numeralToString (toFixed 2 rec)) p;
        setValue "odds_hidden" (NumberToString d) p
  end.

(** ** updateEmpiricalInfo (main.js, lines 24-43): the request it issues.
    The reply is handled later and only rewrites [empirical_info]. *)
Definition updateEmpiricalInfo (p : page) : page :=
  let sport := or_default (default "" (getValue "sport" p)) "" in
  let betType := or_default (default "" (getValue "bet_type" p)) "" in
  let prob := or_default (default "" (getValue "prob" p)) "0.5" in
  Page (elements p) (alerts p)
       (fetched p ++ [Request "/api/empirical_info" sport betType prob]).

(** ** The submit handler of [betForm] (main.js, lines 80-98) *)
Definition submitHandler (p : page) (e : event) : option (page * event) :=
  name ← getValue "bet_name" p;
  odds ← getValue "odds_hidden" p;
  prob ← getValue "prob" p;
  stake ← getValue "actual_stake" p;
  sport ← (λ s, or_default s "") <$> getValue "sport" p;
  type ← (λ s, or_default s "Moneyline") <$> getValue "bet_type" p;
  if negb (nonempty name) || negb (nonempty odds) || negb (nonempty prob)
     || negb (nonempty stake)
  then Some (alert "Please fill in all fields." p, Event true)
  else
    p ← setValue "form_name" name p;
    p ← setValue "form_odds" odds p;
    p ← setValue "form_prob" prob p;
    p ← setValue "form_stake" stake p;
    p ← setValue "form_sport" sport p;
    p ← setValue "form_type" type p;
    Some (p, e).

End Script.

(** ** Named intermediate values and the Numbers of the reference evaluations *)

Definition n1000 : number := of_Z 1000.
Definition n0_02 : number := of_decimal false 2 2.
Definition n2_0 : number := of_decimal false 20 1.
Definition n1_5 : number := of_decimal false 15 1.
Definition n0_55 : number := of_decimal false 55 2.
Definition n0_5 : number := of_decimal false 5 1.
Definition n20_00 : number := of_decimal false 2000 2.

(** The Kelly fraction before clamping, and the capped stake before the
    floor: the intermediate values of [computeKelly] on its main path. *)
Definition kellyFraction (odds prob : number) : number :=
  let b := sub odds n1 in div (sub (mul b prob) (sub n1 prob)) b.

Definition cappedStake (bankroll percentCap odds prob : number) : number :=
  Math_min (mul (Math_max pzero (kellyFraction odds prob)) bankroll)
           (mul percentCap bankroll).

Definition round2 (x : number) : number :=
  div (Math_round (mul x n100)) n100.

(** ** Two pages to run the handlers on *)

Definition blank : element := Element "" "".

Definition filled_page : page :=
  Page (list_to_map
          [("bet_name", Element "Lakers ML" "");
           ("american_odds", Element "-200" "");
           ("odds_hidden", Element "1.5" "");
           ("prob", Element "0.7" "");
           ("actual_stake", Element "20" "");
           ("sport", Element "NBA" "");
           ("bet_type", Element "" "");
           ("converted_decimal", Element "" "1.5");
           ("recommended_stake", Element "" "$20.00");
           ("form_name", blank); ("form_odds", blank); ("form_prob", blank);
           ("form_stake", blank); ("form_sport", blank); ("form_type", blank)])
       [] [].

(** The same page after the odds box was overwritten with text that is not
    a number and the stake box was emptied. *)
Definition unfilled_page : page :=
  Page (<["american_odds" := Element "abc" ""]>
          (<["actual_stake" := Element "" ""]> (elements filled_page)))
       [] [].

(** A runtime for the examples that knows the strings of those pages:
    [Number("-200")] is [-200], [Number("")] is [0], [Number("abc")] is NaN;
    [parseFloat("0.7")] is [0.7], and [parseFloat] of the others is NaN. *)
Definition example_StringToNumber (s : string) : number :=
  if String.eqb s "-200" then of_Z (-200)
  else if String.eqb s "" then pzero
  else NaN.

Definition example_parseFloat (s : string) : number :=
  if String.eqb s "0.7" then of_decimal false 7 1 else NaN.

(** ** The rounding to four decimals of line 5 and line 6

    [+x.toFixed(4)], as the script writes it. *)
Definition round4 (x : number) : number := ToNumber (toFixed 4 x).

(** The same conversion in exact arithmetic, for integer odds [a] and [-a]
    with [a > 0]: [round(1 + a/100, 4)] and [round(1 + 100/a, 4)] as numbers
    of ten-thousandths, a tie going up. *)
Definition exact_pos (a : Z) : N := Z.to_N ((100 + a) * 100).

Definition exact_neg (a : Z) : N :=
  Z.to_N ((2 * (10 ^ 4 * a + 10 ^ 6) + a) / (2 * a)).

(** Equality of Numbers as data. *)
Definition same (x y : number) : bool :=
  match x, y with
  | S754_zero a, S754_zero b => Bool.eqb a b
  | S754_infinity a, S754_infinity b => Bool.eqb a b
  | S754_nan, S754_nan => true
  | S754_finite a m e, S754_finite b m' e' =>
      Bool.eqb a b && Pos.eqb m m' && Z.eqb e e'
  | _, _ => false
  end.

(** [americanToDecimal(a)] and [americanToDecimal(-a)] are the Numbers
    nearest to the exact conversions. *)
Definition agrees (a : Z) : bool :=
  match americanToDecimal (fun _ => NaN) (VNum (of_Z a)),
        americanToDecimal (fun _ => NaN) (VNum (of_Z (- a))) with
  | Some d, Some d' =>
      same d (of_decimal false (exact_pos a) 4)
      && same d' (of_decimal false (exact_neg a) 4)
  | _, _ => false
  end.

Fixpoint agree_upto (n : nat) : bool :=
  match n with
  | O => true
  | S k => agree_upto k && agrees (Z.of_nat n)
  end.

(** The precondition check of line 11. *)
Definition precondition_fails (odds prob : number) : bool :=
  negb (truthy odds) || negb (truthy prob) || leb odds n0
  || leb prob n0 || geb prob n1.

(** ** More Numbers for the examples *)

Definition n3 : number := of_Z 3.
Definition n0_125 : number := of_decimal false 125 3.
Definition n0_75 : number := of_decimal false 75 2.
Definition n0_13 : number := of_decimal false 13 2.
Definition n150 : number := of_Z 150.
Definition minus150 : number := of_Z (-150).
Definition minus200 : number := of_Z (-200).

(** ** The real-number view of Numbers

    What follows is only used to reason about the rounding of the
    arithmetic operations; no function of the script is defined with it. *)

(** Powers of two, and the smallest exponent of binary64. *)
Definition bpow (e : Z) : R := powerRZ 2 e.

Definition emin : Z := -1074.

Definition sgn (s : bool) (x : R) : R := if s then (- x)%R else x.

(** The real value of a finite Number ([0] for the others). *)
Definition B2R (y : number) : R :=
  match y with
  | S754_finite s m e => sgn s (IZR (Zpos m) * bpow e)
  | _ => 0%R
  end.

(** Where a scaled real [z] lies between the consecutive integers [m] and
    [m + 1]: on [m], below, on or above the midpoint. *)
Definition inbetween (m : Z) (l : location) (z : R) : Prop :=
  match l with
  | loc_Exact => z = IZR m
  | loc_Inexact Lt => (IZR m < z < IZR m + 1 / 2)%R
  | loc_Inexact Eq => z = (IZR m + 1 / 2)%R
  | loc_Inexact Gt => (IZR m + 1 / 2 < z < IZR m + 1)%R
  end.

(** A mantissa and exponent fine enough for one rounding to the format. *)
Definition fine (m e : Z) : Prop :=
  0 <= m /\ e <= fexp prec emax (Zdigits2 m + e).

(** A truncated mantissa at the exponent of the format. *)
Definition canonic (m e : Z) : Prop :=
  emin <= e /\ 0 <= m < 2 ^ 53 /\ (emin < e -> 2 ^ 52 <= m).

(** The result of a rounding, from the rounded mantissa [M] (at most
    [2^53]) and the exponent of the format. *)
Definition renorm (M e : Z) : Z * Z :=
  if M <? 2 ^ 53 then (M, e) else (2 ^ 52, e + 1).

Definition pack (s : bool) (Me : Z * Z) : number :=
  match fst Me with
  | Z0 => S754_zero s
  | Zpos p => if snd Me <=? 971 then S754_finite s p (snd Me) else S754_infinity s
  | Zneg _ => S754_nan
  end.

(** The order of packed results. *)
Definition pair_le (a b : Z * Z) : Prop :=
  0 <= fst a /\ 0 <= fst b /\
  (fst a = 0 \/
   (0 < fst b /\ (snd a < snd b \/ (snd a = snd b /\ fst a <= fst b)))).

(** [y] is the Number obtained by rounding the real [x] to nearest, ties to
    even; [a] is [|x|], given by a mantissa, an exponent and a position. *)
Definition Rounded (x : R) (y : number) : Prop :=
  exists s m e l a,
    fine m e /\ inbetween m l (a * bpow (- e)) /\ x = sgn s a
    /\ y = binary_round_aux prec emax s m e l.

(** The nearest integer, ties upwards, as [Math.round] and [toFixed] take
    it. *)
Definition round_half_up (r : R) : R := IZR (Zfloor (r + / 2)).

(** The real function computed by [+x.toFixed(4)] on the non-negative
    Numbers. *)
Definition fixed4 (r : R) : R :=
  if Rle_dec (IZR (10 ^ 21)) r then r
  else (round_half_up (r * IZR (10 ^ 4)) / IZR (10 ^ 4))%R.

(** The Number after [1], and the gap between them. *)
Definition after_one : number := S754_finite false 4503599627370497 (-52).
Definition epsilon : number := S754_finite false 4503599627370496 (-104).

(** ** The spec's words for the odds conversion, in exact arithmetic

    "round(x, 4)" on a real [x]: the multiple of [1/10^4] nearest to [x], a
    tie going up; and the conversion of positive odds, [round(1 + a/100, 4)],
    with nothing rounded before that. *)
Definition exact_round4 (x : R) : R :=
  (round_half_up (x * IZR (10 ^ 4)) / IZR (10 ^ 4))%R.

Definition convert_pos_exact (a : R) : R := exact_round4 (1 + a / 100).

(** The Number [0.115]. *)
Definition n0_115 : number := of_decimal false 115 3.

(** ** Further Numbers *)

Definition minus100 : number := of_Z (-100).
Definition minus1 : number := of_Z (-1).
(** [Number.MAX_VALUE]. *)
Definition MAX_VALUE : number := S754_finite false 9007199254740991 971.

(** ** The reply to the empirical-info request (main.js, lines 32-42) *)

(** A field of the object parsed from the reply: absent ([undefined]), a
    boolean, or one of the values above.  Fields holding arrays or objects
    are left out. *)
Inductive json :=
  | JUndefined
  | JBool (b : bool)
  | JValue (v : value).

(** The four fields the callback reads. *)
Record data := Data {
  empirical : json; adjusted : json; alpha : json; matching_count : json }.

(** [v === null], [v === 0] and [v === undefined]. *)
Definition is_null (v : json) : bool :=
  match v with JValue VNull => true | _ => false end.

Definition is_zero (v : json) : bool :=
  match v with JValue (VNum (S754_zero _)) => true | _ => false end.

Definition is_undefined (v : json) : bool :=
  match v with JUndefined => true | _ => false end.

(** [ToBoolean(v)]. *)
Definition ToBoolean (v : json) : bool :=
  match v with
  | JUndefined => false
  | JBool b => b
  | JValue (VNum x) => truthy x
  | JValue (VStr s) => nonempty s
  | JValue VNull => false
  end.

Section Reply.

Variable StringToNumber : string -> number.
Variable NumberToString : number -> string.
Variable numeralToString : numeral -> string.

(** [Number(v)] on a field. *)
Definition NumberOf (v : json) : number :=
  match v with
  | JUndefined => NaN
  | JBool b => if b then n1 else pzero
  | JValue v => Number StringToNumber v
  end.

(** [ToString(v)], as string concatenation applies it. *)
Definition ToString (v : json) : string :=
  match v with
  | JUndefined => "undefined"
  | JBool b => if b then "true" else "false"
  | JValue (VNum x) => NumberToString x
  | JValue (VStr s) => s
  | JValue VNull => "null"
  end.

(** The text the callback composes from [data]. *)
Definition empiricalText (d : data) : string :=
  if is_null (empirical d) || is_zero (matching_count d) then
    "Empirical: —   Adjusted: " ++
    (if negb (is_undefined (adjusted d))
     then numeralToString (toFixed 4 (NumberOf (adjusted d)))
     else "—")
  else
    "Empirical: " ++ numeralToString (toFixed 4 (NumberOf (empirical d))) ++
    "  Adjusted: " ++ numeralToString (toFixed 4 (NumberOf (adjusted d))) ++
    "  (α=" ++ numeralToString (toFixed 2 (NumberOf (alpha d))) ++
    ", n=" ++
    ToString (if ToBoolean (matching_count d) then matching_count d
              else JValue (VNum pzero)) ++
    ")".

(** The two callbacks of the promise: [Some d] is a reply whose body parsed
    to [d]; [None] is a request that failed, a body that is not JSON, or the
    body [null], whose first property read throws: the empty [catch] handler
    swallows all three.  Without the element [empirical_info] the callback
    returns at once. *)
Definition empiricalInfoReply (r : option data) (p : page) : page :=
  match r with
  | None => p
  | Some d => default p (setTextContent "empirical_info" (empiricalText d) p)
  end.

End Reply.

(** ** The [DOMContentLoaded] listener (main.js, lines 46-99) *)

(** The three functions the script registers as listeners;
    [updateRecommended] closes over the bankroll and the cap read when the
    page was loaded. *)
Inductive listener :=
  | UpdateRecommended (bankroll percentCap : number)
  | UpdateEmpiricalInfo
  | SubmitBet.

(** [target.addEventListener(type, callback)]. *)
Record registration := Registration {
  target : string; event_type : string; callback : listener }.

(** The page together with the listeners installed on it, in the order of
    their registration. *)
Record document := Document {
  doc_page : page; listeners : list registration }.

(** How the listener ends: normally, or with the TypeError of a property
    read on [null]; either way with the document as it is at that point. *)
Inductive outcome :=
  | Completed (d : document)
  | TypeError (d : document).

Definition document_of (o : outcome) : document :=
  match o with Completed d | TypeError d => d end.

(** [if (el) el.addEventListener(type, callback)]. *)
Definition listen (id type : string) (cb : listener) (p : page)
  : list registration :=
  match elements p !! id with
  | Some _ => [Registration id type cb]
  | None => []
  end.

(** An assignment to a property of an element; [None] is the TypeError of
    an assignment through [null]. *)
Definition assignment : Type := page -> option page.

(** Assignments in sequence.  The first one that raises ends the listener,
    and the page stays as the assignments before it left it. *)
Fixpoint assign (ws : list assignment) (p : page) : page :=
  match ws with
  | [] => p
  | w :: ws =>
      match w p with
      | Some p' => assign ws p'
      | None => p
      end
  end.

(** [q] differs from [p] at most in the elements [ids]. *)
Definition keeps (ids : list string) (p q : page) : Prop :=
  alerts q = alerts p /\ fetched q = fetched p
  /\ forall id, id ∉ ids -> elements q !! id = elements p !! id.

Section Wiring.

Variable StringToNumber : string -> number.
Variable parseFloat : string -> number.
Variable NumberToString : number -> string.
Variable numeralToString : numeral -> string.

Definition onLoad (p : page) : outcome :=
  match getTextContent "bankroll_value" p with
  | None => TypeError (Document p [])
  | Some tb =>
      let bankroll := parseFloat (or_default tb "0") in
      match getTextContent "percent_cap_value" p with
      | None => TypeError (Document p [])
      | Some tc =>
          let percentCap := parseFloat (or_default tc "0.02") in
          let ls :=
            listen "american_odds" "input"
                   (UpdateRecommended bankroll percentCap) p
            ++ listen "prob" "input" (UpdateRecommended bankroll percentCap) p
            ++ listen "sport" "input" UpdateEmpiricalInfo p
            ++ listen "bet_type" "change" UpdateEmpiricalInfo p
            ++ listen "prob" "input" UpdateEmpiricalInfo p in
          let p := updateEmpiricalInfo p in
          match elements p !! "betForm" with
          | None => TypeError (Document p ls)
          | Some _ =>
              Completed
                (Document p (ls ++ [Registration "betForm" "submit" SubmitBet]))
          end
      end
  end.

(** The page a call of [updateRecommended] leaves behind, whether it
    returns or raises: both reads come before the first assignment. *)
Definition run_updateRecommended (bankroll percentCap : number) (p : page)
  : page :=
  match getValue "american_odds" p, getValue "prob" p with
  | Some a, Some pv =>
      let noRecommendation :=
        [setTextContent "recommended_stake" "—"; setValue "odds_hidden" ""] in
      match americanToDecimal StringToNumber (VStr a) with
      | None => assign noRecommendation p
      | Some d =>
          if negb (isFinite (parseFloat pv)) then assign noRecommendation p
          else
            let rec := computeKelly bankroll percentCap d (parseFloat pv) in
            assign
              [setTextContent "converted_decimal" (NumberToString d);
               setTextContent "recommended_stake"
                 ("$" ++ numeralToString (toFixed 2 rec));
               setValue "odds_hidden" (NumberToString d)] p
      end
  | _, _ => p
  end.

(** The same for the submit handler: the six reads come first; a TypeError
    leaves the event as it is, so the form is sent. *)
Definition run_submitHandler (p : page) (e : event) : page * event :=
  match getValue "bet_name" p, getValue "odds_hidden" p, getValue "prob" p,
        getValue "actual_stake" p, getValue "sport" p, getValue "bet_type" p
  with
  | Some name, Some odds, Some prob, Some stake, Some sport, Some type =>
      if negb (nonempty name) || negb (nonempty odds) || negb (nonempty prob)
         || negb (nonempty stake)
      then (alert "Please fill in all fields." p, Event true)
      else
        (assign [setValue "form_name" name; setValue "form_odds" odds;
                 setValue "form_prob" prob; setValue "form_stake" stake;
                 setValue "form_sport" (or_default sport "");
                 setValue "form_type" (or_default type "Moneyline")] p,
         e)
  | _, _, _, _, _, _ => (p, e)
  end.

(** Running one listener on an event. *)
Definition runListener (cb : listener) (p : page) (e : event) : page * event :=
  match cb with
  | UpdateRecommended bankroll percentCap =>
      (run_updateRecommended bankroll percentCap p, e)
  | UpdateEmpiricalInfo => (updateEmpiricalInfo p, e)
  | SubmitBet => run_submitHandler p e
  end.

(** An event of type [type] on the element [id]: the listeners registered
    for it run in the order of their registration, and a listener that
    raises does not keep the next ones from running. *)
Fixpoint dispatchEvent (ls : list registration) (id type : string)
    (p : page) (e : event) : page * event :=
  match ls with
  | [] => (p, e)
  | r :: ls =>
      if String.eqb (target r) id && String.eqb (event_type r) type
      then
        let '(p, e) := runListener (callback r) p e in
        dispatchEvent ls id type p e
      else dispatchEvent ls id type p e
  end.

End Wiring.

(** ** A runtime and a page for the examples *)

(** The two conversions to strings, right on what the examples need:
    [ToString] of [1.5], [Infinity] and [0], and the strings [toFixed]
    returns for [20.00], [0.10], [0.00] and NaN. *)
Definition example_NumberToString (x : number) : string :=
  if same x n1_5 then "1.5"
  else if same x Infinity then "Infinity"
  else if same x pzero then "0"
  else "NaN".

Definition example_numeralToString (s : numeral) : string :=
  match s with
  | Fixed false 2000 2 => "20.00"
  | Fixed false 10 2 => "0.10"
  | Fixed false 0 2 => "0.00"
  | _ => "NaN"
  end.

(** [parseFloat] that also knows the bankroll and the cap of the examples:
    [parseFloat("1000")] is [1000] and [parseFloat("0.02")] is [0.02]. *)
Definition example_parseFloat_settings (s : string) : number :=
  if String.eqb s "1000" then n1000
  else if String.eqb s "0.02" then n0_02
  else example_parseFloat s.

(** [filled_page] with the bankroll, the cap (left empty), the form and the
    line for the empirical summary. *)
Definition loaded_page : page :=
  Page (<["bankroll_value" := Element "" "1000"]>
          (<["percent_cap_value" := Element "" ""]>
             (<["betForm" := blank]>
                (<["empirical_info" := blank]> (elements filled_page)))))
       [] [].

(** [filled_page] with the odds box emptied. *)
Definition empty_odds_page : page :=
  Page (<["american_odds" := Element "" ""]> (elements filled_page)) [] [].

(** * Properties *)

(** * Rounding *)

(** ** Powers of two as reals *)

Lemma bpow_pos e : (0 < bpow e)%R.
Proof. apply powerRZ_lt. lra. Qed.

Lemma bpow_add a b : bpow (a + b) = (bpow a * bpow b)%R.
Proof. apply powerRZ_add. lra. Qed.

Lemma bpow_0 : bpow 0 = 1%R.
Proof. reflexivity. Qed.

Lemma bpow_1 : bpow 1 = 2%R.
Proof. unfold bpow. simpl. lra. Qed.

Lemma bpow_m1 : bpow (-1) = (1 / 2)%R.
Proof. unfold bpow. simpl. lra. Qed.

Lemma bpow_opp e : bpow (- e) = (/ bpow e)%R.
Proof. apply powerRZ_neg'. Qed.

Lemma bpow_succ e : bpow (e + 1) = (2 * bpow e)%R.
Proof. rewrite bpow_add, bpow_1. lra. Qed.

Lemma bpow_IZR e : 0 <= e -> bpow e = IZR (2 ^ e).
Proof.
  intros He. pattern e. apply natlike_ind; [reflexivity | | assumption].
  intros x Hx IH. unfold Z.succ. rewrite bpow_succ, IH, Z.pow_add_r by lia.
  rewrite mult_IZR. simpl. lra.
Qed.

Lemma bpow_le a b : a <= b -> (bpow a <= bpow b)%R.
Proof.
  intros H. replace b with (a + (b - a)) by lia. rewrite bpow_add.
  rewrite (bpow_IZR (b - a)) by lia.
  assert (1 <= IZR (2 ^ (b - a)))%R.
  { apply IZR_le. assert (0 < 2 ^ (b - a)) by (apply Z.pow_pos_nonneg; lia). lia. }
  pose proof (bpow_pos a). nra.
Qed.

Lemma bpow_lt a b : a < b -> (bpow a < bpow b)%R.
Proof.
  intros H. replace b with (a + (b - a)) by lia. rewrite bpow_add.
  rewrite (bpow_IZR (b - a)) by lia.
  assert (2 <= IZR (2 ^ (b - a)))%R.
  { apply IZR_le. replace (b - a) with (1 + (b - a - 1)) by lia.
    rewrite Z.pow_add_r by lia.
    assert (0 < 2 ^ (b - a - 1)) by (apply Z.pow_pos_nonneg; lia). lia. }
  pose proof (bpow_pos a). nra.
Qed.

Lemma bpow_lt_inv a b : (bpow a < bpow b)%R -> a < b.
Proof.
  intros H. destruct (Z_lt_le_dec a b) as [|Hle]; [assumption |].
  apply bpow_le in Hle. lra.
Qed.

Lemma bpow_le_inv a b : (bpow a <= bpow b)%R -> a <= b.
Proof.
  intros H. destruct (Z_le_gt_dec a b) as [|Hgt]; [assumption |].
  assert (b < a) by lia. apply bpow_lt in H0. lra.
Qed.

(** ** Binary digits *)

Lemma digits2_pos_bounds p :
  2 ^ (Zpos (digits2_pos p) - 1) <= Zpos p < 2 ^ Zpos (digits2_pos p).
Proof.
  induction p as [p IH | p IH |]; simpl digits2_pos.
  - rewrite Pos2Z.inj_succ. replace (Z.succ (Zpos (digits2_pos p)) - 1)
      with (1 + (Zpos (digits2_pos p) - 1)) by lia.
    unfold Z.succ. rewrite Z.pow_add_r by lia.
    rewrite (Z.add_comm (Zpos (digits2_pos p)) 1), Z.pow_add_r by lia.
    change (2 ^ 1) with 2. lia.
  - rewrite Pos2Z.inj_succ. replace (Z.succ (Zpos (digits2_pos p)) - 1)
      with (1 + (Zpos (digits2_pos p) - 1)) by lia.
    unfold Z.succ. rewrite Z.pow_add_r by lia.
    rewrite (Z.add_comm (Zpos (digits2_pos p)) 1), Z.pow_add_r by lia.
    change (2 ^ 1) with 2. lia.
  - simpl. lia.
Qed.

Lemma Zdigits2_nonneg m : 0 <= Zdigits2 m.
Proof. destruct m; simpl; lia. Qed.

Lemma Zdigits2_bounds m :
  0 < m -> 2 ^ (Zdigits2 m - 1) <= m < 2 ^ Zdigits2 m.
Proof. destruct m; try lia. intros _. apply digits2_pos_bounds. Qed.

Lemma Zdigits2_unique m d :
  0 < d -> 2 ^ (d - 1) <= m < 2 ^ d -> Zdigits2 m = d.
Proof.
  intros Hd [Hlo Hhi].
  assert (Hm : 0 < m).
  { assert (0 < 2 ^ (d - 1)) by (apply Z.pow_pos_nonneg; lia). lia. }
  pose proof (Zdigits2_bounds m Hm) as [Hlo' Hhi'].
  pose proof (Zdigits2_nonneg m).
  destruct (Z.lt_trichotomy (Zdigits2 m) d) as [Hlt | [Heq | Hgt]]; [| assumption |].
  - assert (2 ^ Zdigits2 m <= 2 ^ (d - 1)) by (apply Z.pow_le_mono_r; lia). lia.
  - assert (2 ^ d <= 2 ^ (Zdigits2 m - 1)) by (apply Z.pow_le_mono_r; lia). lia.
Qed.

Lemma Zdigits2_0 : Zdigits2 0 = 0.
Proof. reflexivity. Qed.

Lemma Zdigits2_le m d : 0 <= m -> 0 <= d -> m < 2 ^ d -> Zdigits2 m <= d.
Proof.
  intros Hm Hd Hlt. destruct (Z.eq_dec m 0) as [-> | Hne]; [simpl; lia |].
  pose proof (Zdigits2_bounds m ltac:(lia)) as [Hlo _].
  destruct (Z_le_gt_dec (Zdigits2 m) d); [assumption |].
  assert (2 ^ d <= 2 ^ (Zdigits2 m - 1)) by (apply Z.pow_le_mono_r; lia). lia.
Qed.

Lemma Zdigits2_div m n :
  0 < m -> 0 <= n -> n < Zdigits2 m -> Zdigits2 (m / 2 ^ n) = Zdigits2 m - n.
Proof.
  intros Hm Hn Hlt. pose proof (Zdigits2_bounds m Hm) as [Hlo Hhi].
  assert (Hp : 0 < 2 ^ n) by (apply Z.pow_pos_nonneg; lia).
  apply Zdigits2_unique; [lia |]. split.
  - apply Z.div_le_lower_bound; [assumption |].
    rewrite <- Z.pow_add_r by lia. replace (n + (Zdigits2 m - n - 1)) with (Zdigits2 m - 1) by lia.
    assumption.
  - apply Z.div_lt_upper_bound; [assumption |].
    rewrite <- Z.pow_add_r by lia. replace (n + (Zdigits2 m - n)) with (Zdigits2 m) by lia.
    assumption.
Qed.

(** ** Brackets: where a scaled real lies between two consecutive integers *)

Lemma inbetween_bounds m l z : inbetween m l z -> (IZR m <= z < IZR m + 1)%R.
Proof. destruct l as [| []]; simpl; lra. Qed.

Lemma loc_of_shr_record_of_loc m l :
  loc_of_shr_record (shr_record_of_loc m l) = l.
Proof. destruct l as [| []]; reflexivity. Qed.

Lemma shr_m_shr_record_of_loc m l : shr_m (shr_record_of_loc m l) = m.
Proof. destruct l as [| []]; reflexivity. Qed.

Lemma shr_1_m mrs : 0 <= shr_m mrs -> shr_m (shr_1 mrs) = shr_m mrs / 2.
Proof.
  destruct mrs as [m r s]; simpl. intros Hm.
  destruct m as [| [p | p |] |]; try lia; simpl.
  - reflexivity.
  - apply Z.div_unique with 1; lia.
  - apply Z.div_unique with 0; lia.
  - reflexivity.
Qed.

Lemma shr_1_inbetween mrs z :
  0 <= shr_m mrs ->
  inbetween (shr_m mrs) (loc_of_shr_record mrs) z ->
  inbetween (shr_m (shr_1 mrs)) (loc_of_shr_record (shr_1 mrs)) (z / 2).
Proof.
  destruct mrs as [m r s]; simpl shr_m. intros Hm.
  destruct m as [| [p | p |] |]; try lia;
    destruct r, s; cbn [shr_1 shr_m loc_of_shr_record inbetween orb];
    try (rewrite IZR_POS_xI); try (rewrite IZR_POS_xO); intros H; lra.
Qed.

Lemma pow2_xO n : 2 ^ Zpos n~0 = 2 ^ Zpos n * 2 ^ Zpos n.
Proof.
  replace (Zpos n~0) with (Zpos n + Zpos n) by lia.
  apply Z.pow_add_r; lia.
Qed.

Lemma pow2_xI n : 2 ^ Zpos n~1 = 2 * (2 ^ Zpos n * 2 ^ Zpos n).
Proof.
  replace (Zpos n~1) with (1 + Zpos n~0) by lia.
  rewrite Z.pow_add_r by lia. rewrite pow2_xO. reflexivity.
Qed.

Lemma iter_shr_1_m n mrs :
  0 <= shr_m mrs ->
  shr_m (iter_pos shr_1 n mrs) = shr_m mrs / 2 ^ Zpos n.
Proof.
  revert mrs. induction n as [n IH | n IH |]; intros mrs Hm; simpl iter_pos.
  - assert (H1 : 0 <= shr_m (shr_1 mrs)).
    { rewrite shr_1_m by assumption. apply Z.div_pos; lia. }
    assert (H2 : 0 <= shr_m (iter_pos shr_1 n (shr_1 mrs))).
    { rewrite IH by assumption. apply Z.div_pos; [assumption | apply Z.pow_pos_nonneg; lia]. }
    rewrite IH, IH, shr_1_m by assumption.
    rewrite !Z.div_div by (try apply Z.pow_pos_nonneg; lia).
    f_equal. symmetry. apply pow2_xI.
  - assert (H2 : 0 <= shr_m (iter_pos shr_1 n mrs)).
    { rewrite IH by assumption. apply Z.div_pos; [assumption | apply Z.pow_pos_nonneg; lia]. }
    rewrite IH, IH by assumption.
    rewrite !Z.div_div by (try apply Z.pow_pos_nonneg; lia).
    f_equal. symmetry. apply pow2_xO.
  - rewrite shr_1_m by assumption. reflexivity.
Qed.

Lemma iter_shr_1_inbetween n mrs z :
  0 <= shr_m mrs ->
  inbetween (shr_m mrs) (loc_of_shr_record mrs) z ->
  inbetween (shr_m (iter_pos shr_1 n mrs))
            (loc_of_shr_record (iter_pos shr_1 n mrs))
            (z * bpow (- Zpos n)).
Proof.
  revert mrs z. induction n as [n IH | n IH |]; intros mrs z Hm H; simpl iter_pos.
  - assert (H1 : 0 <= shr_m (shr_1 mrs)).
    { rewrite shr_1_m by assumption. apply Z.div_pos; lia. }
    assert (H2 : 0 <= shr_m (iter_pos shr_1 n (shr_1 mrs))).
    { rewrite iter_shr_1_m by assumption.
      apply Z.div_pos; [assumption | apply Z.pow_pos_nonneg; lia]. }
    replace (z * bpow (- Zpos n~1))%R
      with (z / 2 * bpow (- Zpos n) * bpow (- Zpos n))%R.
    + apply IH; [assumption |]. apply IH; [assumption |].
      apply shr_1_inbetween; assumption.
    + replace (- Zpos n~1) with (-1 + (- Zpos n + - Zpos n)) by lia.
      rewrite !bpow_add, bpow_m1. lra.
  - assert (H2 : 0 <= shr_m (iter_pos shr_1 n mrs)).
    { rewrite iter_shr_1_m by assumption.
      apply Z.div_pos; [assumption | apply Z.pow_pos_nonneg; lia]. }
    replace (z * bpow (- Zpos n~0))%R
      with (z * bpow (- Zpos n) * bpow (- Zpos n))%R.
    + apply IH; [assumption |]. apply IH; assumption.
    + replace (- Zpos n~0) with (- Zpos n + - Zpos n) by lia.
      rewrite !bpow_add. lra.
  - change (- Zpos 1) with (-1). rewrite bpow_m1.
    replace (z * (1 / 2))%R with (z / 2)%R by lra.
    apply shr_1_inbetween; assumption.
Qed.

(** The exponent function of binary64. *)
Lemma fexp_eq e : fexp prec emax e = Z.max (e - 53) emin.
Proof. reflexivity. Qed.

(** The first shift of [binary_round_aux]: the truncation to the exponent of
    the format. *)
Lemma shr_fexp_truncate m e l x e' :
  fine m e ->
  e' = fexp prec emax (Zdigits2 m + e) ->
  inbetween m l (x * bpow (- e)) ->
  exists m' l',
    shr_fexp prec emax m e l = (shr_record_of_loc m' l', e')
    /\ 0 <= m' /\ m' = m / 2 ^ (e' - e)
    /\ inbetween m' l' (x * bpow (- e')).
Proof.
  intros [Hm He] He' Hin. unfold shr_fexp, shr. rewrite <- He' in *.
  destruct (e' - e) as [| n | n] eqn:Hn; try lia.
  - exists m, l. repeat split; try assumption.
    + f_equal. lia.
    + rewrite Z.div_1_r. reflexivity.
    + replace e' with e by lia. assumption.
  - set (mrs := iter_pos shr_1 n (shr_record_of_loc m l)).
    exists (shr_m mrs), (loc_of_shr_record mrs).
    assert (Hm0 : 0 <= shr_m (shr_record_of_loc m l))
      by (rewrite shr_m_shr_record_of_loc; assumption).
    repeat split.
    + f_equal; [| lia]. destruct mrs as [mm [] []]; reflexivity.
    + unfold mrs. rewrite iter_shr_1_m by assumption.
      apply Z.div_pos; [assumption | apply Z.pow_pos_nonneg; lia].
    + unfold mrs. rewrite iter_shr_1_m by assumption.
      rewrite shr_m_shr_record_of_loc. reflexivity.
    + replace (x * bpow (- e'))%R with (x * bpow (- e) * bpow (- Zpos n))%R.
      * apply iter_shr_1_inbetween; [assumption |].
        rewrite shr_m_shr_record_of_loc, loc_of_shr_record_of_loc. assumption.
      * replace (- e') with (- e + - Zpos n) by lia. rewrite bpow_add. lra.
Qed.

(** ** The result of one rounding *)

Lemma truncate_canonic m e :
  fine m e ->
  canonic (m / 2 ^ (fexp prec emax (Zdigits2 m + e) - e))
          (fexp prec emax (Zdigits2 m + e)).
Proof.
  intros [Hm He]. rewrite fexp_eq in *. unfold emin in *.
  set (d := Zdigits2 m) in *.
  assert (Hd : 0 <= d) by apply Zdigits2_nonneg.
  set (e' := Z.max (d + e - 53) (-1074)) in *.
  assert (Hp : 0 < 2 ^ (e' - e)) by (apply Z.pow_pos_nonneg; lia).
  destruct (Z.eq_dec m 0) as [-> | Hne].
  - rewrite Z.div_0_l by lia. unfold canonic, emin.
    change (Zdigits2 0) with 0 in d. subst d. split; [lia |]. split; [lia |].
    intros H. lia.
  - pose proof (Zdigits2_bounds m ltac:(lia)) as [Hlo Hhi]. fold d in Hlo, Hhi.
    unfold canonic, emin. split; [lia |]. split; [split |].
    + apply Z.div_pos; lia.
    + apply Z.div_lt_upper_bound; [assumption |].
      rewrite <- Z.pow_add_r by lia.
      assert (2 ^ d <= 2 ^ (e' - e + 53)) by (apply Z.pow_le_mono_r; lia). lia.
    + intros Hlt. assert (He' : e' = d + e - 53) by lia.
      apply Z.div_le_lower_bound; [assumption |].
      rewrite <- Z.pow_add_r by lia.
      replace (e' - e + 52) with (d - 1) by lia. assumption.
Qed.

Lemma round_nearest_even_bounds m l :
  m <= round_nearest_even m l <= m + 1.
Proof. destruct l as [| []]; simpl; try lia. destruct (Z.even m); lia. Qed.

Lemma shr_fexp_renorm M e :
  emin <= e -> 0 <= M <= 2 ^ 53 ->
  exists mrs,
    shr_fexp prec emax M e loc_Exact = (mrs, snd (renorm M e))
    /\ shr_m mrs = fst (renorm M e).
Proof.
  intros He [HM0 HM]. unfold renorm.
  destruct (Z.ltb_spec M (2 ^ 53)) as [Hlt | Hge].
  - unfold shr_fexp. rewrite fexp_eq.
    assert (Hd : Zdigits2 M <= 53) by (apply Zdigits2_le; lia).
    unfold shr.
    destruct (Z.max (Zdigits2 M + e - 53) emin - e) as [| n | n] eqn:Hn; try lia.
    + eexists; split; reflexivity.
    + eexists; split; reflexivity.
  - assert (M = 2 ^ 53) by lia. subst M.
    unfold shr_fexp. rewrite fexp_eq.
    change (Zdigits2 (2 ^ 53)) with 54.
    replace (Z.max (54 + e - 53) emin - e) with 1 by lia.
    eexists; split; reflexivity.
Qed.

(** [binary_round_aux] is a truncation to the exponent of the format, a
    rounding of the last place, and a renormalisation. *)
Lemma binary_round_aux_canonic m e l x :
  fine m e ->
  inbetween m l (x * bpow (- e)) ->
  exists m' e' l',
    canonic m' e'
    /\ e' = fexp prec emax (Zdigits2 m + e)
    /\ m' = m / 2 ^ (e' - e)
    /\ inbetween m' l' (x * bpow (- e'))
    /\ forall s, binary_round_aux prec emax s m e l =
                 pack s (renorm (round_nearest_even m' l') e').
Proof.
  intros Hf Hin.
  destruct (shr_fexp_truncate m e l x _ Hf eq_refl Hin)
    as (m' & l' & Hshr & Hm' & Hdiv & Hin').
  pose proof (truncate_canonic m e Hf) as Hc. rewrite <- Hdiv in Hc.
  exists m', (fexp prec emax (Zdigits2 m + e)), l'.
  split; [assumption |]. split; [reflexivity |]. split; [assumption |].
  split; [assumption |]. intros s.
  unfold binary_round_aux. rewrite Hshr.
  rewrite shr_m_shr_record_of_loc, loc_of_shr_record_of_loc.
  destruct Hc as (He & Hm & _).
  pose proof (round_nearest_even_bounds m' l') as HM.
  destruct (shr_fexp_renorm (round_nearest_even m' l') _ He ltac:(lia))
    as (mrs & -> & Hmrs).
  rewrite Hmrs. unfold pack. reflexivity.
Qed.

Lemma pack_le a b :
  pair_le a b ->
  SFleb (pack false a) (pack false b) = true
  /\ SFleb (pack true b) (pack true a) = true.
Proof.
  destruct a as [Ma ea], b as [Mb eb]. unfold pair_le, pack; simpl fst; simpl snd.
  intros (Ha & Hb & H).
  destruct Ma as [| pa | pa]; try lia; destruct Mb as [| pb | pb]; try lia.
  - split; reflexivity.
  - destruct (eb <=? 971); split; reflexivity.
  - destruct H as [H | (_ & H)]; [discriminate |].
    destruct (Z.leb_spec ea 971), (Z.leb_spec eb 971); try (split; reflexivity);
      try lia.
    unfold SFleb, SFcompare.
    destruct H as [H | [-> H]].
    + rewrite (proj2 (Z.compare_lt_iff ea eb) H).
      rewrite (proj2 (Z.compare_gt_iff eb ea) H). split; reflexivity.
    + rewrite Z.compare_refl.
      change (PosDef.Pos.compare_cont Eq pa pb) with (Pos.compare pa pb).
      change (PosDef.Pos.compare_cont Eq pb pa) with (Pos.compare pb pa).
      rewrite (Pos.compare_antisym pa pb).
      destruct (Pos.compare_spec pa pb); try (split; reflexivity); lia.
Qed.

Lemma bpow_cancel x e : (x * bpow (- e) * bpow e)%R = x.
Proof.
  rewrite Rmult_assoc, <- bpow_add. replace (- e + e) with 0 by lia.
  rewrite bpow_0. lra.
Qed.

Lemma IZR_le_lt_succ m1 m2 z1 z2 :
  (IZR m1 <= z1)%R -> (z2 < IZR m2 + 1)%R -> (z1 <= z2)%R -> m1 <= m2.
Proof.
  intros H1 H2 H. assert (IZR m1 < IZR (m2 + 1))%R by (rewrite plus_IZR; lra).
  apply lt_IZR in H0. lia.
Qed.

Lemma round_nearest_even_mono m1 l1 m2 l2 z1 z2 :
  inbetween m1 l1 z1 -> inbetween m2 l2 z2 -> (z1 <= z2)%R ->
  round_nearest_even m1 l1 <= round_nearest_even m2 l2.
Proof.
  intros H1 H2 Hz.
  pose proof (inbetween_bounds _ _ _ H1) as B1.
  pose proof (inbetween_bounds _ _ _ H2) as B2.
  assert (Hm : m1 <= m2) by (apply (IZR_le_lt_succ m1 m2 z1 z2); lra).
  pose proof (round_nearest_even_bounds m1 l1).
  pose proof (round_nearest_even_bounds m2 l2).
  destruct (Z.eq_dec m1 m2) as [-> | Hne]; [| lia].
  destruct l1 as [| []], l2 as [| []]; simpl in *;
    try lia; try lra; destruct (Z.even m2); lia.
Qed.

Lemma canonic_exp_le m1 e1 l1 x1 m2 e2 l2 x2 :
  canonic m1 e1 -> canonic m2 e2 ->
  inbetween m1 l1 (x1 * bpow (- e1)) ->
  inbetween m2 l2 (x2 * bpow (- e2)) ->
  (x1 <= x2)%R -> e1 <= e2.
Proof.
  intros (He1 & Hm1 & Hn1) (He2 & Hm2 & Hn2) H1 H2 Hx.
  destruct (Z_le_gt_dec e1 e2) as [| Hgt]; [assumption | exfalso].
  apply inbetween_bounds in H1, H2.
  assert (Hlo : (IZR (2 ^ 52) <= x1 * bpow (- e1))%R).
  { apply Rle_trans with (IZR m1); [apply IZR_le; lia | lra]. }
  assert (Hhi : (x2 * bpow (- e2) < IZR (2 ^ 53))%R).
  { apply Rlt_le_trans with (IZR m2 + 1)%R; [lra |].
    rewrite <- (plus_IZR m2 1). apply IZR_le. lia. }
  pose proof (bpow_pos e1) as P1. pose proof (bpow_pos e2) as P2.
  assert (Hx1 : (IZR (2 ^ 52) * bpow e1 <= x1)%R).
  { rewrite <- (bpow_cancel x1 e1). apply Rmult_le_compat_r; lra. }
  assert (Hx2 : (x2 < IZR (2 ^ 53) * bpow e2)%R).
  { rewrite <- (bpow_cancel x2 e2) at 1. apply Rmult_lt_compat_r; lra. }
  assert (Hb : (bpow (e2 + 1) <= bpow e1)%R) by (apply bpow_le; lia).
  rewrite bpow_succ in Hb.
  change (2 ^ 53) with (2 * 2 ^ 52) in Hx2. rewrite mult_IZR in Hx2.
  assert (0 < IZR (2 ^ 52))%R by (apply IZR_lt; lia).
  nra.
Qed.

Lemma canonic_pair_le m1 e1 l1 x1 m2 e2 l2 x2 :
  canonic m1 e1 -> canonic m2 e2 ->
  inbetween m1 l1 (x1 * bpow (- e1)) ->
  inbetween m2 l2 (x2 * bpow (- e2)) ->
  (x1 <= x2)%R ->
  pair_le (renorm (round_nearest_even m1 l1) e1)
          (renorm (round_nearest_even m2 l2) e2).
Proof.
  intros C1 C2 H1 H2 Hx.
  pose proof (canonic_exp_le _ _ _ _ _ _ _ _ C1 C2 H1 H2 Hx) as He.
  destruct C1 as (He1 & Hm1 & Hn1), C2 as (He2 & Hm2 & Hn2).
  pose proof (round_nearest_even_bounds m1 l1) as B1.
  pose proof (round_nearest_even_bounds m2 l2) as B2.
  destruct (Z.eq_dec e1 e2) as [-> | Hne].
  - assert (HM : round_nearest_even m1 l1 <= round_nearest_even m2 l2).
    { apply (round_nearest_even_mono m1 l1 m2 l2 _ _ H1 H2).
      apply Rmult_le_compat_r; [pose proof (bpow_pos (- e2)); lra | assumption]. }
    unfold pair_le, renorm.
    destruct (Z.ltb_spec (round_nearest_even m1 l1) (2 ^ 53)),
             (Z.ltb_spec (round_nearest_even m2 l2) (2 ^ 53)); simpl; lia.
  - assert (2 ^ 52 <= m2) by (apply Hn2; lia).
    unfold pair_le, renorm.
    destruct (Z.ltb_spec (round_nearest_even m1 l1) (2 ^ 53)),
             (Z.ltb_spec (round_nearest_even m2 l2) (2 ^ 53)); simpl; lia.
Qed.

(** Rounding is monotone: a larger real rounds to a larger (or the same)
    Number, whatever mantissas and exponents the two reals are given by. *)
Theorem binary_round_aux_le m1 e1 l1 x1 m2 e2 l2 x2 :
  fine m1 e1 -> fine m2 e2 ->
  inbetween m1 l1 (x1 * bpow (- e1)) ->
  inbetween m2 l2 (x2 * bpow (- e2)) ->
  (x1 <= x2)%R ->
  SFleb (binary_round_aux prec emax false m1 e1 l1)
        (binary_round_aux prec emax false m2 e2 l2) = true
  /\ SFleb (binary_round_aux prec emax true m2 e2 l2)
           (binary_round_aux prec emax true m1 e1 l1) = true.
Proof.
  intros F1 F2 H1 H2 Hx.
  destruct (binary_round_aux_canonic m1 e1 l1 x1 F1 H1)
    as (m1' & e1' & l1' & C1 & _ & _ & I1 & R1).
  destruct (binary_round_aux_canonic m2 e2 l2 x2 F2 H2)
    as (m2' & e2' & l2' & C2 & _ & _ & I2 & R2).
  rewrite !R1, !R2. apply pack_le.
  apply (canonic_pair_le _ _ _ x1 _ _ _ x2); assumption.
Qed.

(** The results of a rounding are Numbers, and never NaN. *)
Lemma pack_renorm_valid s m e l :
  canonic m e ->
  valid (pack s (renorm (round_nearest_even m l) e)) = true
  /\ isNaN (pack s (renorm (round_nearest_even m l) e)) = false.
Proof.
  intros (He & Hm & Hn).
  pose proof (round_nearest_even_bounds m l) as B.
  unfold renorm.
  destruct (Z.ltb_spec (round_nearest_even m l) (2 ^ 53)) as [Hlt | Hge].
  - unfold pack; simpl fst; simpl snd.
    destruct (round_nearest_even m l) as [| p | p] eqn:HM; try lia.
    + split; reflexivity.
    + destruct (Z.leb_spec e 971) as [H971 | H971]; [| split; reflexivity].
      split; [| reflexivity].
      unfold valid, valid_binary, bounded, canonical_mantissa.
      rewrite fexp_eq. apply andb_true_intro. split; [| apply Z.leb_le; exact H971].
      apply Z.eqb_eq. change (Zpos (digits2_pos p)) with (Zdigits2 (Zpos p)).
      destruct (Z.eq_dec e emin) as [-> | Hne].
      * assert (Zdigits2 (Zpos p) <= 53) by (apply Zdigits2_le; lia). lia.
      * rewrite (Zdigits2_unique (Zpos p) 53); [lia | lia |].
        assert (2 ^ 52 <= m) by (apply Hn; lia). change (53 - 1) with 52. lia.
  - unfold pack; simpl fst; simpl snd.
    destruct (Z.leb_spec (e + 1) 971) as [H971 | H971]; [| split; reflexivity].
    split; [| reflexivity].
    change (2 ^ 52) with (Zpos 4503599627370496).
    unfold valid, valid_binary, bounded, canonical_mantissa.
    rewrite fexp_eq. apply andb_true_intro. split; [| apply Z.leb_le; exact H971].
    apply Z.eqb_eq. change (Zpos (digits2_pos 4503599627370496)) with 53.
    unfold emin in *. lia.
Qed.

Lemma binary_round_aux_valid s m e l x :
  fine m e ->
  inbetween m l (x * bpow (- e)) ->
  valid (binary_round_aux prec emax s m e l) = true
  /\ isNaN (binary_round_aux prec emax s m e l) = false.
Proof.
  intros F H.
  destruct (binary_round_aux_canonic m e l x F H)
    as (m' & e' & l' & C & _ & _ & _ & ->).
  apply pack_renorm_valid. assumption.
Qed.

(** ** The real value of a Number and the rounding relation *)

Lemma inbetween_nonneg m e l a :
  0 <= m -> inbetween m l (a * bpow (- e)) -> (0 <= a)%R.
Proof.
  intros Hm H. apply inbetween_bounds in H.
  assert (0 <= IZR m)%R by (apply IZR_le; assumption).
  pose proof (bpow_pos (- e)). nra.
Qed.

Lemma inbetween_zero m l : 0 <= m -> inbetween m l 0 -> m = 0 /\ l = loc_Exact.
Proof.
  intros Hm H. pose proof (inbetween_bounds _ _ _ H) as B.
  assert (m = 0).
  { assert (IZR m < IZR 1)%R by lra. apply lt_IZR in H0. lia. }
  subst m. split; [reflexivity |].
  destruct l as [| []]; simpl in H; try reflexivity; lra.
Qed.

Lemma pack_zero_cases s M e :
  0 <= M ->
  pack s (renorm M e) = S754_zero s
  \/ (exists p e', pack s (renorm M e) = S754_finite s p e')
  \/ pack s (renorm M e) = S754_infinity s.
Proof.
  intros HM. unfold renorm. destruct (M <? 2 ^ 53).
  - unfold pack; simpl. destruct M; try lia; [left; reflexivity |].
    destruct (e <=? 971); [right; left; eauto | right; right; reflexivity].
  - unfold pack; simpl. destruct (e + 1 <=? 971); [right; left; eauto | right; right; reflexivity].
Qed.

Lemma binary_round_aux_sign_cases s m e l x :
  fine m e -> inbetween m l (x * bpow (- e)) ->
  binary_round_aux prec emax s m e l = S754_zero s
  \/ (exists p e', binary_round_aux prec emax s m e l = S754_finite s p e')
  \/ binary_round_aux prec emax s m e l = S754_infinity s.
Proof.
  intros F H.
  destruct (binary_round_aux_canonic m e l x F H)
    as (m' & e' & l' & C & _ & _ & _ & R). rewrite R.
  apply pack_zero_cases.
  pose proof (round_nearest_even_bounds m' l'). destruct C as (_ & ? & _). lia.
Qed.

Lemma binary_round_aux_zero s m e l :
  fine m e -> inbetween m l (0 * bpow (- e)) ->
  binary_round_aux prec emax s m e l = S754_zero s.
Proof.
  intros F H.
  destruct (binary_round_aux_canonic m e l 0 F H)
    as (m' & e' & l' & C & _ & _ & I & R). rewrite R.
  rewrite Rmult_0_l in I. destruct C as (_ & ? & _).
  destruct (inbetween_zero m' l' ltac:(lia) I) as [-> ->]. reflexivity.
Qed.

Theorem Rounded_le x1 y1 x2 y2 :
  Rounded x1 y1 -> Rounded x2 y2 -> (x1 <= x2)%R -> SFleb y1 y2 = true.
Proof.
  intros (s1 & m1 & e1 & l1 & a1 & F1 & I1 & -> & ->)
         (s2 & m2 & e2 & l2 & a2 & F2 & I2 & -> & ->) Hx.
  pose proof (inbetween_nonneg _ _ _ _ (proj1 F1) I1) as A1.
  pose proof (inbetween_nonneg _ _ _ _ (proj1 F2) I2) as A2.
  destruct s1, s2; unfold sgn in Hx.
  - apply (binary_round_aux_le m2 e2 l2 a2 m1 e1 l1 a1); try assumption. lra.
  - destruct (binary_round_aux_sign_cases true m1 e1 l1 a1 F1 I1)
      as [-> | [(p1 & q1 & ->) | ->]];
    destruct (binary_round_aux_sign_cases false m2 e2 l2 a2 F2 I2)
      as [-> | [(p2 & q2 & ->) | ->]]; reflexivity.
  - assert (a1 = 0%R) by lra. assert (a2 = 0%R) by lra. subst a1 a2.
    rewrite (binary_round_aux_zero false m1 e1 l1 F1 I1).
    rewrite (binary_round_aux_zero true m2 e2 l2 F2 I2). reflexivity.
  - apply (binary_round_aux_le m1 e1 l1 a1 m2 e2 l2 a2); assumption.
Qed.

Lemma Rounded_valid x y : Rounded x y -> valid y = true /\ isNaN y = false.
Proof.
  intros (s & m & e & l & a & F & I & _ & ->).
  apply (binary_round_aux_valid s m e l a); assumption.
Qed.

(** A Number is the rounding of its own value. *)
Lemma valid_finite_inv s m e :
  valid (S754_finite s m e) = true ->
  e = fexp prec emax (Zdigits2 (Zpos m) + e) /\ e <= 971.
Proof.
  unfold valid, valid_binary, bounded, canonical_mantissa.
  intros H. apply andb_prop in H as [H1 H2].
  apply Z.eqb_eq in H1. apply Z.leb_le in H2.
  split; [symmetry; exact H1 | exact H2].
Qed.

Lemma valid_finite_canonic s m e :
  valid (S754_finite s m e) = true -> canonic (Zpos m) e /\ e <= 971.
Proof.
  intros H. destruct (valid_finite_inv s m e H) as [He H971].
  assert (F : fine (Zpos m) e) by (split; lia).
  pose proof (truncate_canonic (Zpos m) e F) as C.
  rewrite <- He in C. rewrite Z.sub_diag, Z.pow_0_r, Z.div_1_r in C.
  split; assumption.
Qed.

Lemma round_trip s m e :
  valid (S754_finite s m e) = true ->
  binary_round_aux prec emax s (Zpos m) e loc_Exact = S754_finite s m e.
Proof.
  intros H. destruct (valid_finite_inv s m e H) as [He H971].
  destruct (valid_finite_canonic s m e H) as [(_ & Hm & _) _].
  assert (F : fine (Zpos m) e) by (split; lia).
  assert (I : inbetween (Zpos m) loc_Exact (IZR (Zpos m) * bpow e * bpow (- e))).
  { unfold inbetween. rewrite Rmult_assoc, <- bpow_add.
    replace (e + - e) with 0 by lia. rewrite bpow_0. lra. }
  destruct (binary_round_aux_canonic _ _ _ _ F I)
    as (m' & e' & l' & C & E & D & I' & R). rewrite R.
  rewrite <- He in E. subst e'.
  rewrite Z.sub_diag, Z.pow_0_r, Z.div_1_r in D. subst m'.
  assert (l' = loc_Exact).
  { rewrite Rmult_assoc, <- bpow_add in I'.
    replace (e + - e) with 0 in I' by lia. rewrite bpow_0, Rmult_1_r in I'.
    destruct l' as [| []]; simpl in I'; try reflexivity; lra. }
  subst l'. simpl round_nearest_even. unfold renorm.
  destruct (Z.ltb_spec (Zpos m) (2 ^ 53)); [| lia].
  unfold pack; simpl. destruct (Z.leb_spec e 971); [reflexivity | lia].
Qed.

Lemma Rounded_B2R y :
  valid y = true -> isFinite y = true -> Rounded (B2R y) y.
Proof.
  intros Hv Hf. destruct y as [s | s | | s m e]; try discriminate.
  - exists s, 0, emin, loc_Exact, 0%R.
    split; [split; [lia | rewrite fexp_eq; unfold emin; simpl; lia] |].
    split; [unfold inbetween; rewrite Rmult_0_l; reflexivity |].
    split; [unfold sgn, B2R; destruct s; lra |].
    destruct s; reflexivity.
  - exists s, (Zpos m), e, loc_Exact, (IZR (Zpos m) * bpow e)%R.
    destruct (valid_finite_inv s m e Hv) as [He H971].
    split; [split; lia |].
    split; [| split; [reflexivity | symmetry; apply round_trip; assumption]].
    unfold inbetween. rewrite Rmult_assoc, <- bpow_add.
    replace (e + - e) with 0 by lia. rewrite bpow_0. lra.
Qed.

(** ** The arithmetic operations round the exact results *)

Lemma Zdigits2_ge m k : 0 <= k -> 2 ^ k <= m -> k + 1 <= Zdigits2 m.
Proof.
  intros Hk H. assert (0 < 2 ^ k) by (apply Z.pow_pos_nonneg; lia).
  pose proof (Zdigits2_bounds m ltac:(lia)) as [_ Hhi].
  pose proof (Zdigits2_nonneg m).
  destruct (Z_lt_le_dec k (Zdigits2 m)); [lia |].
  assert (2 ^ Zdigits2 m <= 2 ^ k) by (apply Z.pow_le_mono_r; lia). lia.
Qed.

Lemma sgn_mult s1 s2 a b :
  (sgn s1 a * sgn s2 b)%R = sgn (xorb s1 s2) (a * b).
Proof. destruct s1, s2; unfold sgn; simpl; lra. Qed.

Lemma Rounded_zero s : Rounded 0 (S754_zero s).
Proof. apply (Rounded_B2R (S754_zero s)); reflexivity. Qed.

Lemma B2R_finite_magnitude s m e :
  B2R (S754_finite s m e) = sgn s (IZR (Zpos m) * bpow e).
Proof. reflexivity. Qed.

Theorem mul_Rounded x y :
  valid x = true -> valid y = true ->
  isFinite x = true -> isFinite y = true ->
  Rounded (B2R x * B2R y) (mul x y).
Proof.
  intros Vx Vy Fx Fy.
  destruct x as [sx | sx | | sx mx ex], y as [sy | sy | | sy my ey];
    try discriminate;
    try (simpl B2R; rewrite ?Rmult_0_l, ?Rmult_0_r; apply Rounded_zero).
  destruct (valid_finite_canonic _ _ _ Vx) as [(Hex & Hmx & Hnx) _].
  destruct (valid_finite_canonic _ _ _ Vy) as [(Hey & Hmy & Hny) _].
  rewrite !B2R_finite_magnitude, sgn_mult.
  exists (xorb sx sy), (Zpos (mx * my)), (ex + ey), loc_Exact,
    (IZR (Zpos mx) * bpow ex * (IZR (Zpos my) * bpow ey))%R.
  split; [| split; [| split; reflexivity]].
  - split; [lia |]. rewrite fexp_eq. unfold emin in *.
    destruct (Z_le_gt_dec (ex + ey) (-1074)) as [| Hgt]; [lia |].
    assert (2 ^ 52 <= Zpos (mx * my)).
    { rewrite Pos2Z.inj_mul.
      destruct (Z.eq_dec ex (-1074)) as [-> | Hne].
      - assert (2 ^ 52 <= Zpos my) by (apply Hny; lia). nia.
      - assert (2 ^ 52 <= Zpos mx) by (apply Hnx; lia). nia. }
    pose proof (Zdigits2_ge _ 52 ltac:(lia) H). lia.
  - unfold inbetween. rewrite Pos2Z.inj_mul, mult_IZR.
    replace (- (ex + ey)) with (- ex + - ey) by lia. rewrite bpow_add.
    pose proof (bpow_cancel (IZR (Zpos mx)) (- ex)) as C1.
    pose proof (bpow_cancel (IZR (Zpos my)) (- ey)) as C2.
    rewrite !Z.opp_involutive in *.
    rewrite <- C1 at 2. rewrite <- C2 at 2. ring.
Qed.

(** The quotient and the position of the exact quotient computed by
    [SFdiv_core_binary]. *)
Lemma new_location_inbetween q r d :
  0 < d -> 0 <= r < d ->
  inbetween q (new_location d r) (IZR q + IZR r / IZR d).
Proof.
  intros Hd Hr. assert (HdR : (0 < IZR d)%R) by (apply IZR_lt; assumption).
  unfold new_location, new_location_even, new_location_odd.
  assert (Hfrac : forall c : R, (IZR r / IZR d < c <-> IZR r < c * IZR d)%R).
  { intros c. split; intros H.
    - apply (Rmult_lt_compat_r (IZR d)) in H; [| assumption].
      unfold Rdiv in H. rewrite Rmult_assoc, Rinv_l, Rmult_1_r in H by lra. assumption.
    - apply (Rmult_lt_reg_r (IZR d)); [assumption |].
      unfold Rdiv. rewrite Rmult_assoc, Rinv_l, Rmult_1_r by lra. assumption. }
  assert (Hfrac' : forall c : R, (c < IZR r / IZR d <-> c * IZR d < IZR r)%R).
  { intros c. split; intros H.
    - apply (Rmult_lt_compat_r (IZR d)) in H; [| assumption].
      unfold Rdiv in H. rewrite Rmult_assoc, Rinv_l, Rmult_1_r in H by lra. assumption.
    - apply (Rmult_lt_reg_r (IZR d)); [assumption |].
      unfold Rdiv. rewrite Rmult_assoc, Rinv_l, Rmult_1_r by lra. assumption. }
  destruct (Z.eqb_spec r 0) as [-> | Hr0].
  - destruct (Z.even d); simpl; unfold Rdiv; rewrite Rmult_0_l; lra.
  - assert (HrR : (0 < IZR r)%R) by (apply IZR_lt; lia).
    assert (H0 : (0 < IZR r / IZR d)%R) by (apply Hfrac'; lra).
    assert (H1 : (IZR r / IZR d < 1)%R).
    { apply Hfrac. rewrite Rmult_1_l. apply IZR_lt. lia. }
    assert (Hrb : (r =? 0) = false) by (apply Z.eqb_neq; assumption).
    destruct (Z.even d) eqn:Hev; rewrite Hrb.
    + destruct (Z.compare_spec (2 * r) d) as [Heq | Hlt | Hgt]; simpl.
      * assert (IZR r / IZR d = 1 / 2)%R; [| lra].
        rewrite <- Heq, mult_IZR. field. lra.
      * assert (IZR r / IZR d < 1 / 2)%R; [| lra].
        apply Hfrac. apply IZR_lt in Hlt. rewrite mult_IZR in Hlt. lra.
      * assert (1 / 2 < IZR r / IZR d)%R; [| lra].
        apply Hfrac'. apply IZR_lt in Hgt. rewrite mult_IZR in Hgt. lra.
    + assert (Hodd : 2 * r <> d).
      { intros <-. rewrite Z.even_mul in Hev. discriminate. }
      destruct (Z.compare_spec (2 * r + 1) d) as [Heq | Hlt | Hgt]; simpl.
      * assert (IZR r / IZR d < 1 / 2)%R; [| lra].
        apply Hfrac. rewrite <- Heq, plus_IZR, mult_IZR. lra.
      * assert (IZR r / IZR d < 1 / 2)%R; [| lra].
        apply Hfrac. apply IZR_lt in Hlt. rewrite plus_IZR, mult_IZR in Hlt. lra.
      * assert (1 / 2 < IZR r / IZR d)%R; [| lra].
        apply Hfrac'. assert (d < 2 * r) by lia.
        apply IZR_lt in H. rewrite mult_IZR in H. lra.
Qed.

Lemma SFdiv_core_binary_correct m1 e1 m2 e2 :
  0 < m1 -> 0 < m2 ->
  exists q e' l,
    SFdiv_core_binary prec emax m1 e1 m2 e2 = (q, e', l)
    /\ fine q e'
    /\ inbetween q l (IZR m1 / IZR m2 * bpow (e1 - e2) * bpow (- e')).
Proof.
  intros H1 H2. unfold SFdiv_core_binary.
  set (d1 := Zdigits2 m1). set (d2 := Zdigits2 m2).
  set (e' := Z.min (fexp prec emax (d1 + e1 - (d2 + e2))) (e1 - e2)).
  set (s := e1 - e2 - e').
  assert (Hs : 0 <= s) by (unfold s, e'; lia).
  assert (Hm' : match s with
                | 0 => m1
                | Zpos _ => Z.shiftl m1 s
                | Zneg _ => 0
                end = m1 * 2 ^ s).
  { destruct s; try lia. apply Z.shiftl_mul_pow2; lia. }
  rewrite Hm'. clear Hm'.
  assert (Hp : 0 < 2 ^ s) by (apply Z.pow_pos_nonneg; lia).
  pose proof (Z_div_mod (m1 * 2 ^ s) m2 ltac:(lia)) as Hdm.
  pose proof (Zdigits2_bounds m1 H1) as [Hlo1 Hhi1].
  pose proof (Zdigits2_bounds m2 H2) as [Hlo2 Hhi2].
  fold d1 in Hlo1, Hhi1. fold d2 in Hlo2, Hhi2.
  assert (Hd1 : 0 < d1).
  { destruct m1; try lia. unfold d1. simpl. lia. }
  assert (Hd2 : 0 < d2).
  { destruct m2; try lia. unfold d2. simpl. lia. }
  destruct (Z.div_eucl (m1 * 2 ^ s) m2) as [q r] eqn:Hdiv.
  destruct Hdm as [Heq Hr].
  assert (Hq : 0 <= q) by nia.
  exists q, e', (new_location m2 r). split; [reflexivity |]. split.
  - split; [assumption |]. rewrite fexp_eq.
    destruct (Z_le_gt_dec e' emin) as [| Hgt]; [lia |].
    assert (He' : e' <= d1 + e1 - (d2 + e2) - 53).
    { unfold e' in *. rewrite fexp_eq in *. lia. }
    set (k := d1 - 1 + s - d2).
    assert (Hk : 52 <= k) by (unfold k, s; lia).
    assert (Hqk : 2 ^ k <= q).
    { assert (m2 * 2 ^ k <= m1 * 2 ^ s).
      { apply Z.le_trans with (2 ^ d2 * 2 ^ k).
        - apply Z.mul_le_mono_nonneg_r; [apply Z.pow_nonneg; lia | lia].
        - rewrite <- Z.pow_add_r by lia.
          replace (d2 + k) with ((d1 - 1) + s) by (unfold k; lia).
          rewrite Z.pow_add_r by lia.
          apply Z.mul_le_mono_nonneg_r; lia. }
      assert (0 < 2 ^ k) by (apply Z.pow_pos_nonneg; lia).
      nia. }
    assert (2 ^ 52 <= 2 ^ k) by (apply Z.pow_le_mono_r; lia).
    pose proof (Zdigits2_ge q 52 ltac:(lia) ltac:(lia)). lia.
  - assert (Hv : (IZR m1 / IZR m2 * bpow (e1 - e2) * bpow (- e')
                  = IZR q + IZR r / IZR m2)%R).
    { assert (HR2 : (0 < IZR m2)%R) by (apply IZR_lt; assumption).
      rewrite Rmult_assoc, <- bpow_add.
      replace (e1 - e2 + - e') with s by (unfold s; lia).
      rewrite (bpow_IZR s Hs).
      replace (IZR m1 / IZR m2 * IZR (2 ^ s))%R
        with (IZR (m1 * 2 ^ s) / IZR m2)%R.
      - rewrite Heq, plus_IZR, mult_IZR. field. lra.
      - rewrite mult_IZR. field. lra. }
    rewrite Hv. apply new_location_inbetween; assumption.
Qed.

Lemma sgn_div s1 s2 a b :
  (b <> 0)%R -> (sgn s1 a / sgn s2 b)%R = sgn (xorb s1 s2) (a / b).
Proof. intros Hb. destruct s1, s2; unfold sgn; simpl; field; assumption. Qed.

Theorem div_Rounded x s m e :
  valid x = true -> isFinite x = true ->
  Rounded (B2R x / B2R (S754_finite s m e)) (div x (S754_finite s m e)).
Proof.
  intros Vx Fx.
  assert (Hy : (IZR (Zpos m) * bpow e <> 0)%R).
  { pose proof (bpow_pos e). assert (0 < IZR (Zpos m))%R by (apply IZR_lt; lia). nra. }
  destruct x as [sx | sx | | sx mx ex]; try discriminate.
  - simpl B2R at 1. unfold Rdiv. rewrite Rmult_0_l. apply Rounded_zero.
  - rewrite !B2R_finite_magnitude, sgn_div by assumption.
    destruct (SFdiv_core_binary_correct (Zpos mx) ex (Zpos m) e
                ltac:(lia) ltac:(lia)) as (q & e' & l & Hc & F & I).
    unfold div, SFdiv. rewrite Hc.
    exists (xorb sx s), q, e', l,
      (IZR (Zpos mx) * bpow ex / (IZR (Zpos m) * bpow e))%R.
    split; [assumption |]. split; [| split; reflexivity].
    replace (IZR (Zpos mx) * bpow ex / (IZR (Zpos m) * bpow e))%R
      with (IZR (Zpos mx) / IZR (Zpos m) * bpow (ex - e))%R; [assumption |].
    unfold Z.sub. rewrite bpow_add, bpow_opp.
    pose proof (bpow_pos e). field. split; [lra |].
    apply not_0_IZR. lia.
Qed.

(** Decimal literals. *)
Theorem of_decimal_Rounded neg n k :
  Rounded (sgn neg (IZR (Z.of_N n) / IZR (10 ^ Z.of_nat k)))
          (of_decimal neg n k).
Proof.
  destruct n as [| p].
  - simpl of_decimal. simpl Z.of_N. unfold Rdiv. rewrite Rmult_0_l.
    replace (sgn neg 0) with 0%R by (destruct neg; simpl; lra).
    apply Rounded_zero.
  - unfold of_decimal.
    assert (H10 : 0 < 10 ^ Z.of_nat k) by (apply Z.pow_pos_nonneg; lia).
    destruct (SFdiv_core_binary_correct (Zpos p) 0 (10 ^ Z.of_nat k) 0
                ltac:(lia) H10) as (q & e' & l & Hc & F & I).
    rewrite Hc.
    exists neg, q, e', l, (IZR (Zpos p) / IZR (10 ^ Z.of_nat k))%R.
    split; [assumption |]. split; [| split; reflexivity].
    change (0 - 0) with 0 in I. rewrite bpow_0, Rmult_1_r in I. exact I.
Qed.

(** Addition and subtraction: alignment, exact sum, one rounding. *)

Lemma iter_xO m d : Zpos (Pos.iter xO m d) = Zpos m * 2 ^ Zpos d.
Proof.
  induction d as [| d IH] using Pos.peano_ind.
  - simpl. lia.
  - rewrite Pos.iter_succ, Pos2Z.inj_succ, Z.pow_succ_r by lia.
    change (Zpos (Pos.iter xO m d)~0) with (2 * Zpos (Pos.iter xO m d)).
    rewrite IH. ring.
Qed.

Lemma Zdigits2_shift m d :
  0 < m -> 0 <= d -> Zdigits2 (m * 2 ^ d) = Zdigits2 m + d.
Proof.
  intros Hm Hd. pose proof (Zdigits2_bounds m Hm) as [Hlo Hhi].
  assert (H1 : 0 < Zdigits2 m) by (destruct m; simpl; lia).
  assert (Hp : 0 < 2 ^ d) by (apply Z.pow_pos_nonneg; lia).
  apply Zdigits2_unique; [lia |]. split.
  - replace (Zdigits2 m + d - 1) with ((Zdigits2 m - 1) + d) by lia.
    rewrite Z.pow_add_r by lia. nia.
  - rewrite Z.pow_add_r by lia. nia.
Qed.

Lemma shl_align_value m e e' :
  e' <= e -> Zpos (fst (shl_align m e e')) = Zpos m * 2 ^ (e - e')
             /\ snd (shl_align m e e') = e'.
Proof.
  intros H. unfold shl_align.
  destruct (e' - e) as [| d | d] eqn:Hd; try lia; simpl.
  - replace (e - e') with 0 by lia. split; lia.
  - rewrite iter_xO. replace (e - e') with (Zpos d) by lia. split; reflexivity.
Qed.

Lemma binary_round_Rounded s m e :
  Rounded (sgn s (IZR (Zpos m) * bpow e)) (binary_round prec emax s m e).
Proof.
  unfold binary_round.
  set (t := fexp prec emax (Zpos (digits2_pos m) + e)).
  destruct (Z_le_gt_dec t e) as [Hle | Hgt].
  - destruct (shl_align_value m e t Hle) as [Hm He].
    destruct (shl_align m e t) as [mz ez]. simpl in Hm, He. subst ez.
    exists s, (Zpos mz), t, loc_Exact, (IZR (Zpos m) * bpow e)%R.
    split; [| split; [| split; reflexivity]].
    + split; [lia |]. rewrite Hm.
      rewrite Zdigits2_shift by lia.
      change (Zdigits2 (Zpos m)) with (Zpos (digits2_pos m)).
      replace (Zpos (digits2_pos m) + (e - t) + t) with (Zpos (digits2_pos m) + e) by lia.
      fold t. lia.
    + unfold inbetween. rewrite Hm, mult_IZR, <- (bpow_IZR (e - t)) by lia.
      rewrite !Rmult_assoc, <- !bpow_add. repeat f_equal; lia.
  - unfold shl_align.
    destruct (t - e) as [| d | d] eqn:Hd; try lia.
    exists s, (Zpos m), e, loc_Exact, (IZR (Zpos m) * bpow e)%R.
    split; [| split; [| split; reflexivity]].
    + split; [lia |]. change (Zdigits2 (Zpos m)) with (Zpos (digits2_pos m)).
      fold t. lia.
    + unfold inbetween. rewrite Rmult_assoc, <- bpow_add.
      replace (e + - e) with 0 by lia. rewrite bpow_0. lra.
Qed.

Lemma binary_normalize_Rounded m e sz :
  Rounded (IZR m * bpow e) (binary_normalize prec emax m e sz).
Proof.
  destruct m as [| p | p]; simpl binary_normalize.
  - rewrite Rmult_0_l. apply Rounded_zero.
  - apply (binary_round_Rounded false p e).
  - replace (IZR (Zneg p) * bpow e)%R with (sgn true (IZR (Zpos p) * bpow e)).
    + apply (binary_round_Rounded true p e).
    + unfold sgn. change (Zneg p) with (- Zpos p). rewrite opp_IZR. lra.
Qed.

Lemma of_Z_Rounded n : Rounded (IZR n) (of_Z n).
Proof.
  unfold of_Z. rewrite <- (Rmult_1_r (IZR n)), <- bpow_0.
  apply binary_normalize_Rounded.
Qed.

Lemma aligned_value s m e ez :
  ez <= e ->
  (IZR (cond_Zopp s (Zpos (fst (shl_align m e ez)))) * bpow ez)%R
  = sgn s (IZR (Zpos m) * bpow e).
Proof.
  intros H. destruct (shl_align_value m e ez H) as [Hm _]. rewrite Hm.
  assert (E : (IZR (Zpos m * 2 ^ (e - ez)) * bpow ez = IZR (Zpos m) * bpow e)%R).
  { rewrite mult_IZR, <- (bpow_IZR (e - ez)) by lia.
    rewrite Rmult_assoc, <- bpow_add. repeat f_equal; lia. }
  destruct s; unfold cond_Zopp, sgn.
  - rewrite opp_IZR. lra.
  - exact E.
Qed.

Theorem add_Rounded x y :
  valid x = true -> valid y = true ->
  isFinite x = true -> isFinite y = true ->
  Rounded (B2R x + B2R y) (add x y).
Proof.
  intros Vx Vy Fx Fy.
  destruct x as [sx | sx | | sx mx ex], y as [sy | sy | | sy my ey];
    try discriminate.
  - simpl B2R. rewrite Rplus_0_l. unfold add, SFadd.
    destruct sx, sy; apply Rounded_zero.
  - rewrite Rplus_0_l. apply Rounded_B2R; assumption.
  - rewrite Rplus_0_r. apply Rounded_B2R; assumption.
  - unfold add, SFadd. rewrite !B2R_finite_magnitude.
    rewrite <- (aligned_value sx mx ex (Z.min ex ey)) by lia.
    rewrite <- (aligned_value sy my ey (Z.min ex ey)) by lia.
    rewrite <- Rmult_plus_distr_r, <- plus_IZR.
    apply binary_normalize_Rounded.
Qed.

Lemma B2R_opp_sign s m e :
  B2R (S754_finite (negb s) m e) = (- B2R (S754_finite s m e))%R.
Proof. destruct s; simpl; lra. Qed.

Theorem sub_Rounded x y :
  valid x = true -> valid y = true ->
  isFinite x = true -> isFinite y = true ->
  Rounded (B2R x - B2R y) (sub x y).
Proof.
  intros Vx Vy Fx Fy.
  destruct x as [sx | sx | | sx mx ex], y as [sy | sy | | sy my ey];
    try discriminate.
  - simpl B2R. rewrite Rminus_0_r. unfold sub, SFsub.
    destruct sx, sy; apply Rounded_zero.
  - unfold sub, SFsub. simpl (B2R (S754_zero sx)).
    replace (0 - B2R (S754_finite sy my ey))%R
      with (B2R (S754_finite (negb sy) my ey)) by (rewrite B2R_opp_sign; lra).
    apply Rounded_B2R; [exact Vy | reflexivity].
  - simpl (B2R (S754_zero sy)). rewrite Rminus_0_r.
    apply Rounded_B2R; assumption.
  - unfold sub, SFsub. rewrite !B2R_finite_magnitude.
    rewrite <- (aligned_value sx mx ex (Z.min ex ey)) by lia.
    rewrite <- (aligned_value sy my ey (Z.min ex ey)) by lia.
    unfold Rminus. rewrite Ropp_mult_distr_l, <- Rmult_plus_distr_r.
    rewrite <- opp_IZR, <- plus_IZR.
    apply binary_normalize_Rounded.
Qed.

(** ** Comparisons of Numbers and of their values *)

Lemma compare_cont_Eq_antisym p q :
  PosDef.Pos.compare_cont Eq q p = CompOpp (PosDef.Pos.compare_cont Eq p q).
Proof. symmetry. apply (Pos.compare_cont_antisym p q Eq). Qed.

Lemma SFcompare_antisym x y :
  SFcompare y x = option_map CompOpp (SFcompare x y).
Proof.
  destruct x as [sx | sx | | sx mx ex], y as [sy | sy | | sy my ey];
    try reflexivity;
    try (destruct sx; reflexivity); try (destruct sy; reflexivity);
    try (destruct sx, sy; reflexivity).
  unfold SFcompare. destruct sx, sy; simpl; try reflexivity.
  - rewrite (Z.compare_antisym ey ex).
    destruct (ey ?= ex); simpl; try reflexivity.
    rewrite (compare_cont_Eq_antisym mx my), CompOpp_involutive. reflexivity.
  - rewrite (Z.compare_antisym ey ex).
    destruct (ey ?= ex); simpl; try reflexivity.
    rewrite (compare_cont_Eq_antisym mx my). reflexivity.
Qed.

Lemma SFcompare_Eq_B2R x y :
  isFinite x = true -> isFinite y = true ->
  SFcompare x y = Some Eq -> B2R x = B2R y.
Proof.
  destruct x as [sx | sx | | sx mx ex], y as [sy | sy | | sy my ey];
    try discriminate; try reflexivity; intros _ _; simpl.
  - destruct sy; discriminate.
  - destruct sx; discriminate.
  - destruct sx, sy; try discriminate;
      destruct (Z.compare_spec ex ey) as [-> | |]; try discriminate;
      intros H.
    + assert ((mx ?= my)%positive = Eq).
      { change (PosDef.Pos.compare_cont Eq mx my) with (mx ?= my)%positive in H.
        destruct (mx ?= my)%positive; try discriminate. reflexivity. }
      apply Pos.compare_eq in H0. subst. reflexivity.
    + change (PosDef.Pos.compare_cont Eq mx my) with (mx ?= my)%positive in H.
      destruct (Pos.compare_spec mx my); try discriminate. subst. reflexivity.
Qed.

Lemma B2R_leb x y :
  valid x = true -> valid y = true ->
  isFinite x = true -> isFinite y = true ->
  (B2R x <= B2R y)%R -> leb x y = true.
Proof.
  intros Vx Vy Fx Fy H.
  apply (Rounded_le (B2R x) x (B2R y) y); try apply Rounded_B2R; assumption.
Qed.

Lemma leb_B2R x y :
  valid x = true -> valid y = true ->
  isFinite x = true -> isFinite y = true ->
  leb x y = true -> (B2R x <= B2R y)%R.
Proof.
  intros Vx Vy Fx Fy H.
  destruct (Rle_or_lt (B2R x) (B2R y)) as [| Hlt]; [assumption | exfalso].
  assert (Hyx : leb y x = true) by (apply B2R_leb; try assumption; lra).
  unfold leb, SFleb in *. rewrite (SFcompare_antisym x y) in Hyx.
  destruct (SFcompare x y) as [[] |] eqn:Hc; simpl in Hyx; try discriminate.
  apply SFcompare_Eq_B2R in Hc; try assumption. lra.
Qed.

Lemma ltb_B2R x y :
  valid x = true -> valid y = true ->
  isFinite x = true -> isFinite y = true ->
  ltb x y = true -> (B2R x < B2R y)%R.
Proof.
  intros Vx Vy Fx Fy H.
  destruct (Rlt_or_le (B2R x) (B2R y)) as [| Hle]; [assumption | exfalso].
  assert (Hyx : leb y x = true) by (apply B2R_leb; assumption).
  unfold leb, ltb, SFleb, SFltb in *. rewrite (SFcompare_antisym x y) in Hyx.
  destruct (SFcompare x y) as [[] |] eqn:Hc; simpl in Hyx; discriminate.
Qed.

Lemma leb_false_B2R x y :
  valid x = true -> valid y = true ->
  isFinite x = true -> isFinite y = true ->
  leb x y = false -> (B2R y < B2R x)%R.
Proof.
  intros Vx Vy Fx Fy H.
  destruct (Rlt_or_le (B2R y) (B2R x)) as [| Hle]; [assumption | exfalso].
  rewrite (B2R_leb x y) in H by assumption. discriminate.
Qed.

Lemma ltb_leb x y : ltb x y = true -> leb x y = true.
Proof. unfold ltb, leb, SFltb, SFleb. destruct (SFcompare x y) as [[] |]; congruence. Qed.

Lemma leb_not_NaN x y : leb x y = true -> isNaN x = false /\ isNaN y = false.
Proof. destruct x, y; try discriminate; split; reflexivity. Qed.

Lemma leb_Infinity x : isNaN x = false -> leb x Infinity = true.
Proof. destruct x as [s | [] | | [] m e]; try discriminate; reflexivity. Qed.

Lemma leb_neg_Infinity x : isNaN x = false -> leb (S754_infinity true) x = true.
Proof. destruct x as [s | [] | | [] m e]; try discriminate; reflexivity. Qed.

Lemma leb_Infinity_inv x : leb Infinity x = true -> x = Infinity.
Proof. destruct x as [s | [] | | [] m e]; try discriminate; reflexivity. Qed.

Lemma leb_neg_Infinity_inv x :
  leb x (S754_infinity true) = true -> x = S754_infinity true.
Proof. destruct x as [s | [] | | [] m e]; try discriminate; reflexivity. Qed.

(** A function of Numbers that rounds a monotone function of the reals and
    keeps the two infinities in place is monotone. *)
Lemma monotone_extension (f : number -> number) (g : R -> R) :
  (forall a b : R, (a <= b)%R -> (g a <= g b)%R) ->
  (forall y, valid y = true -> isFinite y = true -> Rounded (g (B2R y)) (f y)) ->
  f Infinity = Infinity ->
  f (S754_infinity true) = S754_infinity true ->
  forall y1 y2,
    valid y1 = true -> valid y2 = true ->
    leb y1 y2 = true -> leb (f y1) (f y2) = true.
Proof.
  intros Hg Hf Hinf Hninf y1 y2 V1 V2 H.
  destruct (leb_not_NaN _ _ H) as [N1 N2].
  destruct (isFinite y1) eqn:F1, (isFinite y2) eqn:F2.
  - apply (Rounded_le (g (B2R y1)) _ (g (B2R y2)) _); try (apply Hf; assumption).
    apply Hg. apply leb_B2R; assumption.
  - destruct y2 as [| [] | |]; try discriminate.
    + apply leb_neg_Infinity_inv in H. subst y1. discriminate.
    + change (S754_infinity false) with Infinity. rewrite Hinf.
      apply leb_Infinity. apply (Rounded_valid _ _ (Hf y1 V1 F1)).
  - destruct y1 as [| [] | |]; try discriminate.
    + rewrite Hninf. apply leb_neg_Infinity.
      apply (Rounded_valid _ _ (Hf y2 V2 F2)).
    + apply leb_Infinity_inv in H. subst y2. discriminate.
  - destruct y1 as [| [] | |], y2 as [| [] | |]; try discriminate;
      try (rewrite Hninf); try (change (S754_infinity false) with Infinity; rewrite Hinf);
      reflexivity.
Qed.

Lemma monotone_extension_valid (f : number -> number) (g : R -> R) :
  (forall y, valid y = true -> isFinite y = true -> Rounded (g (B2R y)) (f y)) ->
  f Infinity = Infinity ->
  f (S754_infinity true) = S754_infinity true ->
  forall y, valid y = true -> isNaN y = false ->
            valid (f y) = true /\ isNaN (f y) = false.
Proof.
  intros Hf Hinf Hninf y V N.
  destruct (isFinite y) eqn:F.
  - apply (Rounded_valid _ _ (Hf y V F)).
  - destruct y as [| [] | |]; try discriminate.
    + rewrite Hninf. split; reflexivity.
    + change (S754_infinity false) with Infinity. rewrite Hinf. split; reflexivity.
Qed.

(** ** The order of Numbers *)

Lemma leb_refl x : isNaN x = false -> leb x x = true.
Proof.
  destruct x as [s | [] | | [] m e]; try discriminate; intros _; try reflexivity;
    unfold leb, SFleb, SFcompare; rewrite Z.compare_refl;
    change (PosDef.Pos.compare_cont Eq m m) with (m ?= m)%positive;
    rewrite Pos.compare_refl; reflexivity.
Qed.

Lemma leb_total x y :
  isNaN x = false -> isNaN y = false -> leb x y = true \/ leb y x = true.
Proof.
  intros Nx Ny. unfold leb, SFleb. rewrite (SFcompare_antisym x y).
  destruct (SFcompare x y) as [[] |] eqn:H; simpl; auto.
  destruct x, y; discriminate.
Qed.

Lemma leb_false_flip x y :
  isNaN x = false -> isNaN y = false -> leb x y = false -> leb y x = true.
Proof.
  intros Nx Ny H. destruct (leb_total x y Nx Ny); [congruence | assumption].
Qed.

Lemma leb_trans x y z :
  valid x = true -> valid y = true -> valid z = true ->
  leb x y = true -> leb y z = true -> leb x z = true.
Proof.
  intros Vx Vy Vz Hxy Hyz.
  destruct (leb_not_NaN _ _ Hxy) as [Nx Ny].
  destruct (leb_not_NaN _ _ Hyz) as [_ Nz].
  destruct (isFinite x) eqn:Fx, (isFinite y) eqn:Fy, (isFinite z) eqn:Fz.
  - apply B2R_leb; try assumption.
    apply Rle_trans with (B2R y); apply leb_B2R; assumption.
  - destruct z as [| [] | |]; try discriminate.
    + apply leb_neg_Infinity_inv in Hyz. subst y. discriminate.
    + apply leb_Infinity. assumption.
  - destruct y as [| [] | |]; try discriminate.
    + apply leb_neg_Infinity_inv in Hxy. subst x. discriminate.
    + apply leb_Infinity_inv in Hyz. subst z. discriminate.
  - destruct y as [| [] | |]; try discriminate.
    + apply leb_neg_Infinity_inv in Hxy. subst x. discriminate.
    + apply leb_Infinity_inv in Hyz. subst z. apply leb_Infinity. assumption.
  - destruct x as [| [] | |]; try discriminate.
    + apply leb_neg_Infinity. assumption.
    + apply leb_Infinity_inv in Hxy. subst y. discriminate.
  - destruct x as [| [] | |]; try discriminate.
    + apply leb_neg_Infinity. assumption.
    + apply leb_Infinity_inv in Hxy. subst y. discriminate.
  - destruct x as [| [] | |]; try discriminate.
    + apply leb_neg_Infinity. assumption.
    + apply leb_Infinity_inv in Hxy. subst y.
      apply leb_Infinity_inv in Hyz. subst z. discriminate.
  - destruct x as [| [] | |]; try discriminate.
    + apply leb_neg_Infinity. assumption.
    + apply leb_Infinity_inv in Hxy. subst y.
      apply leb_Infinity_inv in Hyz. subst z. reflexivity.
Qed.

(** ** Math.max and Math.min *)

Lemma Math_max_cases x y :
  isNaN x = false -> isNaN y = false ->
  (Math_max x y = x /\ leb y x = true) \/ (Math_max x y = y /\ leb x y = true).
Proof.
  intros Nx Ny. unfold Math_max, leb, SFleb.
  rewrite (SFcompare_antisym x y).
  destruct (SFcompare x y) as [[] |] eqn:H; simpl.
  - destruct x as [[] | | |]; auto.
  - auto.
  - auto.
  - destruct x, y; discriminate.
Qed.

Lemma Math_min_cases x y :
  isNaN x = false -> isNaN y = false ->
  (Math_min x y = x /\ leb x y = true) \/ (Math_min x y = y /\ leb y x = true).
Proof.
  intros Nx Ny. unfold Math_min, leb, SFleb.
  rewrite (SFcompare_antisym x y).
  destruct (SFcompare x y) as [[] |] eqn:H; simpl.
  - destruct x as [[] | | |]; auto.
  - auto.
  - auto.
  - destruct x, y; discriminate.
Qed.

Lemma Math_max_valid x y :
  valid x = true -> valid y = true -> isNaN x = false -> isNaN y = false ->
  valid (Math_max x y) = true /\ isNaN (Math_max x y) = false.
Proof.
  intros Vx Vy Nx Ny.
  destruct (Math_max_cases x y Nx Ny) as [[-> _] | [-> _]]; split; assumption.
Qed.

Lemma Math_min_valid x y :
  valid x = true -> valid y = true -> isNaN x = false -> isNaN y = false ->
  valid (Math_min x y) = true /\ isNaN (Math_min x y) = false.
Proof.
  intros Vx Vy Nx Ny.
  destruct (Math_min_cases x y Nx Ny) as [[-> _] | [-> _]]; split; assumption.
Qed.

Lemma Math_max_ge_r x y :
  isNaN x = false -> isNaN y = false -> leb y (Math_max x y) = true.
Proof.
  intros Nx Ny.
  destruct (Math_max_cases x y Nx Ny) as [[-> H] | [-> _]];
    [assumption | apply leb_refl; assumption].
Qed.

Lemma Math_max_ge_l x y :
  isNaN x = false -> isNaN y = false -> leb x (Math_max x y) = true.
Proof.
  intros Nx Ny.
  destruct (Math_max_cases x y Nx Ny) as [[-> _] | [-> H]];
    [apply leb_refl; assumption | assumption].
Qed.

Lemma Math_max_lub x y z :
  isNaN x = false -> isNaN y = false ->
  leb x z = true -> leb y z = true -> leb (Math_max x y) z = true.
Proof.
  intros Nx Ny Hx Hy.
  destruct (Math_max_cases x y Nx Ny) as [[-> _] | [-> _]]; assumption.
Qed.

Lemma Math_min_le_r x y :
  isNaN x = false -> isNaN y = false -> leb (Math_min x y) y = true.
Proof.
  intros Nx Ny.
  destruct (Math_min_cases x y Nx Ny) as [[-> H] | [-> _]];
    [assumption | apply leb_refl; assumption].
Qed.

Lemma Math_min_le_l x y :
  isNaN x = false -> isNaN y = false -> leb (Math_min x y) x = true.
Proof.
  intros Nx Ny.
  destruct (Math_min_cases x y Nx Ny) as [[-> _] | [-> H]];
    [apply leb_refl; assumption | assumption].
Qed.

Lemma Math_max_mono_l x x' c :
  valid x = true -> valid x' = true -> valid c = true -> isNaN c = false ->
  leb x x' = true -> leb (Math_max x c) (Math_max x' c) = true.
Proof.
  intros Vx Vx' Vc Nc H. destruct (leb_not_NaN _ _ H) as [Nx Nx'].
  apply Math_max_lub; try assumption.
  - apply leb_trans with x'; try assumption.
    + apply Math_max_valid; assumption.
    + apply Math_max_ge_l; assumption.
  - apply Math_max_ge_r; assumption.
Qed.

(** ** The arithmetic operations are monotone *)

Lemma B2R_finite_pos m e : (0 < B2R (S754_finite false m e))%R.
Proof.
  simpl. pose proof (bpow_pos e).
  assert (0 < IZR (Zpos m))%R by (apply IZR_lt; lia). nra.
Qed.

Section Monotone.

Variables (mc : positive) (ec : Z).
Hypothesis Vc : valid (S754_finite false mc ec) = true.

Lemma div_pos_Rounded y :
  valid y = true -> isFinite y = true ->
  Rounded ((fun r => r / B2R (S754_finite false mc ec))%R (B2R y))
          (div y (S754_finite false mc ec)).
Proof. intros Vy Fy. apply (div_Rounded y false mc ec); assumption. Qed.

Lemma mul_pos_Rounded y :
  valid y = true -> isFinite y = true ->
  Rounded ((fun r => r * B2R (S754_finite false mc ec))%R (B2R y))
          (mul y (S754_finite false mc ec)).
Proof. intros Vy Fy. apply mul_Rounded; try assumption. reflexivity. Qed.

Lemma div_mono_l y1 y2 :
  valid y1 = true -> valid y2 = true ->
  leb y1 y2 = true ->
  leb (div y1 (S754_finite false mc ec)) (div y2 (S754_finite false mc ec)) = true.
Proof.
  apply (monotone_extension (fun y => div y (S754_finite false mc ec))
           (fun r => r / B2R (S754_finite false mc ec))%R).
  - intros a b H. pose proof (B2R_finite_pos mc ec).
    unfold Rdiv. apply Rmult_le_compat_r; [| assumption].
    apply Rlt_le, Rinv_0_lt_compat. assumption.
  - apply div_pos_Rounded.
  - reflexivity.
  - reflexivity.
Qed.

Lemma div_pos_valid y :
  valid y = true -> isNaN y = false ->
  valid (div y (S754_finite false mc ec)) = true
  /\ isNaN (div y (S754_finite false mc ec)) = false.
Proof.
  apply (monotone_extension_valid (fun y => div y (S754_finite false mc ec))
           (fun r => r / B2R (S754_finite false mc ec))%R).
  - apply div_pos_Rounded.
  - reflexivity.
  - reflexivity.
Qed.

Lemma mul_mono_l y1 y2 :
  valid y1 = true -> valid y2 = true ->
  leb y1 y2 = true ->
  leb (mul y1 (S754_finite false mc ec)) (mul y2 (S754_finite false mc ec)) = true.
Proof.
  apply (monotone_extension (fun y => mul y (S754_finite false mc ec))
           (fun r => r * B2R (S754_finite false mc ec))%R).
  - intros a b H. pose proof (B2R_finite_pos mc ec).
    apply Rmult_le_compat_r; lra.
  - apply mul_pos_Rounded.
  - reflexivity.
  - reflexivity.
Qed.

Lemma mul_pos_valid y :
  valid y = true -> isNaN y = false ->
  valid (mul y (S754_finite false mc ec)) = true
  /\ isNaN (mul y (S754_finite false mc ec)) = false.
Proof.
  apply (monotone_extension_valid (fun y => mul y (S754_finite false mc ec))
           (fun r => r * B2R (S754_finite false mc ec))%R).
  - apply mul_pos_Rounded.
  - reflexivity.
  - reflexivity.
Qed.

End Monotone.

Section MonotoneAdd.

Variable c : number.
Hypothesis Vc : valid c = true.
Hypothesis Fc : isFinite c = true.

Lemma add_finite_Rounded y :
  valid y = true -> isFinite y = true ->
  Rounded ((fun r => r + B2R c)%R (B2R y)) (add y c).
Proof. intros Vy Fy. apply add_Rounded; assumption. Qed.

Lemma add_Infinity_l : add Infinity c = Infinity.
Proof. destruct c; try discriminate; reflexivity. Qed.

Lemma add_neg_Infinity_l : add (S754_infinity true) c = S754_infinity true.
Proof. destruct c; try discriminate; reflexivity. Qed.

Lemma add_mono_l y1 y2 :
  valid y1 = true -> valid y2 = true ->
  leb y1 y2 = true -> leb (add y1 c) (add y2 c) = true.
Proof.
  apply (monotone_extension (fun y => add y c) (fun r => r + B2R c)%R).
  - intros a b H. lra.
  - apply add_finite_Rounded.
  - apply add_Infinity_l.
  - apply add_neg_Infinity_l.
Qed.

Lemma add_finite_valid y :
  valid y = true -> isNaN y = false ->
  valid (add y c) = true /\ isNaN (add y c) = false.
Proof.
  apply (monotone_extension_valid (fun y => add y c) (fun r => r + B2R c)%R).
  - apply add_finite_Rounded.
  - apply add_Infinity_l.
  - apply add_neg_Infinity_l.
Qed.

End MonotoneAdd.

(** ** Math.round *)

Lemma Zfloor_div n d : 0 < d -> Zfloor (IZR n / IZR d) = n / d.
Proof.
  intros Hd. apply Zfloor_eq.
  assert (HdR : (0 < IZR d)%R) by (apply IZR_lt; assumption).
  pose proof (Z.div_mod n d ltac:(lia)) as Hdm.
  pose proof (Z.mod_pos_bound n d Hd) as Hr.
  assert (E : (IZR n / IZR d = IZR (n / d) + IZR (n mod d) / IZR d)%R).
  { rewrite Hdm at 1. rewrite plus_IZR, mult_IZR. field. lra. }
  rewrite E.
  assert (0 <= IZR (n mod d) / IZR d < 1)%R; [| lra].
  split.
  - apply Rmult_le_pos; [apply IZR_le; lia | apply Rlt_le, Rinv_0_lt_compat; assumption].
  - apply (Rmult_lt_reg_r (IZR d)); [assumption |].
    unfold Rdiv. rewrite Rmult_assoc, Rinv_l, Rmult_1_r, Rmult_1_l by lra.
    apply IZR_lt. lia.
Qed.

(** [floor (v * 2^e + 1/2)] for an integer [v] and a negative [e]. *)
Lemma half_up_floor v k :
  0 < k ->
  Zfloor (IZR v * bpow (- k) + / 2) = (2 * v + 2 ^ k) / 2 ^ (k + 1).
Proof.
  intros Hk. rewrite <- Zfloor_div by (apply Z.pow_pos_nonneg; lia).
  f_equal. rewrite plus_IZR, mult_IZR, <- !bpow_IZR by lia.
  rewrite bpow_succ, bpow_opp. pose proof (bpow_pos k). field. lra.
Qed.

Lemma round_half_up_mono a b : (a <= b)%R -> (round_half_up a <= round_half_up b)%R.
Proof. intros H. apply IZR_le, Zfloor_le. lra. Qed.

Lemma round_half_up_IZR n : round_half_up (IZR n) = IZR n.
Proof. unfold round_half_up. f_equal. apply Zfloor_eq. lra. Qed.

Lemma Math_round_Rounded y :
  valid y = true -> isFinite y = true ->
  Rounded (round_half_up (B2R y)) (Math_round y).
Proof.
  intros Vy Fy. destruct y as [s | s | | s m e]; try discriminate.
  - simpl B2R. change 0%R with (IZR 0). rewrite round_half_up_IZR.
    apply Rounded_zero.
  - unfold Math_round. destruct (Z.leb_spec 0 e) as [He | He].
    + replace (round_half_up (B2R (S754_finite s m e)))
        with (B2R (S754_finite s m e)); [apply Rounded_B2R; assumption |].
      simpl B2R. rewrite (bpow_IZR e He), <- mult_IZR.
      destruct s; unfold sgn.
      * rewrite <- opp_IZR, round_half_up_IZR. reflexivity.
      * rewrite round_half_up_IZR. reflexivity.
    + set (k := - e). assert (Hk : 0 < k) by (unfold k; lia).
      assert (Ek : e = - k) by (unfold k; lia).
      match goal with |- Rounded _ (binary_normalize _ _ ?q _ _) =>
        replace (round_half_up (B2R (S754_finite s m e))) with (IZR q * bpow 0)%R;
          [apply binary_normalize_Rounded |]
      end.
      rewrite bpow_0, Rmult_1_r. unfold round_half_up. f_equal. simpl B2R.
      destruct s; unfold sgn.
      * unfold round_half_up_neg. destruct e as [| p | p]; try lia.
        rewrite Ropp_mult_distr_l, <- opp_IZR.
        change (- Zpos m) with (Zneg m).
        change (Zneg p) with (- Zpos p).
        rewrite (half_up_floor (Zneg m) (Zpos p)) by lia. reflexivity.
      * unfold round_half_up_pos. destruct e as [| p | p]; try lia.
        change (Zneg p) with (- Zpos p).
        rewrite (half_up_floor (Zpos m) (Zpos p)) by lia. reflexivity.
Qed.

Lemma Math_round_mono y1 y2 :
  valid y1 = true -> valid y2 = true ->
  leb y1 y2 = true -> leb (Math_round y1) (Math_round y2) = true.
Proof.
  apply (monotone_extension Math_round round_half_up).
  - apply round_half_up_mono.
  - apply Math_round_Rounded.
  - reflexivity.
  - reflexivity.
Qed.

Lemma Math_round_valid y :
  valid y = true -> isNaN y = false ->
  valid (Math_round y) = true /\ isNaN (Math_round y) = false.
Proof.
  apply (monotone_extension_valid Math_round round_half_up).
  - apply Math_round_Rounded.
  - reflexivity.
  - reflexivity.
Qed.

(** ** Rounding to two decimals, as [computeKelly] does *)

Lemma n100_finite : n100 = S754_finite false 7036874417766400 (-46).
Proof. reflexivity. Qed.

Lemma round2_mono y1 y2 :
  valid y1 = true -> valid y2 = true ->
  leb y1 y2 = true -> leb (round2 y1) (round2 y2) = true.
Proof.
  intros V1 V2 H. destruct (leb_not_NaN _ _ H) as [N1 N2].
  unfold round2. rewrite n100_finite.
  pose proof (mul_pos_valid 7036874417766400 (-46) eq_refl y1 V1 N1) as [Vm1 Nm1].
  pose proof (mul_pos_valid 7036874417766400 (-46) eq_refl y2 V2 N2) as [Vm2 Nm2].
  apply (div_mono_l 7036874417766400 (-46));
    [apply (Math_round_valid _ Vm1 Nm1) | apply (Math_round_valid _ Vm2 Nm2) |].
  apply Math_round_mono; try assumption.
  apply (mul_mono_l 7036874417766400 (-46) eq_refl); assumption.
Qed.

Lemma round2_valid y :
  valid y = true -> isNaN y = false ->
  valid (round2 y) = true /\ isNaN (round2 y) = false.
Proof.
  intros V N. unfold round2. rewrite n100_finite.
  pose proof (mul_pos_valid 7036874417766400 (-46) eq_refl y V N) as [Vm Nm].
  pose proof (Math_round_valid _ Vm Nm) as [Vr Nr].
  apply (div_pos_valid 7036874417766400 (-46)); assumption.
Qed.

(** ** Rounding to four decimals, as [americanToDecimal] does *)

Lemma monotone_extension_nonneg (f : number -> number) (g : R -> R) :
  (forall a b : R, (0 <= a)%R -> (a <= b)%R -> (g a <= g b)%R) ->
  (forall y, valid y = true -> isFinite y = true -> (0 <= B2R y)%R ->
             Rounded (g (B2R y)) (f y)) ->
  f Infinity = Infinity ->
  forall y1 y2,
    valid y1 = true -> valid y2 = true ->
    leb pzero y1 = true -> leb y1 y2 = true ->
    leb (f y1) (f y2) = true
    /\ valid (f y1) = true /\ isNaN (f y1) = false.
Proof.
  intros Hg Hf Hinf y1 y2 V1 V2 H0 H.
  destruct (leb_not_NaN _ _ H) as [N1 N2].
  assert (H02 : leb pzero y2 = true) by (apply (leb_trans pzero y1 y2); auto).
  assert (P : forall y, valid y = true -> isFinite y = true ->
                        leb pzero y = true -> (0 <= B2R y)%R).
  { intros y V F L. apply (leb_B2R pzero y) in L; auto. }
  destruct (isFinite y1) eqn:F1, (isFinite y2) eqn:F2.
  - pose proof (Hf y1 V1 F1 (P y1 V1 F1 H0)) as R1.
    split; [| apply (Rounded_valid _ _ R1)].
    apply (Rounded_le (g (B2R y1)) _ (g (B2R y2)) _); try assumption.
    + apply Hf; auto.
    + apply Hg; [auto |]. apply leb_B2R; assumption.
  - pose proof (Hf y1 V1 F1 (P y1 V1 F1 H0)) as R1.
    split; [| apply (Rounded_valid _ _ R1)].
    destruct y2 as [| [] | |]; try discriminate.
    change (S754_infinity false) with Infinity. rewrite Hinf.
    apply leb_Infinity. apply (Rounded_valid _ _ R1).
  - destruct y1 as [| [] | |]; try discriminate.
    apply leb_Infinity_inv in H. subst y2. discriminate.
  - destruct y1 as [| [] | |]; try discriminate.
    apply leb_Infinity_inv in H. subst y2.
    change (S754_infinity false) with Infinity. rewrite Hinf.
    repeat split; reflexivity.
Qed.

Lemma B2R_ten21 : B2R ten21 = IZR (10 ^ 21).
Proof.
  unfold ten21, B2R, sgn. rewrite (bpow_IZR 17) by lia.
  rewrite <- mult_IZR. f_equal.
Qed.

Lemma fixed4_mono a b : (0 <= a)%R -> (a <= b)%R -> (fixed4 a <= fixed4 b)%R.
Proof.
  intros Ha Hab. unfold fixed4.
  assert (H4 : (0 < IZR (10 ^ 4))%R) by (apply IZR_lt; lia).
  destruct (Rle_dec (IZR (10 ^ 21)) a) as [Ta | Ta],
           (Rle_dec (IZR (10 ^ 21)) b) as [Tb | Tb]; try lra.
  - apply Rle_trans with (IZR (10 ^ 21)); [| assumption].
    apply (Rmult_le_reg_r (IZR (10 ^ 4))); [assumption |].
    unfold Rdiv. rewrite Rmult_assoc, Rinv_l, Rmult_1_r by lra.
    rewrite <- mult_IZR. unfold round_half_up. apply IZR_le.
    pose proof (Zfloor_bound (a * IZR (10 ^ 4) + / 2)) as [Hlo _].
    assert (IZR (Zfloor (a * IZR (10 ^ 4) + / 2)) < IZR (10 ^ 21 * 10 ^ 4 + 1))%R.
    { rewrite plus_IZR, mult_IZR. nra. }
    apply lt_IZR in H. lia.
  - unfold Rdiv. apply Rmult_le_compat_r.
    + apply Rlt_le, Rinv_0_lt_compat. assumption.
    + apply round_half_up_mono. apply Rmult_le_compat_r; lra.
Qed.

Lemma toFixed_digits m e f :
  SFleb ten21 (S754_finite false m e) = false ->
  toFixed f (S754_finite false m e) =
  Fixed false
    (Z.to_N (Zfloor (IZR (Zpos m) * bpow e * IZR (10 ^ Z.of_nat f) + / 2))) f.
Proof.
  intros H. unfold toFixed. simpl SFabs. rewrite H. f_equal. f_equal.
  assert (Hf : 0 < 10 ^ Z.of_nat f) by (apply Z.pow_pos_nonneg; lia).
  destruct e as [| p | p].
  - rewrite bpow_0, Rmult_1_r, <- mult_IZR. symmetry. apply Zfloor_eq. lra.
  - rewrite (bpow_IZR (Zpos p)) by lia. rewrite <- !mult_IZR.
    symmetry. replace (Zpos m * 2 ^ Zpos p * 10 ^ Z.of_nat f)
      with (Zpos m * 10 ^ Z.of_nat f * 2 ^ Zpos p) by ring.
    apply Zfloor_eq. lra.
  - change (Zneg p) with (- Zpos p).
    replace (IZR (Zpos m) * bpow (- Zpos p) * IZR (10 ^ Z.of_nat f))%R
      with (IZR (Zpos m * 10 ^ Z.of_nat f) * bpow (- Zpos p))%R
      by (rewrite mult_IZR; ring).
    rewrite half_up_floor by lia. reflexivity.
Qed.

Lemma round4_Rounded y :
  valid y = true -> isFinite y = true -> (0 <= B2R y)%R ->
  Rounded (fixed4 (B2R y)) (round4 y).
Proof.
  intros V F H0. destruct y as [s | s | | s m e]; try discriminate.
  - simpl B2R. unfold fixed4.
    destruct (Rle_dec (IZR (10 ^ 21)) 0) as [T | T].
    + exfalso. change 0%R with (IZR 0) in T. apply le_IZR in T. lia.
    + unfold round4. simpl.
      rewrite Rmult_0_l. change 0%R with (IZR 0). rewrite round_half_up_IZR.
      unfold Rdiv. rewrite Rmult_0_l. apply Rounded_zero.
  - destruct s.
    + exfalso. pose proof (B2R_finite_pos m e). simpl in *. unfold sgn in *. lra.
    + unfold round4, fixed4.
      destruct (SFleb ten21 (S754_finite false m e)) eqn:L.
      * assert (T : (IZR (10 ^ 21) <= B2R (S754_finite false m e))%R).
        { rewrite <- B2R_ten21. apply leb_B2R; auto. }
        destruct (Rle_dec _ _) as [_ | N]; [| contradiction].
        unfold toFixed. simpl SFabs. rewrite L. simpl ToNumber.
        apply Rounded_B2R; assumption.
      * assert (T : (B2R (S754_finite false m e) < IZR (10 ^ 21))%R).
        { rewrite <- B2R_ten21. apply leb_false_B2R; auto. }
        destruct (Rle_dec _ _) as [N | _]; [lra |].
        rewrite (toFixed_digits m e 4 L). simpl ToNumber.
        set (n := Zfloor (IZR (Zpos m) * bpow e * IZR (10 ^ Z.of_nat 4) + / 2)).
        assert (Hn : 0 <= n).
        { apply Zfloor_lub. simpl B2R in H0. unfold sgn in H0.
          assert (0 < IZR (10 ^ Z.of_nat 4))%R by (apply IZR_lt; reflexivity).
          simpl IZR at 1. nra. }
        pose proof (of_decimal_Rounded false (Z.to_N n) 4) as R.
        rewrite Z2N.id in R by assumption. exact R.
Qed.

Lemma round4_mono y1 y2 :
  valid y1 = true -> valid y2 = true ->
  leb pzero y1 = true -> leb y1 y2 = true ->
  leb (round4 y1) (round4 y2) = true
  /\ valid (round4 y1) = true /\ isNaN (round4 y1) = false.
Proof.
  apply (monotone_extension_nonneg round4 fixed4).
  - apply fixed4_mono.
  - apply round4_Rounded.
  - reflexivity.
Qed.

(** * The Number model on known JavaScript results *)

Example add_0_1_0_2 :
  add (of_decimal false 1 1) (of_decimal false 2 1)
  = of_decimal false 30000000000000004 17.
Proof. vm_compute. reflexivity. Qed.

Example Math_round_ties_up :
  Math_round (of_decimal false 25 1) = of_Z 3
  /\ Math_round (of_decimal true 25 1) = of_Z (-2)
  /\ Math_round (of_decimal true 5 1) = nzero
  /\ Math_round (of_decimal false 4 1) = pzero.
Proof. repeat split; vm_compute; reflexivity. Qed.

Example Math_max_min_zeros :
  Math_max pzero nzero = pzero /\ Math_max nzero pzero = pzero
  /\ Math_min pzero nzero = nzero /\ Math_min nzero pzero = nzero
  /\ Math_max NaN n1 = NaN /\ Math_min n1 NaN = NaN.
Proof. repeat split; reflexivity. Qed.

(** [(1.005).toFixed(2)] is ["1.00"]: the Number [1.005] lies below the
    decimal it is written with. *)
Example toFixed_1_005 :
  toFixed 2 (of_decimal false 1005 3) = Fixed false 100 2
  /\ toFixed 4 (of_decimal false 178125 5) = Fixed false 17813 4
  /\ toFixed 2 (of_decimal true 1 3) = Fixed true 0 2
  /\ ToNumber (Fixed true 0 2) = nzero.
Proof. repeat split; vm_compute; reflexivity. Qed.

Example americanToDecimal_examples :
  americanToDecimal example_StringToNumber (VNum n150)
    = Some (of_decimal false 25 1)
  /\ americanToDecimal example_StringToNumber (VStr "-200") = Some n1_5
  /\ americanToDecimal example_StringToNumber (VNum (of_Z (-128)))
      = Some (of_decimal false 17813 4)
  /\ americanToDecimal example_StringToNumber (VStr "abc") = None
  /\ americanToDecimal example_StringToNumber VNull = Some Infinity.
Proof. repeat split; vm_compute; reflexivity. Qed.

(** * americanToDecimal *)

(** C5: [americanToDecimal] returns [null] exactly when [Number(a)] is not
    finite; the input [0] (of either sign) is finite, goes through the
    branch [100/|a| + 1] and yields [Infinity], not [null]. *)
Theorem americanToDecimal_null_iff_not_finite StringToNumber :
  (forall a : value,
      americanToDecimal StringToNumber a = None <->
      isFinite (Number StringToNumber a) = false)
  /\ (forall s : bool,
        isFinite (S754_zero s) = true
        /\ gtb (S754_zero s) n0 = false
        /\ americanToDecimal StringToNumber (VNum (S754_zero s)) =
           Some (ToNumber (toFixed 4 (add (div n100 (Math_abs (S754_zero s))) n1)))
        /\ americanToDecimal StringToNumber (VNum (S754_zero s)) = Some Infinity).
Proof.
  split.
  - intros a. unfold americanToDecimal.
    destruct (isFinite (Number StringToNumber a)); simpl.
    + split; [| discriminate]. destruct (gtb _ _); discriminate.
    + split; reflexivity.
  - intros s. repeat split; destruct s; reflexivity.
Qed.

Lemma add_comm x y : add x y = add y x.
Proof.
  destruct x as [sx | sx | | sx mx ex], y as [sy | sy | | sy my ey];
    try reflexivity; try (destruct sx, sy; reflexivity).
  unfold add, SFadd. rewrite (Z.min_comm ey ex). f_equal. apply Z.add_comm.
Qed.

Lemma ltb_leb_false x y : ltb x y = true -> leb y x = false.
Proof.
  unfold ltb, leb, SFltb, SFleb. rewrite (SFcompare_antisym x y).
  destruct (SFcompare x y) as [[] |]; simpl; congruence.
Qed.

Lemma negative_finite a :
  isFinite a = true -> ltb a n0 = true ->
  exists m e, a = S754_finite true m e.
Proof.
  destruct a as [s | s | | [] m e]; try discriminate; intros _ _. eauto.
Qed.

Lemma positive_input a :
  isFinite a = true -> gtb a n0 = true ->
  exists m e, a = S754_finite false m e.
Proof.
  destruct a as [s | s | | [] m e]; try discriminate; intros _ _. eauto.
Qed.

(** On the integer odds from 1 to 3000 and from -3000 to -1 the Number
    arithmetic loses nothing: the result is the Number nearest to the
    conversion computed and rounded exactly. *)
Lemma same_eq x y : same x y = true -> x = y.
Proof.
  destruct x as [a | a | | a m e], y as [b | b | | b m' e'];
    try discriminate; simpl; intros H.
  - apply Bool.eqb_prop in H. congruence.
  - apply Bool.eqb_prop in H. congruence.
  - reflexivity.
  - apply andb_prop in H as [H He]. apply andb_prop in H as [Hs Hm].
    apply Bool.eqb_prop in Hs. apply Pos.eqb_eq in Hm. apply Z.eqb_eq in He.
    congruence.
Qed.

Lemma agree_upto_spec n :
  agree_upto n = true ->
  forall k, (1 <= k <= n)%nat -> agrees (Z.of_nat k) = true.
Proof.
  induction n as [| n IH]; intros H k Hk; [lia |].
  simpl in H. apply andb_prop in H as [H1 H2].
  destruct (Nat.eq_dec k (S n)) as [-> | Hne]; [exact H2 |].
  apply IH; [exact H1 | lia].
Qed.

Lemma americanToDecimal_of_Number StringToNumber StringToNumber' (x : number) :
  americanToDecimal StringToNumber (VNum x)
  = americanToDecimal StringToNumber' (VNum x).
Proof. reflexivity. Qed.

(** X1: for every integer [a] from 1 to 3000, [americanToDecimal(a)] and
    [americanToDecimal(-a)] are exactly the Numbers nearest to the decimal
    odds [1 + a/100] and [1 + 100/a] computed without rounding error and
    then rounded to four decimals, a tie going up. *)
Theorem americanToDecimal_exact_on_integer_odds StringToNumber (a : Z) :
  1 <= a <= 3000 ->
  americanToDecimal StringToNumber (VNum (of_Z a))
    = Some (of_decimal false (exact_pos a) 4)
  /\ americanToDecimal StringToNumber (VNum (of_Z (- a)))
      = Some (of_decimal false (exact_neg a) 4).
Proof.
  intros Ha.
  assert (Hall : agree_upto (Z.to_nat 3000) = true) by (vm_compute; reflexivity).
  pose proof (agree_upto_spec _ Hall (Z.to_nat a) ltac:(lia)) as H.
  rewrite Z2Nat.id in H by lia. unfold agrees in H.
  rewrite (americanToDecimal_of_Number StringToNumber (fun _ => NaN) (of_Z a)).
  rewrite (americanToDecimal_of_Number StringToNumber (fun _ => NaN) (of_Z (- a))).
  destruct (americanToDecimal (fun _ => NaN) (VNum (of_Z a))) as [d |];
    [| discriminate].
  destruct (americanToDecimal (fun _ => NaN) (VNum (of_Z (- a)))) as [d' |];
    [| discriminate].
  apply andb_prop in H as [H1 H2].
  apply same_eq in H1, H2. subst. split; reflexivity.
Qed.

Lemma americanToDecimal_exact_on_integer_odds_witness :
  americanToDecimal example_StringToNumber (VNum (of_Z 150))
    = Some (of_decimal false 25000 4)
  /\ americanToDecimal example_StringToNumber (VNum (of_Z (- 150)))
      = Some (of_decimal false 16667 4).
Proof.
  apply (americanToDecimal_exact_on_integer_odds example_StringToNumber 150).
  lia.
Defined.

(** The decimal odds as a function of the American quotient. *)
Lemma n1_finite : n1 = S754_finite false 4503599627370496 (-52).
Proof. reflexivity. Qed.

Lemma decimal_mono y1 y2 :
  valid y1 = true -> valid y2 = true ->
  leb pzero y1 = true -> leb y1 y2 = true ->
  leb n1 (round4 (add y1 n1)) = true
  /\ leb (round4 (add y1 n1)) (round4 (add y2 n1)) = true.
Proof.
  intros V1 V2 H0 H. destruct (leb_not_NaN _ _ H) as [N1 N2].
  destruct (add_finite_valid n1 eq_refl eq_refl y1 V1 N1) as [Vw1 Nw1].
  destruct (add_finite_valid n1 eq_refl eq_refl y2 V2 N2) as [Vw2 Nw2].
  assert (L1 : leb n1 (add y1 n1) = true).
  { change n1 with (add pzero n1) at 1.
    apply (add_mono_l n1 eq_refl eq_refl); auto. }
  assert (L12 : leb (add y1 n1) (add y2 n1) = true)
    by (apply (add_mono_l n1 eq_refl eq_refl); auto).
  assert (L0 : leb pzero (add y1 n1) = true)
    by (apply (leb_trans pzero n1); auto).
  split.
  - change n1 with (round4 n1) at 1.
    apply (round4_mono n1 (add y1 n1)); auto.
  - apply (round4_mono (add y1 n1) (add y2 n1)); auto.
Qed.

Lemma american_quotient_pos m e :
  valid (S754_finite false m e) = true ->
  valid (div (S754_finite false m e) n100) = true
  /\ leb pzero (div (S754_finite false m e) n100) = true.
Proof.
  intros V. rewrite n100_finite.
  split.
  - apply (div_pos_valid 7036874417766400 (-46)); auto.
  - change pzero with (div pzero (S754_finite false 7036874417766400 (-46))) at 1.
    apply (div_mono_l 7036874417766400 (-46)); auto.
Qed.

Lemma american_quotient_neg m e :
  valid (S754_finite false m e) = true ->
  Rounded (B2R n100 / B2R (S754_finite false m e))
          (div n100 (S754_finite false m e))
  /\ valid (div n100 (S754_finite false m e)) = true
  /\ leb pzero (div n100 (S754_finite false m e)) = true.
Proof.
  intros V.
  pose proof (div_Rounded n100 false m e eq_refl eq_refl) as R.
  split; [assumption |]. split; [apply (Rounded_valid _ _ R) |].
  apply (Rounded_le _ _ _ _ (Rounded_zero false) R).
  pose proof (B2R_finite_pos m e). rewrite n100_finite.
  pose proof (B2R_finite_pos 7036874417766400 (-46)).
  apply Rlt_le, Rdiv_lt_0_compat; assumption.
Qed.




(** C7: the conversion is increasing in [a] on the positive inputs and
    decreasing in [|a|] on the negative ones. *)
Theorem americanToDecimal_monotone StringToNumber (v1 v2 : value) :
  valid (Number StringToNumber v1) = true ->
  valid (Number StringToNumber v2) = true ->
  isFinite (Number StringToNumber v1) = true ->
  isFinite (Number StringToNumber v2) = true ->
  (gtb (Number StringToNumber v1) n0 = true ->
   ltb (Number StringToNumber v1) (Number StringToNumber v2) = true ->
   exists d1 d2,
     americanToDecimal StringToNumber v1 = Some d1
     /\ americanToDecimal StringToNumber v2 = Some d2
     /\ leb d1 d2 = true)
  /\ (ltb (Number StringToNumber v1) n0 = true ->
      ltb (Number StringToNumber v2) n0 = true ->
      ltb (Math_abs (Number StringToNumber v1))
          (Math_abs (Number StringToNumber v2)) = true ->
      exists d1 d2,
        americanToDecimal StringToNumber v1 = Some d1
        /\ americanToDecimal StringToNumber v2 = Some d2
        /\ leb d2 d1 = true).
Proof.
  unfold americanToDecimal.
  generalize (Number StringToNumber v1) as a1.
  generalize (Number StringToNumber v2) as a2.
  intros a2 a1 V1 V2 F1 F2. cbv zeta.
  rewrite F1, F2. simpl negb. cbv iota. split.
  - intros H1 H12.
    destruct (positive_input a1 F1 H1) as (m1 & e1 & ->).
    assert (H2 : gtb a2 n0 = true).
    { destruct a2 as [s | s | | [] m2 e2]; try discriminate; reflexivity. }
    destruct (positive_input a2 F2 H2) as (m2 & e2 & ->).
    simpl gtb. do 2 eexists. split; [reflexivity |]. split; [reflexivity |].
    destruct (american_quotient_pos m1 e1 V1) as (Vy1 & Ly1).
    destruct (american_quotient_pos m2 e2 V2) as (Vy2 & Ly2).
    apply (decimal_mono _ _ Vy1 Vy2 Ly1).
    rewrite n100_finite. apply (div_mono_l 7036874417766400 (-46)); auto.
    apply ltb_leb. assumption.
  - intros H1 H2 H12.
    destruct (negative_finite a1 F1 H1) as (m1 & e1 & ->).
    destruct (negative_finite a2 F2 H2) as (m2 & e2 & ->).
    simpl gtb. simpl Math_abs in *.
    do 2 eexists. split; [reflexivity |]. split; [reflexivity |].
    destruct (american_quotient_neg m1 e1 V1) as (R1 & Vy1 & Ly1).
    destruct (american_quotient_neg m2 e2 V2) as (R2 & Vy2 & Ly2).
    apply (decimal_mono _ _ Vy2 Vy1 Ly2).
    apply (Rounded_le _ _ _ _ R2 R1).
    pose proof (B2R_finite_pos m1 e1) as P1.
    pose proof (B2R_finite_pos m2 e2) as P2.
    assert (L : (B2R (S754_finite false m1 e1) < B2R (S754_finite false m2 e2))%R)
      by (apply ltb_B2R; auto).
    rewrite n100_finite.
    pose proof (B2R_finite_pos 7036874417766400 (-46)) as P100.
    unfold Rdiv. apply Rmult_le_compat_l; [lra |].
    apply Rinv_le_contravar; lra.
Qed.

Lemma americanToDecimal_monotone_witness :
  (exists d1 d2,
      americanToDecimal example_StringToNumber (VNum n100) = Some d1
      /\ americanToDecimal example_StringToNumber (VNum n150) = Some d2
      /\ leb d1 d2 = true)
  /\ (exists d1 d2,
        americanToDecimal example_StringToNumber (VNum minus150) = Some d1
        /\ americanToDecimal example_StringToNumber (VNum minus200) = Some d2
        /\ leb d2 d1 = true).
Proof.
  split.
  - apply (proj1 (americanToDecimal_monotone example_StringToNumber
                    (VNum n100) (VNum n150)
                    eq_refl eq_refl eq_refl eq_refl)); reflexivity.
  - apply (proj2 (americanToDecimal_monotone example_StringToNumber
                    (VNum minus150) (VNum minus200)
                    eq_refl eq_refl eq_refl eq_refl)); reflexivity.
Defined.

(** * computeKelly *)

Lemma computeKelly_main bankroll percentCap odds prob :
  computeKelly bankroll percentCap odds prob =
  if negb (truthy odds) || negb (truthy prob) || leb odds n0
     || leb prob n0 || geb prob n1
  then pzero
  else if leb (sub odds n1) n0 then pzero
  else round2 (Math_max (cappedStake bankroll percentCap odds prob) n0_10).
Proof. reflexivity. Qed.

(** C4: [computeKelly(1000, 0.02, 2.0, 0.55)] is [20.00]: the Kelly
    fraction is [0.10] and the raw stake [100] (to the cent), and the cap
    [20] is the smaller; [computeKelly(1000, 0.02, 1.5, 0.5)] is [0.10]: the
    Kelly fraction [-0.5] is clamped to [0] and the stake [0] is raised to
    the floor. *)
Theorem computeKelly_reference_evaluations :
  (computeKelly n1000 n0_02 n2_0 n0_55 = n20_00
   /\ round2 (kellyFraction n2_0 n0_55) = n0_10
   /\ round2 (mul (Math_max pzero (kellyFraction n2_0 n0_55)) n1000) = n100
   /\ mul n0_02 n1000 = n20_00
   /\ cappedStake n1000 n0_02 n2_0 n0_55 = n20_00)
  /\ (computeKelly n1000 n0_02 n1_5 n0_5 = n0_10
      /\ kellyFraction n1_5 n0_5 = of_decimal true 5 1
      /\ Math_max pzero (kellyFraction n1_5 n0_5) = pzero
      /\ cappedStake n1000 n0_02 n1_5 n0_5 = pzero
      /\ Math_max (cappedStake n1000 n0_02 n1_5 n0_5) n0_10 = n0_10).
Proof. repeat split; vm_compute; reflexivity. Qed.

(** ** The precondition branch *)

(** C2, as the script behaves: when the probability is at most 0 or at
    least 1, [computeKelly] returns exactly [0.0]; the floor of [0.10] is
    not applied on this branch. *)
Theorem computeKelly_prob_outside_unit_interval bankroll percentCap odds prob :
  leb prob n0 = true \/ geb prob n1 = true ->
  computeKelly bankroll percentCap odds prob = pzero.
Proof.
  intros H. unfold computeKelly.
  destruct H as [-> | ->]; rewrite ?orb_true_r; reflexivity.
Qed.

Lemma computeKelly_prob_outside_unit_interval_witness :
  geb n1 n1 = true /\ computeKelly n1000 n0_02 n2_0 n1 = pzero.
Proof.
  split; [reflexivity |].
  apply (computeKelly_prob_outside_unit_interval n1000 n0_02 n2_0 n1).
  right. reflexivity.
Defined.

(** At [p = 1] the returned value is [0.0], which is not [0.10]. *)
Lemma computeKelly_prob_one_not_floor :
  geb n1 n1 = true /\ computeKelly n1000 n0_02 n2_0 n1 <> n0_10.
Proof. split; [reflexivity | vm_compute; discriminate]. Qed.

(** ** The main path of computeKelly *)

Lemma B2R_n1 : B2R n1 = 1%R.
Proof.
  change n1 with (S754_finite false 4503599627370496 (-52)).
  unfold B2R, sgn. change (-52) with (Z.opp 52).
  rewrite bpow_opp, (bpow_IZR 52) by lia.
  change (2 ^ 52) with 4503599627370496. field.
Qed.

Lemma Rounded_one : Rounded 1 n1.
Proof. rewrite <- B2R_n1. apply Rounded_B2R; reflexivity. Qed.

Lemma finite_between lo x hi :
  isFinite lo = true -> isFinite hi = true ->
  leb lo x = true -> leb x hi = true -> isFinite x = true.
Proof.
  intros Flo Fhi H1 H2. destruct x as [| [] | |]; try reflexivity.
  - apply leb_neg_Infinity_inv in H1. subst lo. discriminate.
  - apply leb_Infinity_inv in H2. subst hi. discriminate.
  - discriminate.
Qed.

(** A Number that is not [<= 0] and is finite has a positive mantissa. *)
Lemma positive_finite x :
  isFinite x = true -> leb x n0 = false -> isNaN x = false ->
  exists m e, x = S754_finite false m e.
Proof.
  destruct x as [s | s | | [] m e]; try discriminate; intros _ _ _. eauto.
Qed.

Lemma precondition_fails_false odds prob :
  precondition_fails odds prob = false ->
  truthy odds = true /\ truthy prob = true /\ leb odds n0 = false
  /\ leb prob n0 = false /\ leb n1 prob = false.
Proof.
  unfold precondition_fails, geb. intros H.
  repeat (apply orb_false_elim in H as [H ?]).
  apply negb_false_iff in H, H3. auto.
Qed.

Lemma prob_in_unit_interval p :
  truthy p = true -> leb p n0 = false -> leb n1 p = false ->
  exists m e, p = S754_finite false m e.
Proof.
  destruct p as [s | [] | | [] m e]; try discriminate; intros _ _ _. eauto.
Qed.

Section MainPath.

Variables bankroll percentCap odds prob : number.
Hypothesis VB : valid bankroll = true.
Hypothesis Vc : valid percentCap = true.
Hypothesis Vo : valid odds = true.
Hypothesis Vp : valid prob = true.
Hypothesis FB : isFinite bankroll = true.
Hypothesis Fc : isFinite percentCap = true.
Hypothesis Fo : isFinite odds = true.
Hypothesis Hpre : precondition_fails odds prob = false.
Hypothesis Hnet : leb (sub odds n1) n0 = false.

Lemma kellyFraction_at_most_one :
  valid (kellyFraction odds prob) = true
  /\ isNaN (kellyFraction odds prob) = false
  /\ leb (kellyFraction odds prob) n1 = true.
Proof.
  destruct (precondition_fails_false _ _ Hpre) as (To & Tp & Ho & Hp0 & Hp1).
  destruct (prob_in_unit_interval prob Tp Hp0 Hp1) as (mp & ep & Ep).
  assert (Fp : isFinite prob = true) by (rewrite Ep; reflexivity).
  assert (P0 : (0 < B2R prob)%R) by (rewrite Ep; apply B2R_finite_pos).
  assert (P1 : (B2R prob < 1)%R).
  { rewrite <- B2R_n1. apply leb_false_B2R; auto. }
  (* b = odds - 1 *)
  pose proof (sub_Rounded odds n1 Vo eq_refl Fo eq_refl) as Rb.
  rewrite B2R_n1 in Rb.
  destruct (Rounded_valid _ _ Rb) as [Vb Nb].
  assert (Lbo : leb (sub odds n1) odds = true).
  { apply (Rounded_le _ _ _ _ Rb (Rounded_B2R odds Vo Fo)). lra. }
  assert (Fb : isFinite (sub odds n1) = true).
  { destruct (sub odds n1) as [| [] | |] eqn:E; try reflexivity; try discriminate.
    apply leb_Infinity_inv in Lbo. rewrite Lbo in Fo. discriminate. }
  destruct (positive_finite _ Fb Hnet Nb) as (mb & eb & Eb).
  unfold kellyFraction. cbv zeta.
  set (b := sub odds n1) in *.
  assert (B0 : (0 < B2R b)%R) by (rewrite Eb; apply B2R_finite_pos).
  (* X = b * prob *)
  pose proof (mul_Rounded b prob Vb Vp Fb Fp) as RX.
  destruct (Rounded_valid _ _ RX) as [VX NX].
  assert (LX0 : leb pzero (mul b prob) = true).
  { apply (Rounded_le _ _ _ _ (Rounded_zero false) RX). nra. }
  assert (LXb : leb (mul b prob) b = true).
  { apply (Rounded_le _ _ _ _ RX (Rounded_B2R b Vb Fb)). nra. }
  assert (FX : isFinite (mul b prob) = true)
    by (apply (finite_between pzero _ b); auto).
  (* Y = 1 - prob *)
  pose proof (sub_Rounded n1 prob eq_refl Vp eq_refl Fp) as RY.
  rewrite B2R_n1 in RY.
  destruct (Rounded_valid _ _ RY) as [VY NY].
  assert (LY0 : leb pzero (sub n1 prob) = true).
  { apply (Rounded_le _ _ _ _ (Rounded_zero false) RY). lra. }
  assert (LY1 : leb (sub n1 prob) n1 = true).
  { apply (Rounded_le _ _ _ _ RY Rounded_one). lra. }
  assert (FY : isFinite (sub n1 prob) = true)
    by (apply (finite_between pzero _ n1); auto).
  (* num = X - Y *)
  set (X := mul b prob) in *. set (Y := sub n1 prob) in *.
  pose proof (sub_Rounded X Y VX VY FX FY) as Rn.
  destruct (Rounded_valid _ _ Rn) as [Vn Nn].
  assert (BX : (0 <= B2R X <= B2R b)%R).
  { split; [apply (leb_B2R pzero X) | apply leb_B2R]; auto. }
  assert (BY : (0 <= B2R Y <= 1)%R).
  { split; [apply (leb_B2R pzero Y) | rewrite <- B2R_n1; apply leb_B2R]; auto. }
  assert (Lnb : leb (sub X Y) b = true).
  { apply (Rounded_le _ _ _ _ Rn (Rounded_B2R b Vb Fb)). lra. }
  assert (Lnm : leb (of_Z (-1)) (sub X Y) = true).
  { apply (Rounded_le _ _ _ _ (of_Z_Rounded (-1)) Rn). lra. }
  assert (Fn : isFinite (sub X Y) = true)
    by (apply (finite_between (of_Z (-1)) _ b); auto).
  (* f = num / b *)
  rewrite Eb at 2.
  pose proof (div_Rounded (sub X Y) false mb eb Vn Fn) as Rf.
  rewrite <- Eb in Rf.
  destruct (Rounded_valid _ _ Rf) as [Vf Nf].
  rewrite <- Eb.
  split; [assumption |]. split; [assumption |].
  apply (Rounded_le _ _ _ _ Rf Rounded_one).
  assert (B2R (sub X Y) <= B2R b)%R by (apply leb_B2R; auto).
  apply (Rmult_le_reg_r (B2R b)); [assumption |].
  unfold Rdiv. rewrite Rmult_assoc, Rinv_l, Rmult_1_r, Rmult_1_l by lra.
  assumption.
Qed.

Lemma cappedStake_is_a_number :
  valid (cappedStake bankroll percentCap odds prob) = true
  /\ isNaN (cappedStake bankroll percentCap odds prob) = false
  /\ leb (cappedStake bankroll percentCap odds prob)
         (mul percentCap bankroll) = true.
Proof.
  destruct kellyFraction_at_most_one as (Vf & Nf & Lf).
  unfold cappedStake.
  set (f0 := kellyFraction odds prob) in *.
  destruct (Math_max_valid pzero f0 eq_refl Vf eq_refl Nf) as [Vm Nm].
  assert (L0 : leb pzero (Math_max pzero f0) = true)
    by (apply Math_max_ge_l; auto).
  assert (L1 : leb (Math_max pzero f0) n1 = true)
    by (apply Math_max_lub; auto).
  assert (Ff : isFinite (Math_max pzero f0) = true)
    by (apply (finite_between pzero _ n1); auto).
  pose proof (mul_Rounded _ _ Vm VB Ff FB) as Rraw.
  destruct (Rounded_valid _ _ Rraw) as [Vraw Nraw].
  pose proof (mul_Rounded _ _ Vc VB Fc FB) as Rcap.
  destruct (Rounded_valid _ _ Rcap) as [Vcap Ncap].
  destruct (Math_min_valid _ _ Vraw Vcap Nraw Ncap) as [Vmin Nmin].
  split; [assumption |]. split; [assumption |].
  apply Math_min_le_r; assumption.
Qed.

Lemma computeKelly_main_path :
  computeKelly bankroll percentCap odds prob =
  round2 (Math_max (cappedStake bankroll percentCap odds prob) n0_10).
Proof.
  rewrite computeKelly_main. fold (precondition_fails odds prob). rewrite Hpre, Hnet.
  reflexivity.
Qed.

Lemma computeKelly_bounds :
  leb n0_10 (computeKelly bankroll percentCap odds prob) = true
  /\ leb (computeKelly bankroll percentCap odds prob)
         (round2 (Math_max (mul percentCap bankroll) n0_10)) = true.
Proof.
  rewrite computeKelly_main_path.
  destruct cappedStake_is_a_number as (Vs & Ns & Ls).
  set (cs := cappedStake bankroll percentCap odds prob) in *.
  pose proof (mul_Rounded _ _ Vc VB Fc FB) as Rcap.
  destruct (Rounded_valid _ _ Rcap) as [Vcap Ncap].
  destruct (Math_max_valid cs n0_10 Vs eq_refl Ns eq_refl) as [Vm Nm].
  destruct (Math_max_valid (mul percentCap bankroll) n0_10 Vcap eq_refl Ncap eq_refl)
    as [Vm' Nm'].
  split.
  - change n0_10 with (round2 n0_10) at 1.
    apply round2_mono; [reflexivity | assumption |].
    apply Math_max_ge_r; auto.
  - apply round2_mono; [assumption | assumption |].
    apply Math_max_mono_l; auto.
Qed.

End MainPath.

(** Decimal odds above 1 leave positive net odds. *)

Lemma after_one_le o : ltb n1 o = true -> leb after_one o = true.
Proof.
  destruct o as [s | [] | | [] m e]; try discriminate; try reflexivity.
  unfold ltb, leb, SFltb, SFleb, after_one. rewrite n1_finite. unfold SFcompare.
  destruct (Z.compare_spec (-52) e) as [<- | Hlt | Hgt]; try discriminate;
    [| reflexivity].
  change (PosDef.Pos.compare_cont Eq 4503599627370496 m)
    with (4503599627370496 ?= m)%positive.
  change (PosDef.Pos.compare_cont Eq 4503599627370497 m)
    with (4503599627370497 ?= m)%positive.
  destruct (Pos.compare_spec 4503599627370496 m); try discriminate. intros _.
  destruct (Pos.compare_spec 4503599627370497 m) as [| | Hlt]; try reflexivity.
  exfalso. change 4503599627370497%positive with (Pos.succ 4503599627370496) in Hlt.
  apply Pos.lt_succ_r in Hlt.
  exact (Pos.lt_irrefl _ (Pos.lt_le_trans _ _ _ H Hlt)).
Qed.

Lemma sub_one_mono y1 y2 :
  valid y1 = true -> valid y2 = true ->
  leb y1 y2 = true -> leb (sub y1 n1) (sub y2 n1) = true.
Proof.
  apply (monotone_extension (fun y => sub y n1) (fun r => r - B2R n1)%R).
  - intros a b H. lra.
  - intros y V F. apply sub_Rounded; auto.
  - reflexivity.
  - reflexivity.
Qed.

Lemma net_odds_positive o :
  valid o = true -> ltb n1 o = true -> leb (sub o n1) n0 = false.
Proof.
  intros V H. apply after_one_le in H.
  pose proof (sub_one_mono after_one o eq_refl V H) as L.
  change (sub after_one n1) with epsilon in L.
  destruct (leb (sub o n1) n0) eqn:E; [exfalso | reflexivity].
  destruct (leb_not_NaN _ _ L) as [_ N].
  assert (Vs : valid (sub o n1) = true).
  { destruct (isFinite o) eqn:F.
    - apply (Rounded_valid _ _ (sub_Rounded o n1 V eq_refl F eq_refl)).
    - destruct o as [| [] | |]; try discriminate; reflexivity. }
  pose proof (leb_trans epsilon (sub o n1) n0 eq_refl Vs eq_refl L E).
  discriminate.
Qed.

(** The checks of lines 11 and 13. *)
Lemma valid_input_passes_precondition o p :
  isFinite o = true -> ltb n1 o = true -> gtb p n0 = true -> ltb p n1 = true ->
  precondition_fails o p = false.
Proof.
  intros Fo Ho Hp0 Hp1.
  pose proof (ltb_leb_false _ _ Hp1) as E1.
  pose proof (ltb_leb_false _ _ Hp0) as E0.
  unfold precondition_fails, geb, leb in *. rewrite E1, E0.
  rewrite n1_finite in *. unfold gtb, ltb, n0, pzero in *.
  destruct o as [s | s | | [] m e]; try discriminate;
    destruct p as [s | s | | [] mp ep]; try discriminate; reflexivity.
Qed.

(** With [B = 1], [c = 0.125], [o = 3] and [p = 0.75] the cap is [0.125],
    and the stake returned is [0.13]. *)
Lemma computeKelly_exceeds_cap :
  leb n0 n1 = true /\ leb n0 n0_125 = true /\ leb n0_125 n1 = true
  /\ gtb n3 n1 = true /\ gtb n0_75 n0 = true /\ ltb n0_75 n1 = true
  /\ computeKelly n1 n0_125 n3 n0_75 = n0_13
  /\ Math_max (mul n0_125 n1) n0_10 = n0_125
  /\ leb (computeKelly n1 n0_125 n3 n0_75)
          (Math_max (mul n0_125 n1) n0_10) = false.
Proof. repeat split; vm_compute; reflexivity. Qed.

(** C3, as the script behaves: for every valid input the stake returned is
    [round2 s] for a Number [s] between [0.10] and [max(c*B, 0.10)]; so it is
    at least [0.10] and at most [max(c*B, 0.10)] rounded to two decimals. *)
Theorem computeKelly_between_floor_and_rounded_cap (B c o p : number) :
  valid B = true -> valid c = true -> valid o = true -> valid p = true ->
  isFinite B = true -> isFinite o = true ->
  leb n0 B = true ->
  leb n0 c = true -> leb c n1 = true ->
  gtb o n1 = true ->
  gtb p n0 = true -> ltb p n1 = true ->
  leb n0_10 (computeKelly B c o p) = true
  /\ leb (computeKelly B c o p) (round2 (Math_max (mul c B) n0_10)) = true
  /\ exists s,
      computeKelly B c o p = round2 s
      /\ leb n0_10 s = true
      /\ leb s (Math_max (mul c B) n0_10) = true.
Proof.
  intros VB Vc Vo Vp FB Fo HB Hc0 Hc1 Ho Hp0 Hp1.
  assert (Fc : isFinite c = true) by (apply (finite_between n0 c n1); auto).
  pose proof (valid_input_passes_precondition o p Fo Ho Hp0 Hp1) as Hpre.
  pose proof (net_odds_positive o Vo Ho) as Hnet.
  destruct (computeKelly_bounds B c o p VB Vc Vo Vp FB Fc Fo Hpre Hnet)
    as [L1 L2].
  split; [exact L1 |]. split; [exact L2 |].
  destruct (cappedStake_is_a_number B c o p VB Vc Vo Vp FB Fc Fo Hpre Hnet)
    as (Vs & Ns & Ls).
  destruct (Rounded_valid _ _ (mul_Rounded _ _ Vc VB Fc FB)) as [Vcap Ncap].
  exists (Math_max (cappedStake B c o p) n0_10).
  split; [apply computeKelly_main_path; assumption |].
  split.
  - apply Math_max_ge_r; auto.
  - apply Math_max_mono_l; auto.
Qed.

Lemma computeKelly_between_floor_and_rounded_cap_witness :
  leb n0_10 (computeKelly n1000 n0_02 n2_0 n0_55) = true
  /\ leb (computeKelly n1000 n0_02 n2_0 n0_55)
          (round2 (Math_max (mul n0_02 n1000) n0_10)) = true
  /\ exists s,
      computeKelly n1000 n0_02 n2_0 n0_55 = round2 s
      /\ leb n0_10 s = true
      /\ leb s (Math_max (mul n0_02 n1000) n0_10) = true.
Proof.
  apply (computeKelly_between_floor_and_rounded_cap n1000 n0_02 n2_0 n0_55);
    reflexivity.
Defined.

(** Decimal odds of [Infinity], which is what [americanToDecimal] makes of
    the input [0] and of an empty odds box, pass both checks and give NaN. *)
Lemma computeKelly_infinite_odds :
  americanToDecimal example_StringToNumber (VStr "") = Some Infinity
  /\ precondition_fails Infinity n0_5 = false
  /\ leb (sub Infinity n1) n0 = false
  /\ computeKelly n1000 n0_02 Infinity n0_5 = NaN
  /\ leb n0_10 (computeKelly n1000 n0_02 Infinity n0_5) = false
  /\ computeKelly n1000 n0_02 Infinity n0_5 <> pzero.
Proof. repeat split; try (vm_compute; reflexivity). vm_compute. discriminate. Qed.

(** C9, as the script behaves: for finite bankroll, cap fraction and odds,
    [computeKelly] returns exactly [0.0] when the precondition check or the
    net-odds check fails, and at least [0.10] on every other path. *)
Theorem computeKelly_zero_or_at_least_floor (B c o p : number) :
  valid B = true -> valid c = true -> valid o = true -> valid p = true ->
  isFinite B = true -> isFinite c = true -> isFinite o = true ->
  (precondition_fails o p = true \/ leb (sub o n1) n0 = true ->
   computeKelly B c o p = pzero)
  /\ (precondition_fails o p = false -> leb (sub o n1) n0 = false ->
      leb n0_10 (computeKelly B c o p) = true).
Proof.
  intros VB Vc Vo Vp FB Fc Fo. split.
  - intros H. rewrite computeKelly_main. fold (precondition_fails o p).
    destruct H as [-> | H]; [reflexivity |].
    rewrite H. destruct (precondition_fails o p); reflexivity.
  - intros Hg Hn. apply computeKelly_bounds; assumption.
Qed.

Lemma computeKelly_zero_or_at_least_floor_witness :
  computeKelly n1000 n0_02 n2_0 n1 = pzero
  /\ leb n0_10 (computeKelly n1000 n0_02 n2_0 n0_55) = true.
Proof.
  split.
  - apply (proj1 (computeKelly_zero_or_at_least_floor n1000 n0_02 n2_0 n1
                    eq_refl eq_refl eq_refl eq_refl eq_refl eq_refl eq_refl)).
    left. reflexivity.
  - apply (proj2 (computeKelly_zero_or_at_least_floor n1000 n0_02 n2_0 n0_55
                    eq_refl eq_refl eq_refl eq_refl eq_refl eq_refl eq_refl));
      reflexivity.
Defined.

(** * The page *)

Lemma setValue_Some id v p el :
  elements p !! id = Some el ->
  setValue id v p =
  Some (Page (<[id := Element v (textContent el)]> (elements p))
             (alerts p) (fetched p)).
Proof. intros H. unfold setValue. rewrite H. reflexivity. Qed.

Lemma setTextContent_Some id t p el :
  elements p !! id = Some el ->
  setTextContent id t p =
  Some (Page (<[id := Element (value_of el) t]> (elements p))
             (alerts p) (fetched p)).
Proof. intros H. unfold setTextContent. rewrite H. reflexivity. Qed.

(** What an assignment to [.value] leaves behind. *)
Lemma setValue_spec id v p :
  is_Some (elements p !! id) ->
  exists p',
    setValue id v p = Some p'
    /\ getValue id p' = Some v
    /\ (forall j, j <> id -> elements p' !! j = elements p !! j)
    /\ (forall j, is_Some (elements p !! j) -> is_Some (elements p' !! j))
    /\ alerts p' = alerts p /\ fetched p' = fetched p.
Proof.
  intros [el Hel]. eexists. split; [apply (setValue_Some _ _ _ _ Hel) |].
  unfold getValue; simpl. repeat split.
  - rewrite lookup_insert_eq. reflexivity.
  - intros j Hj. rewrite lookup_insert_ne; [reflexivity | congruence].
  - intros j Hj. destruct (decide (id = j)) as [-> | Hne].
    + rewrite lookup_insert_eq. eauto.
    + rewrite lookup_insert_ne; assumption.
Qed.

Lemma setTextContent_spec id t p :
  is_Some (elements p !! id) ->
  exists p',
    setTextContent id t p = Some p'
    /\ getTextContent id p' = Some t
    /\ getValue id p' = getValue id p
    /\ (forall j, j <> id -> elements p' !! j = elements p !! j)
    /\ (forall j, is_Some (elements p !! j) -> is_Some (elements p' !! j))
    /\ alerts p' = alerts p /\ fetched p' = fetched p.
Proof.
  intros [el Hel]. eexists. split; [apply (setTextContent_Some _ _ _ _ Hel) |].
  unfold getTextContent, getValue; simpl. repeat split.
  - rewrite lookup_insert_eq. reflexivity.
  - rewrite lookup_insert_eq, Hel. reflexivity.
  - intros j Hj. rewrite lookup_insert_ne; [reflexivity | congruence].
  - intros j Hj. destruct (decide (id = j)) as [-> | Hne].
    + rewrite lookup_insert_eq. eauto.
    + rewrite lookup_insert_ne; assumption.
Qed.

(** C8: when one of name, odds, probability and stake is empty, the submit
    handler shows the alert, calls [preventDefault] and changes nothing else
    (no element is written, no request is issued); when all four are
    non-empty, the six hidden fields receive the values, nothing is alerted
    or requested, and the event is left as it was, so the submission
    proceeds. *)
Theorem submitHandler_validates (p : page) (e : event)
    (name odds prob stake sport type : string) :
  getValue "bet_name" p = Some name ->
  getValue "odds_hidden" p = Some odds ->
  getValue "prob" p = Some prob ->
  getValue "actual_stake" p = Some stake ->
  getValue "sport" p = Some sport ->
  getValue "bet_type" p = Some type ->
  (nonempty name && nonempty odds && nonempty prob && nonempty stake = false ->
   submitHandler p e =
   Some (Page (elements p) (alerts p ++ ["Please fill in all fields."]) (fetched p),
         Event true))
  /\ (nonempty name && nonempty odds && nonempty prob && nonempty stake = true ->
      is_Some (elements p !! "form_name") ->
      is_Some (elements p !! "form_odds") ->
      is_Some (elements p !! "form_prob") ->
      is_Some (elements p !! "form_stake") ->
      is_Some (elements p !! "form_sport") ->
      is_Some (elements p !! "form_type") ->
      exists p',
        submitHandler p e = Some (p', e)
        /\ getValue "form_name" p' = Some name
        /\ getValue "form_odds" p' = Some odds
        /\ getValue "form_prob" p' = Some prob
        /\ getValue "form_stake" p' = Some stake
        /\ getValue "form_sport" p' = Some (or_default sport "")
        /\ getValue "form_type" p' = Some (or_default type "Moneyline")
        /\ alerts p' = alerts p
        /\ fetched p' = fetched p).
Proof.
  intros Hn Ho Hp Hs Hsp Hty. unfold submitHandler.
  rewrite Hn, Ho, Hp, Hs, Hsp, Hty. simpl.
  split.
  - intros Hempty.
    replace (negb (nonempty name) || negb (nonempty odds)
             || negb (nonempty prob) || negb (nonempty stake)) with true.
    + reflexivity.
    + destruct (nonempty name), (nonempty odds), (nonempty prob),
        (nonempty stake); simpl in *; congruence.
  - intros Hfull H1 H2 H3 H4 H5 H6.
    replace (negb (nonempty name) || negb (nonempty odds)
             || negb (nonempty prob) || negb (nonempty stake)) with false.
    2:{ destruct (nonempty name), (nonempty odds), (nonempty prob),
          (nonempty stake); simpl in *; congruence. }
    destruct (setValue_spec "form_name" name p H1)
      as (p1 & E1 & V1 & O1 & S1 & A1 & F1).
    destruct (setValue_spec "form_odds" odds p1 (S1 _ H2))
      as (p2 & E2 & V2 & O2 & S2 & A2 & F2).
    destruct (setValue_spec "form_prob" prob p2 (S2 _ (S1 _ H3)))
      as (p3 & E3 & V3 & O3 & S3 & A3 & F3).
    destruct (setValue_spec "form_stake" stake p3 (S3 _ (S2 _ (S1 _ H4))))
      as (p4 & E4 & V4 & O4 & S4 & A4 & F4).
    destruct (setValue_spec "form_sport" (or_default sport "") p4
                (S4 _ (S3 _ (S2 _ (S1 _ H5)))))
      as (p5 & E5 & V5 & O5 & S5 & A5 & F5).
    destruct (setValue_spec "form_type" (or_default type "Moneyline") p5
                (S5 _ (S4 _ (S3 _ (S2 _ (S1 _ H6))))))
      as (p6 & E6 & V6 & O6 & S6 & A6 & F6).
    exists p6. rewrite E1; simpl. rewrite E2; simpl. rewrite E3; simpl.
    rewrite E4; simpl. rewrite E5; simpl. rewrite E6; simpl.
    unfold getValue in *.
    repeat split; try congruence.
    + rewrite O6, O5, O4, O3, O2 by discriminate. exact V1.
    + rewrite O6, O5, O4, O3 by discriminate. exact V2.
    + rewrite O6, O5, O4 by discriminate. exact V3.
    + rewrite O6, O5 by discriminate. exact V4.
    + rewrite O6 by discriminate. exact V5.
Qed.

Lemma submitHandler_validates_witness :
  submitHandler unfilled_page (Event false) =
    Some (Page (elements unfilled_page) ["Please fill in all fields."] [],
          Event true)
  /\ exists p',
      submitHandler filled_page (Event false) = Some (p', Event false)
      /\ getValue "form_name" p' = Some "Lakers ML"
      /\ getValue "form_odds" p' = Some "1.5"
      /\ getValue "form_prob" p' = Some "0.7"
      /\ getValue "form_stake" p' = Some "20"
      /\ getValue "form_sport" p' = Some "NBA"
      /\ getValue "form_type" p' = Some "Moneyline"
      /\ alerts p' = []
      /\ fetched p' = [].
Proof.
  split.
  - apply (proj1 (submitHandler_validates unfilled_page (Event false)
                    "Lakers ML" "1.5" "0.7" "" "NBA" ""
                    eq_refl eq_refl eq_refl eq_refl eq_refl eq_refl)).
    reflexivity.
  - apply (proj2 (submitHandler_validates filled_page (Event false)
                    "Lakers ML" "1.5" "0.7" "20" "NBA" ""
                    eq_refl eq_refl eq_refl eq_refl eq_refl eq_refl));
      [reflexivity | | | | | |]; eexists; reflexivity.
Defined.

(** C10: when the odds do not convert or the probability does not parse to
    a finite Number, [updateRecommended] writes the dash into
    [recommended_stake] and empties [odds_hidden]; [converted_decimal], like
    every other element, keeps what it had. *)
Theorem updateRecommended_no_recommendation
    StringToNumber parseFloat NumberToString numeralToString
    (bankroll percentCap : number) (p : page) (a pv : string) :
  getValue "american_odds" p = Some a ->
  getValue "prob" p = Some pv ->
  is_Some (elements p !! "recommended_stake") ->
  is_Some (elements p !! "odds_hidden") ->
  americanToDecimal StringToNumber (VStr a) = None
    \/ isFinite (parseFloat pv) = false ->
  exists p',
    updateRecommended StringToNumber parseFloat NumberToString numeralToString
      bankroll percentCap p = Some p'
    /\ getTextContent "recommended_stake" p' = Some "—"
    /\ getValue "odds_hidden" p' = Some ""
    /\ elements p' !! "converted_decimal" = elements p !! "converted_decimal"
    /\ (forall id, id <> "recommended_stake" -> id <> "odds_hidden" ->
        elements p' !! id = elements p !! id)
    /\ alerts p' = alerts p /\ fetched p' = fetched p.
Proof.
  intros Ha Hp Hrec Hodds Hbad.
  destruct (setTextContent_spec "recommended_stake" "—" p Hrec)
    as (p1 & E1 & T1 & V1 & O1 & S1 & A1 & F1).
  destruct (setValue_spec "odds_hidden" "" p1 (S1 _ Hodds))
    as (p2 & E2 & V2 & O2 & S2 & A2 & F2).
  assert (Hno : (p0 ← setTextContent "recommended_stake" "—" p;
                 setValue "odds_hidden" "" p0) = Some p2).
  { rewrite E1. simpl. exact E2. }
  exists p2. split.
  - unfold updateRecommended. rewrite Ha; simpl. rewrite Hp; simpl.
    destruct Hbad as [-> | Hfin].
    + exact Hno.
    + rewrite Hfin; simpl.
      destruct (americanToDecimal StringToNumber (VStr a)); exact Hno.
  - repeat split; try congruence.
    + unfold getTextContent in *. rewrite O2 by discriminate. exact T1.
    + rewrite O2, O1 by discriminate. reflexivity.
    + intros id H1 H2. rewrite O2, O1 by assumption. reflexivity.
Qed.

Lemma updateRecommended_no_recommendation_witness :
  exists p',
    updateRecommended example_StringToNumber example_parseFloat
      (fun _ => ""%string) (fun _ => ""%string) n1000 n0_02 unfilled_page = Some p'
    /\ getTextContent "recommended_stake" p' = Some "—"
    /\ getValue "odds_hidden" p' = Some ""
    /\ elements p' !! "converted_decimal" = Some (Element "" "1.5")
    /\ alerts p' = [] /\ fetched p' = [].
Proof.
  destruct (updateRecommended_no_recommendation
              example_StringToNumber example_parseFloat
              (fun _ => ""%string) (fun _ => ""%string) n1000 n0_02
              unfilled_page "abc" "0.7" eq_refl eq_refl
              (ex_intro _ _ eq_refl) (ex_intro _ _ eq_refl)
              (or_introl eq_refl))
    as (p' & E & T & V & C & _ & A & F).
  exists p'. repeat split; assumption.
Defined.

(** * More on computeKelly *)

(** ** The order of Numbers, continued *)

Lemma Math_min_glb z x y :
  isNaN x = false -> isNaN y = false ->
  leb z x = true -> leb z y = true -> leb z (Math_min x y) = true.
Proof.
  intros Nx Ny Hx Hy.
  destruct (Math_min_cases x y Nx Ny) as [[-> _] | [-> _]]; assumption.
Qed.

Lemma Math_min_mono x x' y y' :
  valid x = true -> valid x' = true -> valid y = true -> valid y' = true ->
  leb x x' = true -> leb y y' = true ->
  leb (Math_min x y) (Math_min x' y') = true.
Proof.
  intros Vx Vx' Vy Vy' Hx Hy.
  destruct (leb_not_NaN _ _ Hx) as [Nx Nx'].
  destruct (leb_not_NaN _ _ Hy) as [Ny Ny'].
  destruct (Math_min_valid x y Vx Vy Nx Ny) as [Vm Nm].
  apply Math_min_glb; auto.
  - apply (leb_trans _ x); auto. apply Math_min_le_l; auto.
  - apply (leb_trans _ y); auto. apply Math_min_le_r; auto.
Qed.

Lemma Math_max_mono_r c y y' :
  valid y = true -> valid y' = true -> valid c = true -> isNaN c = false ->
  leb y y' = true -> leb (Math_max c y) (Math_max c y') = true.
Proof.
  intros Vy Vy' Vc Nc H. destruct (leb_not_NaN _ _ H) as [Ny Ny'].
  destruct (Math_max_valid c y' Vc Vy' Nc Ny') as [Vm Nm].
  apply Math_max_lub; auto.
  - apply Math_max_ge_l; auto.
  - apply (leb_trans _ y'); auto. apply Math_max_ge_r; auto.
Qed.

(** Two Numbers that are each at most the other are the same Number, when
    one of them is finite and not a zero. *)
Lemma leb_antisym_finite x s m e :
  leb x (S754_finite s m e) = true -> leb (S754_finite s m e) x = true ->
  x = S754_finite s m e.
Proof.
  unfold leb, SFleb. rewrite (SFcompare_antisym x (S754_finite s m e)).
  destruct (SFcompare x (S754_finite s m e)) as [[] |] eqn:E;
    try discriminate; intros _ _.
  destruct x as [sx | sx | | sx mx ex]; simpl in E.
  - destruct s; discriminate.
  - destruct sx; discriminate.
  - discriminate.
  - destruct sx, s; try discriminate;
      destruct (Z.compare_spec ex e) as [-> | |]; try discriminate;
      destruct (PosDef.Pos.compare_cont Eq mx m) eqn:C; try discriminate;
      apply Pos.compare_eq in C; subst; reflexivity.
Qed.

Lemma mul_nonneg_mono_l c y1 y2 :
  valid c = true -> valid y1 = true -> valid y2 = true ->
  isFinite c = true -> isFinite y1 = true -> isFinite y2 = true ->
  leb pzero c = true -> leb y1 y2 = true ->
  leb (mul y1 c) (mul y2 c) = true.
Proof.
  intros Vc V1 V2 Fc F1 F2 Hc H.
  apply (Rounded_le _ _ _ _ (mul_Rounded y1 c V1 Vc F1 Fc)
                            (mul_Rounded y2 c V2 Vc F2 Fc)).
  pose proof (leb_B2R pzero c eq_refl Vc eq_refl Fc Hc) as P.
  pose proof (leb_B2R y1 y2 V1 V2 F1 F2 H) as L.
  change (B2R pzero) with 0%R in P.
  apply Rmult_le_compat_r; assumption.
Qed.

Lemma mul_nonneg_mono_r c y1 y2 :
  valid c = true -> valid y1 = true -> valid y2 = true ->
  isFinite c = true -> isFinite y1 = true -> isFinite y2 = true ->
  leb pzero c = true -> leb y1 y2 = true ->
  leb (mul c y1) (mul c y2) = true.
Proof.
  intros Vc V1 V2 Fc F1 F2 Hc H.
  apply (Rounded_le _ _ _ _ (mul_Rounded c y1 Vc V1 Fc F1)
                            (mul_Rounded c y2 Vc V2 Fc F2)).
  pose proof (leb_B2R pzero c eq_refl Vc eq_refl Fc Hc) as P.
  pose proof (leb_B2R y1 y2 V1 V2 F1 F2 H) as L.
  change (B2R pzero) with 0%R in P.
  apply Rmult_le_compat_l; assumption.
Qed.

(** ** The values on the main path *)

(** The clamped Kelly fraction is a finite Number between 0 and 1. *)
Lemma clamped_fraction o p :
  valid o = true -> valid p = true -> isFinite o = true ->
  precondition_fails o p = false -> leb (sub o n1) n0 = false ->
  valid (Math_max pzero (kellyFraction o p)) = true
  /\ isFinite (Math_max pzero (kellyFraction o p)) = true
  /\ leb pzero (Math_max pzero (kellyFraction o p)) = true
  /\ leb (Math_max pzero (kellyFraction o p)) n1 = true.
Proof.
  intros Vo Vp Fo Hpre Hnet.
  destruct (kellyFraction_at_most_one o p Vo Vp Fo Hpre Hnet) as (Vf & Nf & Lf).
  set (f0 := kellyFraction o p) in *.
  destruct (Math_max_valid pzero f0 eq_refl Vf eq_refl Nf) as [Vm Nm].
  assert (L0 : leb pzero (Math_max pzero f0) = true)
    by (apply Math_max_ge_l; auto).
  assert (L1 : leb (Math_max pzero f0) n1 = true)
    by (apply Math_max_lub; auto).
  repeat split; auto.
  apply (finite_between pzero _ n1); auto.
Qed.

(** The raw stake and the cap are Numbers (not NaN) for finite inputs. *)
Lemma stake_and_cap B c o p :
  valid B = true -> valid c = true -> valid o = true -> valid p = true ->
  isFinite B = true -> isFinite c = true -> isFinite o = true ->
  precondition_fails o p = false -> leb (sub o n1) n0 = false ->
  (valid (mul (Math_max pzero (kellyFraction o p)) B) = true
   /\ isNaN (mul (Math_max pzero (kellyFraction o p)) B) = false)
  /\ (valid (mul c B) = true /\ isNaN (mul c B) = false).
Proof.
  intros VB Vc Vo Vp FB Fc Fo Hpre Hnet.
  destruct (clamped_fraction o p Vo Vp Fo Hpre Hnet) as (Vf & Ff & _).
  split.
  - apply (Rounded_valid _ _ (mul_Rounded _ _ Vf VB Ff FB)).
  - apply (Rounded_valid _ _ (mul_Rounded _ _ Vc VB Fc FB)).
Qed.

(** The stake is monotone in the capped stake. *)
Lemma floor_and_round_mono s1 s2 :
  valid s1 = true -> valid s2 = true -> leb s1 s2 = true ->
  leb (round2 (Math_max s1 n0_10)) (round2 (Math_max s2 n0_10)) = true.
Proof.
  intros V1 V2 H. destruct (leb_not_NaN _ _ H) as [N1 N2].
  apply round2_mono.
  - apply Math_max_valid; auto.
  - apply Math_max_valid; auto.
  - apply Math_max_mono_l; auto.
Qed.

Ltac early_return o p :=
  rewrite !computeKelly_main; fold (precondition_fails o p);
  destruct (precondition_fails o p) eqn:Hpre; [reflexivity |];
  destruct (leb (sub o n1) n0) eqn:Hnet; [reflexivity |].

(** X2: a larger bankroll never lowers the stake: for a finite cap
    fraction that is not negative, finite odds and any probability,
    [computeKelly] is monotone in the bankroll. *)
Theorem computeKelly_monotone_in_bankroll (B1 B2 c o p : number) :
  valid B1 = true -> valid B2 = true -> valid c = true ->
  valid o = true -> valid p = true ->
  isFinite B1 = true -> isFinite B2 = true -> isFinite c = true ->
  isFinite o = true ->
  leb n0 c = true ->
  leb B1 B2 = true ->
  leb (computeKelly B1 c o p) (computeKelly B2 c o p) = true.
Proof.
  intros VB1 VB2 Vc Vo Vp FB1 FB2 Fc Fo Hc HB.
  early_return o p.
  destruct (clamped_fraction o p Vo Vp Fo Hpre Hnet) as (Vf & Ff & Lf0 & _).
  destruct (stake_and_cap B1 c o p VB1 Vc Vo Vp FB1 Fc Fo Hpre Hnet)
    as ((Vr1 & Nr1) & (Vc1 & Nc1)).
  destruct (stake_and_cap B2 c o p VB2 Vc Vo Vp FB2 Fc Fo Hpre Hnet)
    as ((Vr2 & Nr2) & (Vc2 & Nc2)).
  unfold cappedStake.
  apply floor_and_round_mono; try (apply Math_min_valid; assumption).
  apply Math_min_mono; try assumption.
  - apply mul_nonneg_mono_r; assumption.
  - apply mul_nonneg_mono_r; assumption.
Qed.

Lemma computeKelly_monotone_in_bankroll_witness :
  leb (computeKelly n100 n0_02 n2_0 n0_55)
      (computeKelly n1000 n0_02 n2_0 n0_55) = true.
Proof.
  apply (computeKelly_monotone_in_bankroll n100 n1000 n0_02 n2_0 n0_55);
    reflexivity.
Defined.

(** X3: a larger cap fraction never lowers the stake: for a finite bankroll
    that is not negative, finite odds and any probability, [computeKelly]
    is monotone in the cap fraction. *)
Theorem computeKelly_monotone_in_cap (B c1 c2 o p : number) :
  valid B = true -> valid c1 = true -> valid c2 = true ->
  valid o = true -> valid p = true ->
  isFinite B = true -> isFinite c1 = true -> isFinite c2 = true ->
  isFinite o = true ->
  leb n0 B = true ->
  leb c1 c2 = true ->
  leb (computeKelly B c1 o p) (computeKelly B c2 o p) = true.
Proof.
  intros VB Vc1 Vc2 Vo Vp FB Fc1 Fc2 Fo HB Hc.
  early_return o p.
  destruct (stake_and_cap B c1 o p VB Vc1 Vo Vp FB Fc1 Fo Hpre Hnet)
    as ((Vr1 & Nr1) & (Vk1 & Nk1)).
  destruct (stake_and_cap B c2 o p VB Vc2 Vo Vp FB Fc2 Fo Hpre Hnet)
    as ((Vr2 & Nr2) & (Vk2 & Nk2)).
  unfold cappedStake.
  apply floor_and_round_mono; try (apply Math_min_valid; assumption).
  apply Math_min_mono; try assumption.
  - apply leb_refl; assumption.
  - apply mul_nonneg_mono_l; assumption.
Qed.

Lemma computeKelly_monotone_in_cap_witness :
  leb (computeKelly n1000 n0_02 n2_0 n0_55)
      (computeKelly n1000 n0_125 n2_0 n0_55) = true.
Proof.
  apply (computeKelly_monotone_in_cap n1000 n0_02 n0_125 n2_0 n0_55);
    reflexivity.
Defined.

(** The parts of the Kelly fraction on the main path: the net odds [b] are
    a positive finite Number, and [b * p], [1 - p] and their difference are
    finite Numbers. *)
Lemma kelly_numerator o p :
  valid o = true -> valid p = true -> isFinite o = true ->
  precondition_fails o p = false -> leb (sub o n1) n0 = false ->
  exists mb eb,
    sub o n1 = S754_finite false mb eb
    /\ valid (S754_finite false mb eb) = true
    /\ isFinite p = true
    /\ (valid (mul (sub o n1) p) = true /\ isFinite (mul (sub o n1) p) = true)
    /\ (valid (sub n1 p) = true /\ isFinite (sub n1 p) = true)
    /\ valid (sub (mul (sub o n1) p) (sub n1 p)) = true.
Proof.
  intros Vo Vp Fo Hpre Hnet.
  destruct (precondition_fails_false _ _ Hpre) as (To & Tp & Ho & Hp0 & Hp1).
  destruct (prob_in_unit_interval p Tp Hp0 Hp1) as (mp & ep & Ep).
  assert (Fp : isFinite p = true) by (rewrite Ep; reflexivity).
  assert (P0 : (0 < B2R p)%R) by (rewrite Ep; apply B2R_finite_pos).
  assert (P1 : (B2R p < 1)%R).
  { rewrite <- B2R_n1. apply leb_false_B2R; auto. }
  pose proof (sub_Rounded o n1 Vo eq_refl Fo eq_refl) as Rb.
  rewrite B2R_n1 in Rb.
  destruct (Rounded_valid _ _ Rb) as [Vb Nb].
  assert (Lbo : leb (sub o n1) o = true).
  { apply (Rounded_le _ _ _ _ Rb (Rounded_B2R o Vo Fo)). lra. }
  assert (Fb : isFinite (sub o n1) = true).
  { destruct (sub o n1) as [| [] | |] eqn:E; try reflexivity; try discriminate.
    apply leb_Infinity_inv in Lbo. rewrite Lbo in Fo. discriminate. }
  destruct (positive_finite _ Fb Hnet Nb) as (mb & eb & Eb).
  exists mb, eb. split; [exact Eb |].
  set (b := sub o n1) in *.
  assert (B0 : (0 < B2R b)%R) by (rewrite Eb; apply B2R_finite_pos).
  split; [rewrite <- Eb; exact Vb |]. split; [exact Fp |].
  pose proof (mul_Rounded b p Vb Vp Fb Fp) as RX.
  destruct (Rounded_valid _ _ RX) as [VX NX].
  assert (LX0 : leb pzero (mul b p) = true).
  { apply (Rounded_le _ _ _ _ (Rounded_zero false) RX). nra. }
  assert (LXb : leb (mul b p) b = true).
  { apply (Rounded_le _ _ _ _ RX (Rounded_B2R b Vb Fb)). nra. }
  assert (FX : isFinite (mul b p) = true)
    by (apply (finite_between pzero _ b); auto).
  pose proof (sub_Rounded n1 p eq_refl Vp eq_refl Fp) as RY.
  rewrite B2R_n1 in RY.
  destruct (Rounded_valid _ _ RY) as [VY NY].
  assert (LY0 : leb pzero (sub n1 p) = true).
  { apply (Rounded_le _ _ _ _ (Rounded_zero false) RY). lra. }
  assert (LY1 : leb (sub n1 p) n1 = true).
  { apply (Rounded_le _ _ _ _ RY Rounded_one). lra. }
  assert (FY : isFinite (sub n1 p) = true)
    by (apply (finite_between pzero _ n1); auto).
  repeat split; auto.
  apply (Rounded_valid _ _ (sub_Rounded _ _ VX VY FX FY)).
Qed.

(** The Kelly fraction grows with the probability. *)
Lemma kellyFraction_mono_prob o p1 p2 :
  valid o = true -> valid p1 = true -> valid p2 = true -> isFinite o = true ->
  precondition_fails o p1 = false -> precondition_fails o p2 = false ->
  leb (sub o n1) n0 = false ->
  leb p1 p2 = true ->
  leb (kellyFraction o p1) (kellyFraction o p2) = true.
Proof.
  intros Vo V1 V2 Fo Hpre1 Hpre2 Hnet H12.
  destruct (kelly_numerator o p1 Vo V1 Fo Hpre1 Hnet)
    as (mb & eb & Eb & Vb & F1 & (VX1 & FX1) & (VY1 & FY1) & Vn1).
  destruct (kelly_numerator o p2 Vo V2 Fo Hpre2 Hnet)
    as (mb' & eb' & Eb' & _ & F2 & (VX2 & FX2) & (VY2 & FY2) & Vn2).
  unfold kellyFraction. cbv zeta.
  rewrite Eb in *. clear Eb' mb' eb'.
  set (b := S754_finite false mb eb) in *.
  assert (B0 : (0 < B2R b)%R) by apply B2R_finite_pos.
  pose proof (leb_B2R p1 p2 V1 V2 F1 F2 H12) as P12.
  assert (LX : leb (mul b p1) (mul b p2) = true).
  { apply (Rounded_le _ _ _ _ (mul_Rounded b p1 Vb V1 eq_refl F1)
                              (mul_Rounded b p2 Vb V2 eq_refl F2)).
    apply Rmult_le_compat_l; lra. }
  assert (LY : leb (sub n1 p2) (sub n1 p1) = true).
  { apply (Rounded_le _ _ _ _ (sub_Rounded n1 p2 eq_refl V2 eq_refl F2)
                              (sub_Rounded n1 p1 eq_refl V1 eq_refl F1)).
    lra. }
  apply (div_mono_l mb eb); try assumption.
  apply (Rounded_le _ _ _ _ (sub_Rounded _ _ VX1 VY1 FX1 FY1)
                            (sub_Rounded _ _ VX2 VY2 FX2 FY2)).
  pose proof (leb_B2R _ _ VX1 VX2 FX1 FX2 LX).
  pose proof (leb_B2R _ _ VY2 VY1 FY2 FY1 LY).
  lra.
Qed.

(** Whether the precondition check passes depends on the probability only
    through its position relative to 0 and 1. *)
Lemma precondition_between o p1 p2 :
  valid p1 = true -> valid p2 = true ->
  gtb p1 n0 = true -> leb p1 p2 = true -> ltb p2 n1 = true ->
  precondition_fails o p1 = precondition_fails o p2.
Proof.
  intros V1 V2 H0 H12 H1.
  pose proof (ltb_leb_false _ _ H0) as A1.
  pose proof (ltb_leb_false _ _ H1) as A2.
  assert (B1 : leb n1 p1 = false).
  { destruct (leb n1 p1) eqn:E; [| reflexivity].
    pose proof (leb_trans n1 p1 p2 eq_refl V1 V2 E H12) as L.
    exact (eq_trans (eq_sym L) A2). }
  assert (T1 : truthy p1 = true)
    by (destruct p1 as [| [] | | [] ? ?]; try discriminate; reflexivity).
  assert (T2 : truthy p2 = true /\ leb p2 n0 = false).
  { unfold leb, ltb, gtb, n0, pzero in *.
    destruct p1 as [s | [] | | [] m1 e1]; try discriminate;
      destruct p2 as [s' | [] | | [] m2 e2]; try discriminate;
      split; reflexivity. }
  destruct T2 as [T2 B2].
  unfold precondition_fails, geb, leb in *.
  rewrite T1, T2, A1, A2, B1, B2. reflexivity.
Qed.

(** X4: a larger win probability never lowers the stake: for a finite
    bankroll that is not negative, a finite cap fraction and finite odds,
    [computeKelly] is monotone in the probability over the open interval
    from 0 to 1. *)
Theorem computeKelly_monotone_in_prob (B c o p1 p2 : number) :
  valid B = true -> valid c = true -> valid o = true ->
  valid p1 = true -> valid p2 = true ->
  isFinite B = true -> isFinite c = true -> isFinite o = true ->
  leb n0 B = true ->
  gtb p1 n0 = true -> leb p1 p2 = true -> ltb p2 n1 = true ->
  leb (computeKelly B c o p1) (computeKelly B c o p2) = true.
Proof.
  intros VB Vc Vo V1 V2 FB Fc Fo HB H0 H12 H1.
  pose proof (precondition_between o p1 p2 V1 V2 H0 H12 H1) as Hsame.
  rewrite !computeKelly_main.
  fold (precondition_fails o p1). fold (precondition_fails o p2).
  rewrite Hsame.
  destruct (precondition_fails o p2) eqn:Hpre; [reflexivity |].
  destruct (leb (sub o n1) n0) eqn:Hnet; [reflexivity |].
  destruct (kellyFraction_at_most_one o p1 Vo V1 Fo Hsame Hnet) as (Vf1 & Nf1 & _).
  destruct (kellyFraction_at_most_one o p2 Vo V2 Fo Hpre Hnet) as (Vf2 & Nf2 & _).
  destruct (clamped_fraction o p1 Vo V1 Fo Hsame Hnet) as (Vm1 & Fm1 & _).
  destruct (clamped_fraction o p2 Vo V2 Fo Hpre Hnet) as (Vm2 & Fm2 & _).
  destruct (stake_and_cap B c o p1 VB Vc Vo V1 FB Fc Fo Hsame Hnet)
    as ((Vr1 & Nr1) & (Vk & Nk)).
  destruct (stake_and_cap B c o p2 VB Vc Vo V2 FB Fc Fo Hpre Hnet)
    as ((Vr2 & Nr2) & _).
  unfold cappedStake.
  apply floor_and_round_mono; try (apply Math_min_valid; assumption).
  apply Math_min_mono; try assumption.
  - apply mul_nonneg_mono_l; try assumption.
    apply Math_max_mono_r; try assumption; try reflexivity.
    apply kellyFraction_mono_prob; assumption.
  - apply leb_refl; assumption.
Qed.

Lemma computeKelly_monotone_in_prob_witness :
  leb (computeKelly n1000 n0_02 n2_0 n0_5)
      (computeKelly n1000 n0_02 n2_0 n0_55) = true.
Proof.
  apply (computeKelly_monotone_in_prob n1000 n0_02 n2_0 n0_5 n0_55);
    reflexivity.
Defined.

Lemma n0_10_finite : n0_10 = S754_finite false 7205759403792794 (-56).
Proof. reflexivity. Qed.

(** X5: the floor: on valid odds and probability, when there is no edge
    (the Kelly fraction is not positive) or the cap [c * B] is at most
    0.10, the stake is exactly 0.10, whatever the signs of the bankroll and
    the cap fraction; with a bankroll of 0 the stake is 0.10. *)
Theorem computeKelly_floor (B c o p : number) :
  valid B = true -> valid c = true -> valid o = true -> valid p = true ->
  isFinite B = true -> isFinite c = true -> isFinite o = true ->
  gtb o n1 = true -> gtb p n0 = true -> ltb p n1 = true ->
  leb (kellyFraction o p) n0 = true \/ leb (mul c B) n0_10 = true ->
  computeKelly B c o p = n0_10.
Proof.
  intros VB Vc Vo Vp FB Fc Fo Ho Hp0 Hp1 H.
  pose proof (valid_input_passes_precondition o p Fo Ho Hp0 Hp1) as Hpre.
  pose proof (net_odds_positive o Vo Ho) as Hnet.
  rewrite (computeKelly_main_path B c o p Hpre Hnet).
  destruct (cappedStake_is_a_number B c o p VB Vc Vo Vp FB Fc Fo Hpre Hnet)
    as (Vs & Ns & Ls).
  destruct (stake_and_cap B c o p VB Vc Vo Vp FB Fc Fo Hpre Hnet)
    as ((Vr & Nr) & (Vk & Nk)).
  assert (L : leb (cappedStake B c o p) n0_10 = true).
  { destruct H as [H | H].
    - destruct (kellyFraction_at_most_one o p Vo Vp Fo Hpre Hnet) as (Vf & Nf & _).
      destruct (clamped_fraction o p Vo Vp Fo Hpre Hnet) as (Vm & Fm & Lm0 & _).
      assert (Lm : leb (Math_max pzero (kellyFraction o p)) pzero = true)
        by (apply Math_max_lub; auto).
      pose proof (leb_B2R _ pzero Vm eq_refl Fm eq_refl Lm) as R1.
      pose proof (leb_B2R pzero _ eq_refl Vm eq_refl Fm Lm0) as R2.
      change (B2R pzero) with 0%R in R1, R2.
      assert (Lr : leb (mul (Math_max pzero (kellyFraction o p)) B) pzero = true).
      { apply (Rounded_le _ _ _ _ (mul_Rounded _ _ Vm VB Fm FB) (Rounded_zero false)).
        replace (B2R (Math_max pzero (kellyFraction o p))) with 0%R by lra.
        lra. }
      apply (leb_trans _ (mul (Math_max pzero (kellyFraction o p)) B)); auto.
      + unfold cappedStake. apply Math_min_le_l; assumption.
      + apply (leb_trans _ pzero); auto.
    - apply (leb_trans _ (mul c B)); auto. }
  assert (E : Math_max (cappedStake B c o p) n0_10 = n0_10).
  { destruct (Math_max_cases (cappedStake B c o p) n0_10 Ns eq_refl)
      as [[E L'] | [E _]]; [| exact E].
    rewrite E. rewrite n0_10_finite in *.
    apply leb_antisym_finite; assumption. }
  rewrite E. reflexivity.
Qed.

Lemma computeKelly_floor_witness :
  computeKelly n1000 n0_02 n1_5 n0_5 = n0_10
  /\ computeKelly pzero n0_02 n2_0 n0_55 = n0_10.
Proof.
  split.
  - apply (computeKelly_floor n1000 n0_02 n1_5 n0_5); try reflexivity.
    left. reflexivity.
  - apply (computeKelly_floor pzero n0_02 n2_0 n0_55); try reflexivity.
    right. reflexivity.
Defined.

(** X6: decimal odds of at most 1 pay nothing: the stake is 0, whatever
    the bankroll, the cap and the probability. *)
Theorem computeKelly_no_payoff (B c o p : number) :
  valid o = true -> leb o n1 = true -> computeKelly B c o p = pzero.
Proof.
  intros Vo H. rewrite computeKelly_main.
  pose proof (sub_one_mono o n1 Vo eq_refl H) as L.
  change (sub n1 n1) with n0 in L. rewrite L.
  destruct (_ || _); reflexivity.
Qed.

Lemma computeKelly_no_payoff_witness :
  computeKelly n1000 n0_02 n1 n0_5 = pzero.
Proof.
  apply (computeKelly_no_payoff n1000 n0_02 n1 n0_5); reflexivity.
Defined.

(** Decimal odds of [Infinity] give NaN for every bankroll, cap and
    probability strictly between 0 and 1. *)
Lemma computeKelly_Infinity_is_NaN (B c p : number) :
  valid p = true -> gtb p n0 = true -> ltb p n1 = true ->
  computeKelly B c Infinity p = NaN.
Proof.
  intros Vp Hp0 Hp1.
  pose proof (ltb_leb_false _ _ Hp1) as E1.
  pose proof (ltb_leb_false _ _ Hp0) as E0.
  assert (Fp : exists m e, p = S754_finite false m e).
  { unfold gtb, ltb, n0, pzero in *. rewrite n1_finite in *.
    destruct p as [s | [] | | [] m e]; try discriminate; eauto. }
  destruct Fp as (m & e & Ep).
  pose proof (sub_Rounded n1 p eq_refl Vp eq_refl ltac:(rewrite Ep; reflexivity))
    as RY.
  assert (FY : isFinite (sub n1 p) = true).
  { destruct (Rounded_valid _ _ RY) as [VY NY].
    apply (finite_between (of_Z (-1)) _ n1); try reflexivity.
    - apply (Rounded_le _ _ _ _ (of_Z_Rounded (-1)) RY).
      rewrite B2R_n1. pose proof (B2R_finite_pos m e) as P. rewrite <- Ep in P.
      assert (B2R p < 1)%R.
      { rewrite <- B2R_n1. apply leb_false_B2R; auto; rewrite Ep; reflexivity. }
      lra.
    - apply (Rounded_le _ _ _ _ RY Rounded_one).
      rewrite B2R_n1. pose proof (B2R_finite_pos m e) as P. rewrite <- Ep in P.
      lra. }
  unfold computeKelly, geb. unfold leb in E0, E1. unfold leb at 2 3.
  rewrite E0, E1.
  replace (truthy p) with true by (rewrite Ep; reflexivity).
  change (sub Infinity n1) with Infinity.
  replace (mul Infinity p) with Infinity by (rewrite Ep; reflexivity).
  replace (sub Infinity (sub n1 p)) with Infinity
    by (destruct (sub n1 p) as [| | |]; try discriminate; reflexivity).
  simpl. destruct B, c; reflexivity.
Qed.

(** X7: the two checks do not look at the bankroll or the cap: when either
    is NaN and the odds and the probability pass, the stake is NaN. *)
Theorem computeKelly_NaN_bankroll_or_cap (B c o p : number) :
  valid o = true -> isFinite o = true ->
  gtb o n1 = true -> gtb p n0 = true -> ltb p n1 = true ->
  isNaN B = true \/ isNaN c = true ->
  computeKelly B c o p = NaN.
Proof.
  intros Vo Fo Ho Hp0 Hp1 H.
  pose proof (valid_input_passes_precondition o p Fo Ho Hp0 Hp1) as Hpre.
  pose proof (net_odds_positive o Vo Ho) as Hnet.
  rewrite (computeKelly_main_path B c o p Hpre Hnet). unfold cappedStake.
  assert (E : Math_min (mul (Math_max pzero (kellyFraction o p)) B) (mul c B) = NaN).
  { destruct H as [H | H].
    - destruct B; try discriminate.
      destruct (Math_max pzero (kellyFraction o p)), c; reflexivity.
    - destruct c; try discriminate.
      destruct (mul (Math_max pzero (kellyFraction o p)) B), B; reflexivity. }
  rewrite E. reflexivity.
Qed.

Lemma computeKelly_NaN_bankroll_or_cap_witness :
  computeKelly NaN n0_02 n2_0 n0_55 = NaN.
Proof.
  apply (computeKelly_NaN_bankroll_or_cap NaN n0_02 n2_0 n0_55);
    try reflexivity.
  left. reflexivity.
Defined.

(** * More on americanToDecimal *)

Lemma compare_cont_Eq p q :
  PosDef.Pos.compare_cont Eq p q = (p ?= q)%positive.
Proof. reflexivity. Qed.

Lemma leb_MAX_VALUE x :
  valid x = true -> isFinite x = true -> leb x MAX_VALUE = true.
Proof.
  intros V F. destruct x as [s | s | | s m e]; try discriminate.
  - reflexivity.
  - destruct s; [reflexivity |].
    destruct (valid_finite_canonic _ _ _ V) as ((_ & (_ & Hm) & _) & He).
    unfold leb, SFleb, MAX_VALUE, SFcompare.
    destruct (Z.compare_spec e 971) as [-> | Hlt | Hgt]; [| reflexivity | lia].
    rewrite compare_cont_Eq.
    destruct (Pos.compare_spec m 9007199254740991) as [| | Hgt];
      try reflexivity.
    exfalso. apply Pos2Z.pos_lt_pos in Hgt.
    change (2 ^ 53) with 9007199254740992 in Hm.
    apply (Z.lt_irrefl (Zpos m)).
    apply (Z.lt_le_trans _ 9007199254740992); [exact Hm |].
    apply Zlt_le_succ in Hgt. exact Hgt.
Qed.

Lemma even_money : round4 (add (div n100 n100) n1) = n2_0.
Proof. vm_compute. reflexivity. Qed.

(** X8: odds of +100 or more convert to decimal odds of at least 2, and
    odds of -100 or less to decimal odds between 1 and 2. *)
Theorem americanToDecimal_even_money StringToNumber (a : value) :
  valid (Number StringToNumber a) = true ->
  isFinite (Number StringToNumber a) = true ->
  (leb n100 (Number StringToNumber a) = true ->
   exists d, americanToDecimal StringToNumber a = Some d /\ leb n2_0 d = true)
  /\ (leb (Number StringToNumber a) minus100 = true ->
      exists d, americanToDecimal StringToNumber a = Some d
                /\ leb n1 d = true /\ leb d n2_0 = true).
Proof.
  unfold americanToDecimal.
  generalize (Number StringToNumber a) as n. intros n V F.
  cbv zeta. rewrite F. simpl negb. cbv iota. split; intros H.
  - assert (E : exists m e, n = S754_finite false m e).
    { rewrite n100_finite in H.
      destruct n as [s | s | | [] m e]; try discriminate; eauto. }
    destruct E as (m & e & ->). simpl gtb.
    eexists. split; [reflexivity |].
    destruct (american_quotient_pos m e V) as (Vy & Ly).
    rewrite <- even_money.
    apply (decimal_mono (div n100 n100)); try assumption; try reflexivity.
    rewrite n100_finite in *.
    apply (div_mono_l 7036874417766400 (-46)); auto.
  - assert (E : exists m e, n = S754_finite true m e).
    { change minus100 with (S754_finite true 7036874417766400 (-46)) in H.
      destruct n as [s | s | | [] m e]; try discriminate; eauto. }
    destruct E as (m & e & ->). simpl gtb. simpl Math_abs.
    eexists. split; [reflexivity |].
    destruct (american_quotient_neg m e V) as (R & Vy & Ly).
    rewrite <- even_money.
    apply (decimal_mono _ (div n100 n100)); try assumption; try reflexivity.
    apply (Rounded_le _ _ _ _ R (div_Rounded n100 false 7036874417766400 (-46)
                                    eq_refl eq_refl)).
    pose proof (leb_B2R (S754_finite true m e) minus100 V eq_refl eq_refl
                  eq_refl H) as L.
    change minus100 with (S754_finite (negb false) 7036874417766400 (-46)) in L.
    change (S754_finite true m e) with (S754_finite (negb false) m e) in L.
    rewrite !B2R_opp_sign in L.
    pose proof (B2R_finite_pos 7036874417766400 (-46)) as P100.
    rewrite n100_finite.
    unfold Rdiv. apply Rmult_le_compat_l; [lra |].
    apply Rinv_le_contravar; lra.
Qed.

Lemma americanToDecimal_even_money_witness :
  (exists d, americanToDecimal example_StringToNumber (VNum n150) = Some d
             /\ leb n2_0 d = true)
  /\ (exists d, americanToDecimal example_StringToNumber (VStr "-200") = Some d
                /\ leb n1 d = true /\ leb d n2_0 = true).
Proof.
  split.
  - apply (proj1 (americanToDecimal_even_money example_StringToNumber
                    (VNum n150) eq_refl eq_refl)). reflexivity.
  - apply (proj2 (americanToDecimal_even_money example_StringToNumber
                    (VStr "-200") eq_refl eq_refl)). reflexivity.
Defined.

Lemma nonneg_plus_one y :
  valid y = true -> leb pzero y = true ->
  valid (add y n1) = true /\ leb pzero (add y n1) = true.
Proof.
  intros V L. destruct (leb_not_NaN _ _ L) as [_ N].
  destruct (add_finite_valid n1 eq_refl eq_refl y V N) as [Vw Nw].
  split; [exact Vw |].
  apply (leb_trans pzero n1); auto.
  change n1 with (add pzero n1) at 1.
  apply (add_mono_l n1 eq_refl eq_refl); auto.
Qed.

Lemma largest_decimal :
  isFinite (round4 (add (div MAX_VALUE n100) n1)) = true
  /\ round4 (add (div n100 n1) n1) = of_Z 101.
Proof. split; vm_compute; reflexivity. Qed.

(** The decimal odds for odds of magnitude at least 1 are a finite Number
    that is at least 1. *)
Lemma americanToDecimal_finite StringToNumber (a : value) :
  valid (Number StringToNumber a) = true ->
  isFinite (Number StringToNumber a) = true ->
  leb n1 (Number StringToNumber a) = true
  \/ leb (Number StringToNumber a) minus1 = true ->
  exists d, americanToDecimal StringToNumber a = Some d
            /\ valid d = true /\ isFinite d = true /\ leb n1 d = true.
Proof.
  unfold americanToDecimal.
  generalize (Number StringToNumber a) as n. intros n V F H.
  cbv zeta. rewrite F. simpl negb. cbv iota.
  destruct H as [H | H].
  - assert (E : exists m e, n = S754_finite false m e).
    { rewrite n1_finite in H.
      destruct n as [s | s | | [] m e]; try discriminate; eauto. }
    destruct E as (m & e & ->). simpl gtb.
    eexists. split; [reflexivity |].
    destruct (american_quotient_pos m e V) as (Vy & Ly).
    assert (Vmax : valid (div MAX_VALUE n100) = true) by reflexivity.
    assert (Lmax : leb (div (S754_finite false m e) n100) (div MAX_VALUE n100) = true).
    { rewrite n100_finite.
      apply (div_mono_l 7036874417766400 (-46)); auto.
      apply leb_MAX_VALUE; auto. }
    destruct (decimal_mono _ _ Vy Vmax Ly Lmax) as [L1 L2].
    destruct (nonneg_plus_one _ Vy Ly) as [Vw L0].
    destruct (round4_mono _ _ Vw Vw L0 (leb_refl _ (proj2 (leb_not_NaN _ _ L0))))
      as (_ & Vd & Nd).
    repeat split; auto.
    apply (finite_between n1 _ (round4 (add (div MAX_VALUE n100) n1))); auto.
    all: try apply largest_decimal.
  - assert (E : exists m e, n = S754_finite true m e).
    { change minus1 with (S754_finite true 4503599627370496 (-52)) in H.
      destruct n as [s | s | | [] m e]; try discriminate; eauto. }
    destruct E as (m & e & ->). simpl gtb. simpl Math_abs.
    eexists. split; [reflexivity |].
    destruct (american_quotient_neg m e V) as (R & Vy & Ly).
    assert (Lmax : leb (div n100 (S754_finite false m e)) (div n100 n1) = true).
    { rewrite n1_finite at 1.
      apply (Rounded_le _ _ _ _ R (div_Rounded n100 false 4503599627370496 (-52)
                                      eq_refl eq_refl)).
      pose proof (leb_B2R (S754_finite true m e) minus1 V eq_refl eq_refl
                    eq_refl H) as L.
      change minus1 with (S754_finite (negb false) 4503599627370496 (-52)) in L.
      change (S754_finite true m e) with (S754_finite (negb false) m e) in L.
      rewrite !B2R_opp_sign in L.
      pose proof (B2R_finite_pos 4503599627370496 (-52)) as P1.
      pose proof (B2R_finite_pos 7036874417766400 (-46)) as P100.
      rewrite n100_finite.
      unfold Rdiv. apply Rmult_le_compat_l; [lra |].
      apply Rinv_le_contravar; lra. }
    destruct (decimal_mono _ (div n100 n1) Vy eq_refl Ly Lmax) as [L1 L2].
    rewrite (proj2 largest_decimal) in L2.
    destruct (nonneg_plus_one _ Vy Ly) as [Vw L0].
    destruct (round4_mono _ _ Vw Vw L0 (leb_refl _ (proj2 (leb_not_NaN _ _ L0))))
      as (_ & Vd & Nd).
    repeat split; auto.
    apply (finite_between n1 _ (of_Z 101)); auto.
Qed.

(** * The conversion and the rounding of the spec *)

Lemma B2R_n100 : B2R n100 = 100%R.
Proof.
  rewrite n100_finite. unfold B2R, sgn. change (-46) with (Z.opp 46).
  rewrite bpow_opp, (bpow_IZR 46) by lia.
  change (2 ^ 46) with 70368744177664. field.
Qed.

(** A real has one nearest Number (up to the sign of a zero). *)
Lemma Rounded_unique x y1 y2 :
  Rounded x y1 -> Rounded x y2 -> leb y1 y2 = true /\ leb y2 y1 = true.
Proof.
  intros R1 R2. split.
  - apply (Rounded_le _ _ _ _ R1 R2). lra.
  - apply (Rounded_le _ _ _ _ R2 R1). lra.
Qed.

Lemma ten21_pos : (0 < IZR (10 ^ 21))%R.
Proof. apply IZR_lt. reflexivity. Qed.

Lemma fixed4_exact r : (r < IZR (10 ^ 21))%R -> fixed4 r = exact_round4 r.
Proof.
  intros H. unfold fixed4, exact_round4.
  destruct (Rle_dec (IZR (10 ^ 21)) r) as [T | _]; [lra | reflexivity].
Qed.

(** From [10^21] on, [toFixed] gives [ToString(x)], which reads back as
    [x]. *)
Lemma round4_large x :
  valid x = true -> isFinite x = true ->
  (IZR (10 ^ 21) <= B2R x)%R -> round4 x = x.
Proof.
  intros V F H. pose proof ten21_pos as P.
  assert (L : leb ten21 x = true).
  { apply B2R_leb; auto. rewrite B2R_ten21. exact H. }
  destruct x as [s | s | | [] m e]; try discriminate.
  unfold round4, toFixed. simpl SFabs. unfold leb in L. rewrite L.
  reflexivity.
Qed.

(** The second half of the conversion: [1] is added to the quotient [q],
    and the sum [x], a Number, is rounded to four decimals. *)
Lemma plus_one_rounded q :
  valid q = true -> isFinite q = true -> leb pzero q = true ->
  Rounded (B2R q + 1) (add q n1)
  /\ isFinite (add q n1) = true
  /\ ((B2R (add q n1) < IZR (10 ^ 21))%R ->
      Rounded (exact_round4 (B2R (add q n1))) (round4 (add q n1)))
  /\ ((IZR (10 ^ 21) <= B2R (add q n1))%R ->
      round4 (add q n1) = add q n1).
Proof.
  intros V F L.
  pose proof (add_Rounded q n1 V eq_refl F eq_refl) as R.
  rewrite B2R_n1 in R.
  destruct (nonneg_plus_one q V L) as [Vx Lx].
  assert (Fx : isFinite (add q n1) = true).
  { apply (finite_between pzero _ (add MAX_VALUE n1)); auto.
    apply (add_mono_l n1 eq_refl eq_refl); auto.
    apply leb_MAX_VALUE; assumption. }
  split; [exact R |]. split; [exact Fx |]. split.
  - intros H. rewrite <- (fixed4_exact _ H).
    apply round4_Rounded; auto.
    apply (leb_B2R pzero (add q n1)); auto.
  - apply round4_large; assumption.
Qed.

(** C1, as the script behaves: [americanToDecimal] rounds to four decimals
    the Number it has computed, not the exact value of the conversion.  For
    [a > 0], with [q] the Number nearest to [a/100] and [x] the Number
    nearest to [q + 1], both finite, the result is the Number nearest to
    [round(x, 4)], or [x] itself from [10^21] on.  For [a < 0], with [q] the
    Number nearest to [100/|a|], the result is [Infinity] when [q] is, and
    otherwise it is obtained from [x], the Number nearest to [q + 1], in
    the same way. *)
Theorem americanToDecimal_rounds_the_Number StringToNumber (a : value) :
  valid (Number StringToNumber a) = true ->
  isFinite (Number StringToNumber a) = true ->
  (gtb (Number StringToNumber a) n0 = true ->
   exists q x d,
     americanToDecimal StringToNumber a = Some d
     /\ Rounded (B2R (Number StringToNumber a) / 100) q
     /\ isFinite q = true
     /\ Rounded (B2R q + 1) x
     /\ isFinite x = true
     /\ ((B2R x < IZR (10 ^ 21))%R -> Rounded (exact_round4 (B2R x)) d)
     /\ ((IZR (10 ^ 21) <= B2R x)%R -> d = x))
  /\ (ltb (Number StringToNumber a) n0 = true ->
      exists q d,
        americanToDecimal StringToNumber a = Some d
        /\ Rounded (100 / Rabs (B2R (Number StringToNumber a))) q
        /\ (isFinite q = false -> d = Infinity)
        /\ (isFinite q = true ->
            exists x,
              Rounded (B2R q + 1) x
              /\ isFinite x = true
              /\ ((B2R x < IZR (10 ^ 21))%R ->
                  Rounded (exact_round4 (B2R x)) d)
              /\ ((IZR (10 ^ 21) <= B2R x)%R -> d = x))).
Proof.
  unfold americanToDecimal.
  generalize (Number StringToNumber a) as n. intros n V F.
  cbv zeta. rewrite F. simpl negb. cbv iota. split; intros H.
  - destruct (positive_input n F H) as (m & e & ->). simpl gtb.
    destruct (american_quotient_pos m e V) as (Vq & Lq).
    pose proof (div_Rounded (S754_finite false m e) false
                  7036874417766400 (-46) V eq_refl) as Rq.
    rewrite <- n100_finite, B2R_n100 in Rq.
    assert (Fq : isFinite (div (S754_finite false m e) n100) = true).
    { apply (finite_between pzero _ (S754_finite false m e)); auto.
      apply (Rounded_le _ _ _ _ Rq (Rounded_B2R _ V eq_refl)).
      pose proof (B2R_finite_pos m e). lra. }
    destruct (plus_one_rounded _ Vq Fq Lq) as (Rx & Fx & Hlt & Hge).
    exists (div (S754_finite false m e) n100),
      (add (div (S754_finite false m e) n100) n1),
      (round4 (add (div (S754_finite false m e) n100) n1)).
    repeat split; assumption.
  - destruct (negative_finite n F H) as (m & e & ->).
    simpl gtb. simpl Math_abs.
    destruct (american_quotient_neg m e V) as (Rq & Vq & Lq).
    rewrite B2R_n100 in Rq.
    assert (Ea : Rabs (B2R (S754_finite true m e))
                 = B2R (S754_finite false m e)).
    { change (S754_finite true m e) with (S754_finite (negb false) m e).
      rewrite B2R_opp_sign, Rabs_Ropp. apply Rabs_pos_eq.
      pose proof (B2R_finite_pos m e). lra. }
    rewrite Ea.
    exists (div n100 (S754_finite false m e)),
      (round4 (add (div n100 (S754_finite false m e)) n1)).
    split; [reflexivity |]. split; [exact Rq |]. split.
    + intros Fq.
      destruct (div n100 (S754_finite false m e)) as [| [] | |];
        try discriminate; reflexivity.
    + intros Fq.
      exists (add (div n100 (S754_finite false m e)) n1).
      apply (plus_one_rounded _ Vq Fq Lq).
Qed.

Lemma americanToDecimal_rounds_the_Number_witness :
  (exists q x d,
      americanToDecimal example_StringToNumber (VNum n150) = Some d
      /\ Rounded (B2R n150 / 100) q
      /\ isFinite q = true
      /\ Rounded (B2R q + 1) x
      /\ isFinite x = true
      /\ ((B2R x < IZR (10 ^ 21))%R -> Rounded (exact_round4 (B2R x)) d)
      /\ ((IZR (10 ^ 21) <= B2R x)%R -> d = x))
  /\ (exists q d,
        americanToDecimal example_StringToNumber (VStr "-200") = Some d
        /\ Rounded (100 / Rabs (B2R minus200)) q
        /\ (isFinite q = false -> d = Infinity)
        /\ (isFinite q = true ->
            exists x,
              Rounded (B2R q + 1) x
              /\ isFinite x = true
              /\ ((B2R x < IZR (10 ^ 21))%R ->
                  Rounded (exact_round4 (B2R x)) d)
              /\ ((IZR (10 ^ 21) <= B2R x)%R -> d = x))).
Proof.
  split.
  - apply (proj1 (americanToDecimal_rounds_the_Number
                    example_StringToNumber (VNum n150) eq_refl eq_refl)).
    reflexivity.
  - apply (proj2 (americanToDecimal_rounds_the_Number
                    example_StringToNumber (VStr "-200") eq_refl eq_refl)).
    reflexivity.
Defined.

(** The Number [0.115] lies above the real 0.115 and below 0.125. *)
Lemma B2R_n0_115 :
  (IZR 115 / IZR 1000 < B2R n0_115 < IZR 125 / IZR 1000)%R.
Proof.
  change n0_115 with (S754_finite false 8286623314361713 (-56)).
  unfold B2R, sgn. change (-56) with (Z.opp 56).
  rewrite bpow_opp, (bpow_IZR 56) by lia.
  change (2 ^ 56) with 72057594037927936.
  assert (P : (0 < IZR 72057594037927936)%R) by (apply IZR_lt; reflexivity).
  assert (L : (IZR (115 * 72057594037927936)
               < IZR (1000 * 8286623314361713))%R)
    by (apply IZR_lt; reflexivity).
  assert (U : (IZR (1000 * 8286623314361713)
               < IZR (125 * 72057594037927936))%R)
    by (apply IZR_lt; reflexivity).
  rewrite !mult_IZR in L, U.
  set (p := IZR 72057594037927936) in *.
  set (m := IZR 8286623314361713) in *.
  split; apply (Rmult_lt_reg_r p); try exact P;
    rewrite (Rmult_assoc m), Rinv_l, Rmult_1_r by lra; lra.
Qed.

(** At [a = 0.115] the exact conversion [1 + a/100] lies strictly between
    1.00115 and 1.00125, so that [round(1 + a/100, 4)] is 1.0012, whichever
    way a tie would go; the script returns 1.0011, because the Number it
    has for [1 + a/100] lies below 1.00115. *)
Lemma americanToDecimal_not_the_exact_rounding :
  isFinite n0_115 = true /\ gtb n0_115 n0 = true
  /\ americanToDecimal example_StringToNumber (VNum n0_115)
     = Some (of_decimal false 10011 4)
  /\ (IZR 100115 / IZR (10 ^ 5) < 1 + B2R n0_115 / 100
      < IZR 100125 / IZR (10 ^ 5))%R
  /\ convert_pos_exact (B2R n0_115) = (IZR 10012 / IZR (10 ^ 4))%R
  /\ Rounded (convert_pos_exact (B2R n0_115)) (of_decimal false 10012 4)
  /\ ltb (of_decimal false 10011 4) (of_decimal false 10012 4) = true.
Proof.
  pose proof B2R_n0_115 as [L U].
  assert (B : (IZR 100115 / IZR (10 ^ 5) < 1 + B2R n0_115 / 100
               < IZR 100125 / IZR (10 ^ 5))%R).
  { change (10 ^ 5) with 100000. lra. }
  assert (E : convert_pos_exact (B2R n0_115) = (IZR 10012 / IZR (10 ^ 4))%R).
  { unfold convert_pos_exact, exact_round4, round_half_up.
    change (10 ^ 4) with 10000. change (10 ^ 5) with 100000 in B.
    do 2 f_equal. apply Zfloor_eq. lra. }
  split; [reflexivity |]. split; [reflexivity |].
  split; [vm_compute; reflexivity |].
  split; [exact B |]. split; [exact E |].
  split; [| vm_compute; reflexivity].
  rewrite E. apply (of_decimal_Rounded false 10012 4).
Qed.

(** * More on the page *)

Lemma setValue_effect id v p :
  is_Some (elements p !! id) ->
  exists p',
    setValue id v p = Some p'
    /\ getValue id p' = Some v
    /\ getTextContent id p' = getTextContent id p
    /\ (forall j, j <> id -> elements p' !! j = elements p !! j)
    /\ (forall j, is_Some (elements p !! j) -> is_Some (elements p' !! j))
    /\ alerts p' = alerts p /\ fetched p' = fetched p.
Proof.
  intros [el Hel]. eexists. split; [apply (setValue_Some _ _ _ _ Hel) |].
  unfold getTextContent, getValue; simpl. repeat split.
  - rewrite lookup_insert_eq. reflexivity.
  - rewrite lookup_insert_eq, Hel. reflexivity.
  - intros j Hj. rewrite lookup_insert_ne; [reflexivity | congruence].
  - intros j Hj. destruct (decide (id = j)) as [-> | Hne].
    + rewrite lookup_insert_eq. eauto.
    + rewrite lookup_insert_ne; assumption.
Qed.

(** Writing what is already there changes nothing. *)
Lemma setTextContent_same id t p :
  getTextContent id p = Some t -> setTextContent id t p = Some p.
Proof.
  unfold getTextContent, setTextContent.
  destruct (elements p !! id) as [el |] eqn:E; simpl; [| discriminate].
  intros [= <-]. destruct p as [m al fe]; simpl in *. do 2 f_equal.
  destruct el; simpl. apply insert_id. exact E.
Qed.

Lemma setValue_same id v p :
  getValue id p = Some v -> setValue id v p = Some p.
Proof.
  unfold getValue, setValue.
  destruct (elements p !! id) as [el |] eqn:E; simpl; [| discriminate].
  intros [= <-]. destruct p as [m al fe]; simpl in *. do 2 f_equal.
  destruct el; simpl. apply insert_id. exact E.
Qed.

Lemma getValue_frame id p p' :
  elements p' !! id = elements p !! id -> getValue id p' = getValue id p.
Proof. unfold getValue. intros ->. reflexivity. Qed.

Lemma getValue_is_Some id p v :
  getValue id p = Some v -> is_Some (elements p !! id).
Proof.
  unfold getValue. destruct (elements p !! id); [eauto | discriminate].
Qed.

(** The three assignments of a recommendation (lines 62, 64 and 65). *)
Lemma recommendation_writes t1 t2 v p :
  is_Some (elements p !! "converted_decimal") ->
  is_Some (elements p !! "recommended_stake") ->
  is_Some (elements p !! "odds_hidden") ->
  exists p',
    (p1 ← setTextContent "converted_decimal" t1 p;
     p2 ← setTextContent "recommended_stake" t2 p1;
     setValue "odds_hidden" v p2) = Some p'
    /\ getTextContent "converted_decimal" p' = Some t1
    /\ getTextContent "recommended_stake" p' = Some t2
    /\ getValue "odds_hidden" p' = Some v
    /\ (getValue "converted_decimal" p' = getValue "converted_decimal" p
        /\ getValue "recommended_stake" p' = getValue "recommended_stake" p
        /\ getTextContent "odds_hidden" p' = getTextContent "odds_hidden" p)
    /\ (forall id, id <> "converted_decimal" -> id <> "recommended_stake" ->
                   id <> "odds_hidden" -> elements p' !! id = elements p !! id)
    /\ alerts p' = alerts p /\ fetched p' = fetched p.
Proof.
  intros H1 H2 H3.
  destruct (setTextContent_spec "converted_decimal" t1 p H1)
    as (p1 & E1 & T1 & V1 & O1 & S1 & A1 & F1).
  destruct (setTextContent_spec "recommended_stake" t2 p1 (S1 _ H2))
    as (p2 & E2 & T2 & V2 & O2 & S2 & A2 & F2).
  destruct (setValue_effect "odds_hidden" v p2 (S2 _ (S1 _ H3)))
    as (p3 & E3 & V3 & T3 & O3 & S3 & A3 & F3).
  exists p3. rewrite E1; simpl. rewrite E2; simpl.
  split; [exact E3 |].
  unfold getTextContent, getValue in *.
  repeat split; try congruence.
  - rewrite O3, O2 by discriminate. exact T1.
  - rewrite O3 by discriminate. exact T2.
  - rewrite O3, O2 by discriminate. exact V1.
  - rewrite O3 by discriminate. rewrite V2. rewrite O1 by discriminate.
    reflexivity.
  - rewrite T3. rewrite O2, O1 by discriminate. reflexivity.
  - intros id N1 N2 N3. rewrite O3, O2, O1 by assumption. reflexivity.
Qed.

(** The two assignments made when there is nothing to recommend (lines 58
    and 59). *)
Lemma no_recommendation_writes p :
  is_Some (elements p !! "recommended_stake") ->
  is_Some (elements p !! "odds_hidden") ->
  exists p',
    (p1 ← setTextContent "recommended_stake" "—" p;
     setValue "odds_hidden" "" p1) = Some p'
    /\ getTextContent "recommended_stake" p' = Some "—"
    /\ getValue "odds_hidden" p' = Some ""
    /\ (forall id, id <> "recommended_stake" -> id <> "odds_hidden" ->
                   elements p' !! id = elements p !! id)
    /\ alerts p' = alerts p /\ fetched p' = fetched p.
Proof.
  intros H1 H2.
  destruct (setTextContent_spec "recommended_stake" "—" p H1)
    as (p1 & E1 & T1 & V1 & O1 & S1 & A1 & F1).
  destruct (setValue_effect "odds_hidden" "" p1 (S1 _ H2))
    as (p2 & E2 & V2 & T2 & O2 & S2 & A2 & F2).
  exists p2. rewrite E1; simpl. split; [exact E2 |].
  unfold getTextContent, getValue in *.
  repeat split; try congruence.
  - rewrite O2 by discriminate. exact T1.
  - intros id N1 N2. rewrite O2, O1 by assumption. reflexivity.
Qed.

Lemma recommendation_writes_inv t1 t2 v p p' :
  (p1 ← setTextContent "converted_decimal" t1 p;
   p2 ← setTextContent "recommended_stake" t2 p1;
   setValue "odds_hidden" v p2) = Some p' ->
  is_Some (elements p !! "converted_decimal")
  /\ is_Some (elements p !! "recommended_stake")
  /\ is_Some (elements p !! "odds_hidden").
Proof.
  unfold setTextContent, setValue. intros H.
  destruct (elements p !! "converted_decimal") as [e1 |] eqn:E1;
    simpl in H; [| discriminate].
  rewrite lookup_insert_ne in H by discriminate.
  destruct (elements p !! "recommended_stake") as [e2 |] eqn:E2;
    simpl in H; [| discriminate].
  rewrite !lookup_insert_ne in H by discriminate.
  destruct (elements p !! "odds_hidden") as [e3 |] eqn:E3;
    simpl in H; [| discriminate].
  eauto.
Qed.

Lemma no_recommendation_writes_inv p p' :
  (p1 ← setTextContent "recommended_stake" "—" p;
   setValue "odds_hidden" "" p1) = Some p' ->
  is_Some (elements p !! "recommended_stake")
  /\ is_Some (elements p !! "odds_hidden").
Proof.
  unfold setTextContent, setValue. intros H.
  destruct (elements p !! "recommended_stake") as [e2 |] eqn:E2;
    simpl in H; [| discriminate].
  rewrite !lookup_insert_ne in H by discriminate.
  destruct (elements p !! "odds_hidden") as [e3 |] eqn:E3;
    simpl in H; [| discriminate].
  eauto.
Qed.

Section Recommendation.

Variable StringToNumber : string -> number.
Variable parseFloat : string -> number.
Variable NumberToString : number -> string.
Variable numeralToString : numeral -> string.
Variables bankroll percentCap : number.

(** [updateRecommended] on a page whose odds convert to [d] and whose
    probability parses to a finite Number. *)
Lemma updateRecommended_Some p a pv d :
  getValue "american_odds" p = Some a ->
  getValue "prob" p = Some pv ->
  americanToDecimal StringToNumber (VStr a) = Some d ->
  isFinite (parseFloat pv) = true ->
  updateRecommended StringToNumber parseFloat NumberToString numeralToString
    bankroll percentCap p =
  (p1 ← setTextContent "converted_decimal" (NumberToString d) p;
   p2 ← setTextContent "recommended_stake"
          ("$" ++ numeralToString
                    (toFixed 2 (computeKelly bankroll percentCap d (parseFloat pv))))
          p1;
   setValue "odds_hidden" (NumberToString d) p2).
Proof.
  intros Ha Hp Hd Hfin. unfold updateRecommended.
  rewrite Ha; simpl. rewrite Hp; simpl. rewrite Hd, Hfin. reflexivity.
Qed.

Lemma updateRecommended_None p a pv :
  getValue "american_odds" p = Some a ->
  getValue "prob" p = Some pv ->
  americanToDecimal StringToNumber (VStr a) = None
    \/ isFinite (parseFloat pv) = false ->
  updateRecommended StringToNumber parseFloat NumberToString numeralToString
    bankroll percentCap p =
  (p1 ← setTextContent "recommended_stake" "—" p;
   setValue "odds_hidden" "" p1).
Proof.
  intros Ha Hp Hbad. unfold updateRecommended.
  rewrite Ha; simpl. rewrite Hp; simpl.
  destruct Hbad as [-> | Hfin]; [reflexivity |].
  rewrite Hfin. simpl.
  destruct (americanToDecimal StringToNumber (VStr a)); reflexivity.
Qed.

End Recommendation.

(** X9: when the odds convert and the probability parses to a finite
    Number, [updateRecommended] shows the decimal odds in
    [converted_decimal], the stake of [computeKelly] with two decimals
    after a dollar sign in [recommended_stake], and stores the decimal odds
    in [odds_hidden]; nothing else on the page changes, nothing is alerted
    and no request is issued. *)
Theorem updateRecommended_recommendation
    StringToNumber parseFloat NumberToString numeralToString
    (bankroll percentCap : number) (p : page) (a pv : string) (d : number) :
  getValue "american_odds" p = Some a ->
  getValue "prob" p = Some pv ->
  is_Some (elements p !! "converted_decimal") ->
  is_Some (elements p !! "recommended_stake") ->
  is_Some (elements p !! "odds_hidden") ->
  americanToDecimal StringToNumber (VStr a) = Some d ->
  isFinite (parseFloat pv) = true ->
  exists p',
    updateRecommended StringToNumber parseFloat NumberToString numeralToString
      bankroll percentCap p = Some p'
    /\ getTextContent "converted_decimal" p' = Some (NumberToString d)
    /\ getTextContent "recommended_stake" p' =
       Some ("$" ++ numeralToString
                      (toFixed 2 (computeKelly bankroll percentCap d
                                    (parseFloat pv))))%string
    /\ getValue "odds_hidden" p' = Some (NumberToString d)
    /\ (getValue "converted_decimal" p' = getValue "converted_decimal" p
        /\ getValue "recommended_stake" p' = getValue "recommended_stake" p
        /\ getTextContent "odds_hidden" p' = getTextContent "odds_hidden" p)
    /\ (forall id, id <> "converted_decimal" -> id <> "recommended_stake" ->
                   id <> "odds_hidden" -> elements p' !! id = elements p !! id)
    /\ alerts p' = alerts p /\ fetched p' = fetched p.
Proof.
  intros Ha Hp H1 H2 H3 Hd Hfin.
  rewrite (updateRecommended_Some _ _ _ _ _ _ p a pv d Ha Hp Hd Hfin).
  apply recommendation_writes; assumption.
Qed.

Lemma updateRecommended_recommendation_witness :
  exists p',
    updateRecommended example_StringToNumber example_parseFloat
      example_NumberToString example_numeralToString n1000 n0_02 filled_page
    = Some p'
    /\ getTextContent "converted_decimal" p' = Some "1.5"
    /\ getTextContent "recommended_stake" p' = Some "$20.00"
    /\ getValue "odds_hidden" p' = Some "1.5".
Proof.
  destruct (updateRecommended_recommendation
              example_StringToNumber example_parseFloat
              example_NumberToString example_numeralToString n1000 n0_02
              filled_page "-200" "0.7" n1_5 eq_refl eq_refl
              (ex_intro _ _ eq_refl) (ex_intro _ _ eq_refl)
              (ex_intro _ _ eq_refl) eq_refl eq_refl)
    as (p' & E & T1 & T2 & V & _).
  exists p'. repeat split; assumption.
Defined.

(** An input that reads as zero, of either sign, converts to [Infinity]. *)
Lemma americanToDecimal_zero StringToNumber a s :
  StringToNumber a = S754_zero s ->
  americanToDecimal StringToNumber (VStr a) = Some Infinity.
Proof.
  intros H. unfold americanToDecimal, Number. rewrite H.
  destruct s; reflexivity.
Qed.

(** X10: an odds box that reads as zero (an empty one does) is converted to
    [Infinity]; with a probability strictly between 0 and 1 the stake is
    NaN, whatever the bankroll and the cap: [updateRecommended] shows
    [Infinity] as the decimal odds, stores it in [odds_hidden], and shows
    the dollar sign followed by the string of NaN as the stake. *)
Theorem updateRecommended_zero_odds
    StringToNumber parseFloat NumberToString numeralToString
    (bankroll percentCap : number) (p : page) (a pv : string) (s : bool) :
  getValue "american_odds" p = Some a ->
  getValue "prob" p = Some pv ->
  is_Some (elements p !! "converted_decimal") ->
  is_Some (elements p !! "recommended_stake") ->
  is_Some (elements p !! "odds_hidden") ->
  StringToNumber a = S754_zero s ->
  valid (parseFloat pv) = true ->
  gtb (parseFloat pv) n0 = true -> ltb (parseFloat pv) n1 = true ->
  computeKelly bankroll percentCap Infinity (parseFloat pv) = NaN
  /\ exists p',
      updateRecommended StringToNumber parseFloat NumberToString
        numeralToString bankroll percentCap p = Some p'
      /\ getTextContent "converted_decimal" p' = Some (NumberToString Infinity)
      /\ getValue "odds_hidden" p' = Some (NumberToString Infinity)
      /\ getTextContent "recommended_stake" p' =
         Some ("$" ++ numeralToString (Plain NaN))%string.
Proof.
  intros Ha Hp H1 H2 H3 Hz Vp Hp0 Hp1.
  pose proof (computeKelly_Infinity_is_NaN bankroll percentCap _ Vp Hp0 Hp1) as EN.
  split; [exact EN |].
  assert (Hfin : isFinite (parseFloat pv) = true).
  { unfold gtb, ltb, n0, pzero in *. rewrite n1_finite in *.
    destruct (parseFloat pv) as [| [] | |]; try discriminate; reflexivity. }
  rewrite (updateRecommended_Some _ _ _ _ _ _ p a pv Infinity Ha Hp
             (americanToDecimal_zero _ _ _ Hz) Hfin).
  rewrite EN.
  destruct (recommendation_writes (NumberToString Infinity)
              ("$" ++ numeralToString (Plain NaN))%string
              (NumberToString Infinity)
              p H1 H2 H3) as (p' & E & T1 & T2 & V & _).
  exists p'. repeat split; assumption.
Qed.

Lemma updateRecommended_zero_odds_witness :
  computeKelly n1000 n0_02 Infinity (example_parseFloat "0.7") = NaN
  /\ exists p',
      updateRecommended example_StringToNumber example_parseFloat
        example_NumberToString example_numeralToString n1000 n0_02
        empty_odds_page = Some p'
      /\ getTextContent "converted_decimal" p' = Some "Infinity"
      /\ getValue "odds_hidden" p' = Some "Infinity"
      /\ getTextContent "recommended_stake" p' = Some "$NaN".
Proof.
  apply (updateRecommended_zero_odds
           example_StringToNumber example_parseFloat
           example_NumberToString example_numeralToString n1000 n0_02
           empty_odds_page "" "0.7" false eq_refl eq_refl
           (ex_intro _ _ eq_refl) (ex_intro _ _ eq_refl)
           (ex_intro _ _ eq_refl) eq_refl eq_refl eq_refl eq_refl).
Defined.

(** For finite inputs the stake is 0 or at least 0.10. *)
Lemma computeKelly_is_a_number B c o p :
  valid B = true -> valid c = true -> valid o = true -> valid p = true ->
  isFinite B = true -> isFinite c = true -> isFinite o = true ->
  computeKelly B c o p = pzero \/ leb n0_10 (computeKelly B c o p) = true.
Proof.
  intros VB Vc Vo Vp FB Fc Fo.
  destruct (precondition_fails o p) eqn:Hpre.
  - left. rewrite computeKelly_main. fold (precondition_fails o p).
    rewrite Hpre. reflexivity.
  - destruct (leb (sub o n1) n0) eqn:Hnet.
    + left. rewrite computeKelly_main. fold (precondition_fails o p).
      rewrite Hpre, Hnet. reflexivity.
    + right. apply computeKelly_bounds; assumption.
Qed.

(** X11: for odds of magnitude at least 1, a probability that parses to a
    finite Number and a finite bankroll and cap, [updateRecommended] stores
    finite decimal odds of at least 1 and shows a stake that is 0 or at
    least 0.10, never NaN. *)
Theorem updateRecommended_shows_a_stake
    StringToNumber parseFloat NumberToString numeralToString
    (bankroll percentCap : number) (p : page) (a pv : string) :
  getValue "american_odds" p = Some a ->
  getValue "prob" p = Some pv ->
  is_Some (elements p !! "converted_decimal") ->
  is_Some (elements p !! "recommended_stake") ->
  is_Some (elements p !! "odds_hidden") ->
  valid bankroll = true -> valid percentCap = true ->
  isFinite bankroll = true -> isFinite percentCap = true ->
  valid (StringToNumber a) = true -> isFinite (StringToNumber a) = true ->
  leb n1 (StringToNumber a) = true \/ leb (StringToNumber a) minus1 = true ->
  valid (parseFloat pv) = true -> isFinite (parseFloat pv) = true ->
  exists p' d rec,
    updateRecommended StringToNumber parseFloat NumberToString numeralToString
      bankroll percentCap p = Some p'
    /\ getValue "odds_hidden" p' = Some (NumberToString d)
    /\ getTextContent "recommended_stake" p' =
       Some ("$" ++ numeralToString (toFixed 2 rec))%string
    /\ isFinite d = true /\ leb n1 d = true
    /\ rec = computeKelly bankroll percentCap d (parseFloat pv)
    /\ (rec = pzero \/ leb n0_10 rec = true).
Proof.
  intros Ha Hp H1 H2 H3 VB Vc FB Fc Va Fa Hmag Vp Fp.
  destruct (americanToDecimal_finite StringToNumber (VStr a) Va Fa Hmag)
    as (d & Hd & Vd & Fd & Ld).
  rewrite (updateRecommended_Some _ _ _ _ bankroll percentCap p a pv d
             Ha Hp Hd Fp).
  destruct (recommendation_writes (NumberToString d)
              ("$" ++ numeralToString
                        (toFixed 2 (computeKelly bankroll percentCap d
                                      (parseFloat pv))))%string
              (NumberToString d) p H1 H2 H3) as (p' & E & T1 & T2 & V & _).
  exists p', d, (computeKelly bankroll percentCap d (parseFloat pv)).
  repeat split; try assumption.
  apply computeKelly_is_a_number; assumption.
Qed.

Lemma updateRecommended_shows_a_stake_witness :
  exists p' d rec,
    updateRecommended example_StringToNumber example_parseFloat
      example_NumberToString example_numeralToString n1000 n0_02 filled_page
    = Some p'
    /\ getValue "odds_hidden" p' = Some (example_NumberToString d)
    /\ getTextContent "recommended_stake" p' =
       Some ("$" ++ example_numeralToString (toFixed 2 rec))%string
    /\ isFinite d = true /\ leb n1 d = true
    /\ rec = computeKelly n1000 n0_02 d (example_parseFloat "0.7")
    /\ (rec = pzero \/ leb n0_10 rec = true).
Proof.
  apply (updateRecommended_shows_a_stake
           example_StringToNumber example_parseFloat
           example_NumberToString example_numeralToString n1000 n0_02
           filled_page "-200" "0.7" eq_refl eq_refl
           (ex_intro _ _ eq_refl) (ex_intro _ _ eq_refl)
           (ex_intro _ _ eq_refl) eq_refl eq_refl eq_refl eq_refl
           eq_refl eq_refl (or_intror eq_refl) eq_refl eq_refl).
Defined.

(** ** Recomputing, then submitting *)

Lemma submitHandler_accepts p e name odds prob stake sport type :
  getValue "bet_name" p = Some name ->
  getValue "odds_hidden" p = Some odds ->
  getValue "prob" p = Some prob ->
  getValue "actual_stake" p = Some stake ->
  getValue "sport" p = Some sport ->
  getValue "bet_type" p = Some type ->
  nonempty name = true -> nonempty odds = true ->
  nonempty prob = true -> nonempty stake = true ->
  is_Some (elements p !! "form_name") ->
  is_Some (elements p !! "form_odds") ->
  is_Some (elements p !! "form_prob") ->
  is_Some (elements p !! "form_stake") ->
  is_Some (elements p !! "form_sport") ->
  is_Some (elements p !! "form_type") ->
  exists p',
    submitHandler p e = Some (p', e)
    /\ getValue "form_name" p' = Some name
    /\ getValue "form_odds" p' = Some odds
    /\ getValue "form_prob" p' = Some prob
    /\ getValue "form_stake" p' = Some stake
    /\ alerts p' = alerts p
    /\ fetched p' = fetched p.
Proof.
  intros Hn Ho Hp Hs Hsp Hty Nn No Np Ns H1 H2 H3 H4 H5 H6.
  unfold submitHandler.
  rewrite Hn, Ho, Hp, Hs, Hsp, Hty. simpl. rewrite Nn, No, Np, Ns. simpl.
  destruct (setValue_spec "form_name" name p H1)
    as (p1 & E1 & V1 & O1 & S1 & A1 & F1).
  destruct (setValue_spec "form_odds" odds p1 (S1 _ H2))
    as (p2 & E2 & V2 & O2 & S2 & A2 & F2).
  destruct (setValue_spec "form_prob" prob p2 (S2 _ (S1 _ H3)))
    as (p3 & E3 & V3 & O3 & S3 & A3 & F3).
  destruct (setValue_spec "form_stake" stake p3 (S3 _ (S2 _ (S1 _ H4))))
    as (p4 & E4 & V4 & O4 & S4 & A4 & F4).
  destruct (setValue_spec "form_sport" (or_default sport "") p4
              (S4 _ (S3 _ (S2 _ (S1 _ H5)))))
    as (p5 & E5 & V5 & O5 & S5 & A5 & F5).
  destruct (setValue_spec "form_type" (or_default type "Moneyline") p5
              (S5 _ (S4 _ (S3 _ (S2 _ (S1 _ H6))))))
    as (p6 & E6 & V6 & O6 & S6 & A6 & F6).
  exists p6. rewrite E1; simpl. rewrite E2; simpl. rewrite E3; simpl.
  rewrite E4; simpl. rewrite E5; simpl. rewrite E6; simpl.
  unfold getValue in *.
  repeat split; try congruence.
  - rewrite O6, O5, O4, O3, O2 by discriminate. exact V1.
  - rewrite O6, O5, O4, O3 by discriminate. exact V2.
  - rewrite O6, O5, O4 by discriminate. exact V3.
  - rewrite O6, O5 by discriminate. exact V4.
Qed.

Lemma is_Some_getValue id p :
  is_Some (elements p !! id) -> exists v, getValue id p = Some v.
Proof. intros [el H]. unfold getValue. rewrite H. eauto. Qed.

(** X12: after a recomputation that found nothing to recommend (the odds do
    not convert, or the probability is not a finite Number), the submit
    handler refuses the form, whatever the other fields hold. *)
Theorem submit_refused_after_failed_conversion
    StringToNumber parseFloat NumberToString numeralToString
    (bankroll percentCap : number) (p : page) (e : event) (a pv : string) :
  getValue "american_odds" p = Some a ->
  getValue "prob" p = Some pv ->
  is_Some (elements p !! "recommended_stake") ->
  is_Some (elements p !! "odds_hidden") ->
  is_Some (elements p !! "bet_name") ->
  is_Some (elements p !! "actual_stake") ->
  is_Some (elements p !! "sport") ->
  is_Some (elements p !! "bet_type") ->
  americanToDecimal StringToNumber (VStr a) = None
    \/ isFinite (parseFloat pv) = false ->
  exists p',
    updateRecommended StringToNumber parseFloat NumberToString numeralToString
      bankroll percentCap p = Some p'
    /\ submitHandler p' e =
       Some (Page (elements p') (alerts p ++ ["Please fill in all fields."])
                  (fetched p),
             Event true).
Proof.
  intros Ha Hp Hrec Hodds Hname Hstake Hsport Htype Hbad.
  rewrite (updateRecommended_None _ _ NumberToString numeralToString
             bankroll percentCap p a pv Ha Hp Hbad).
  destruct (no_recommendation_writes p Hrec Hodds)
    as (p' & E & T & V & Fr & A & F).
  exists p'. split; [exact E |].
  destruct (is_Some_getValue _ _ Hname) as (name & Hn).
  destruct (is_Some_getValue _ _ Hstake) as (stake & Hs).
  destruct (is_Some_getValue _ _ Hsport) as (sport & Hsp).
  destruct (is_Some_getValue _ _ Htype) as (type & Hty).
  unfold submitHandler.
  rewrite (getValue_frame "bet_name" p p') by (apply Fr; discriminate).
  rewrite (getValue_frame "prob" p p') by (apply Fr; discriminate).
  rewrite (getValue_frame "actual_stake" p p') by (apply Fr; discriminate).
  rewrite (getValue_frame "sport" p p') by (apply Fr; discriminate).
  rewrite (getValue_frame "bet_type" p p') by (apply Fr; discriminate).
  rewrite Hn, V, Hp, Hs, Hsp, Hty. simpl.
  unfold alert. rewrite A, F.
  destruct (nonempty name); reflexivity.
Qed.

Lemma submit_refused_after_failed_conversion_witness :
  exists p',
    updateRecommended example_StringToNumber example_parseFloat
      example_NumberToString example_numeralToString n1000 n0_02
      unfilled_page = Some p'
    /\ submitHandler p' (Event false) =
       Some (Page (elements p') ["Please fill in all fields."] [], Event true).
Proof.
  apply (submit_refused_after_failed_conversion
           example_StringToNumber example_parseFloat
           example_NumberToString example_numeralToString n1000 n0_02
           unfilled_page (Event false) "abc" "0.7" eq_refl eq_refl
           (ex_intro _ _ eq_refl) (ex_intro _ _ eq_refl)
           (ex_intro _ _ eq_refl) (ex_intro _ _ eq_refl)
           (ex_intro _ _ eq_refl) (ex_intro _ _ eq_refl)
           (or_introl eq_refl)).
Defined.

(** X13: after a recomputation that converted the odds, the submit handler
    accepts a form whose name, probability and stake are filled in, and the
    odds it copies into the form are the decimal odds just computed. *)
Theorem submit_sends_converted_odds
    StringToNumber parseFloat NumberToString numeralToString
    (bankroll percentCap : number) (p : page) (e : event)
    (a pv name stake : string) (d : number) :
  getValue "american_odds" p = Some a ->
  getValue "prob" p = Some pv ->
  getValue "bet_name" p = Some name ->
  getValue "actual_stake" p = Some stake ->
  is_Some (elements p !! "sport") ->
  is_Some (elements p !! "bet_type") ->
  is_Some (elements p !! "converted_decimal") ->
  is_Some (elements p !! "recommended_stake") ->
  is_Some (elements p !! "odds_hidden") ->
  is_Some (elements p !! "form_name") ->
  is_Some (elements p !! "form_odds") ->
  is_Some (elements p !! "form_prob") ->
  is_Some (elements p !! "form_stake") ->
  is_Some (elements p !! "form_sport") ->
  is_Some (elements p !! "form_type") ->
  americanToDecimal StringToNumber (VStr a) = Some d ->
  isFinite (parseFloat pv) = true ->
  nonempty name = true -> nonempty pv = true -> nonempty stake = true ->
  nonempty (NumberToString d) = true ->
  exists p1 p2,
    updateRecommended StringToNumber parseFloat NumberToString numeralToString
      bankroll percentCap p = Some p1
    /\ submitHandler p1 e = Some (p2, e)
    /\ getValue "form_odds" p2 = Some (NumberToString d)
    /\ getValue "form_prob" p2 = Some pv
    /\ getValue "form_name" p2 = Some name
    /\ getValue "form_stake" p2 = Some stake
    /\ alerts p2 = alerts p
    /\ fetched p2 = fetched p.
Proof.
  intros Ha Hp Hn Hs Hsport Htype H1 H2 H3 F1 F2 F3 F4 F5 F6 Hd Hfin
         Nn Np Ns Nd.
  rewrite (updateRecommended_Some _ _ _ _ bankroll percentCap p a pv d
             Ha Hp Hd Hfin).
  destruct (recommendation_writes (NumberToString d)
              ("$" ++ numeralToString
                        (toFixed 2 (computeKelly bankroll percentCap d
                                      (parseFloat pv))))%string
              (NumberToString d) p H1 H2 H3)
    as (p1 & E & T1 & T2 & V & _ & Fr & A & F).
  destruct (is_Some_getValue _ _ Hsport) as (sport & Hsp).
  destruct (is_Some_getValue _ _ Htype) as (type & Hty).
  assert (K : forall id, id <> "converted_decimal" ->
                         id <> "recommended_stake" -> id <> "odds_hidden" ->
                         is_Some (elements p !! id) ->
                         is_Some (elements p1 !! id)).
  { intros id N1 N2 N3 H. rewrite Fr; assumption. }
  destruct (submitHandler_accepts p1 e name (NumberToString d) pv stake
              sport type) as (p2 & E2 & V1 & V2 & V3 & V4 & A2 & F2');
    try assumption;
    try (rewrite (getValue_frame _ p p1) by (apply Fr; discriminate);
         assumption);
    try (apply K; [discriminate | discriminate | discriminate | assumption]).
  exists p1, p2. repeat split; try assumption; congruence.
Qed.

Lemma submit_sends_converted_odds_witness :
  exists p1 p2,
    updateRecommended example_StringToNumber example_parseFloat
      example_NumberToString example_numeralToString n1000 n0_02 filled_page
    = Some p1
    /\ submitHandler p1 (Event false) = Some (p2, Event false)
    /\ getValue "form_odds" p2 = Some "1.5"
    /\ getValue "form_prob" p2 = Some "0.7"
    /\ getValue "form_name" p2 = Some "Lakers ML"
    /\ getValue "form_stake" p2 = Some "20"
    /\ alerts p2 = []
    /\ fetched p2 = [].
Proof.
  apply (submit_sends_converted_odds
           example_StringToNumber example_parseFloat
           example_NumberToString example_numeralToString n1000 n0_02
           filled_page (Event false) "-200" "0.7" "Lakers ML" "20" n1_5
           eq_refl eq_refl eq_refl eq_refl
           (ex_intro _ _ eq_refl) (ex_intro _ _ eq_refl)
           (ex_intro _ _ eq_refl) (ex_intro _ _ eq_refl)
           (ex_intro _ _ eq_refl) (ex_intro _ _ eq_refl)
           (ex_intro _ _ eq_refl) (ex_intro _ _ eq_refl)
           (ex_intro _ _ eq_refl) (ex_intro _ _ eq_refl)
           (ex_intro _ _ eq_refl)
           eq_refl eq_refl eq_refl eq_refl eq_refl eq_refl).
Defined.

(** X14: recomputing on a page that was not touched since the last
    recomputation changes nothing: the result of [updateRecommended] is a
    fixed point of it. *)
Theorem updateRecommended_idempotent
    StringToNumber parseFloat NumberToString numeralToString
    (bankroll percentCap : number) (p p' : page) :
  updateRecommended StringToNumber parseFloat NumberToString numeralToString
    bankroll percentCap p = Some p' ->
  updateRecommended StringToNumber parseFloat NumberToString numeralToString
    bankroll percentCap p' = Some p'.
Proof.
  intros H.
  destruct (getValue "american_odds" p) as [a |] eqn:Ha;
    [| unfold updateRecommended in H; rewrite Ha in H; discriminate].
  destruct (getValue "prob" p) as [pv |] eqn:Hp;
    [| unfold updateRecommended in H; rewrite Ha in H; simpl in H;
       rewrite Hp in H; discriminate].
  destruct (americanToDecimal StringToNumber (VStr a)) as [d |] eqn:Hd;
    [destruct (isFinite (parseFloat pv)) eqn:Hfin |].
  - rewrite (updateRecommended_Some _ _ _ _ bankroll percentCap p a pv d
               Ha Hp Hd Hfin) in H.
    destruct (recommendation_writes_inv _ _ _ _ _ H) as (H1 & H2 & H3).
    destruct (recommendation_writes (NumberToString d)
                ("$" ++ numeralToString
                          (toFixed 2 (computeKelly bankroll percentCap d
                                        (parseFloat pv))))%string
                (NumberToString d) p H1 H2 H3)
      as (q & E & T1 & T2 & V & _ & Fr & _).
    rewrite H in E. injection E as <-.
    rewrite (updateRecommended_Some _ _ _ _ bankroll percentCap p' a pv d);
      try assumption;
      try (rewrite (getValue_frame _ p p') by (apply Fr; discriminate);
           assumption).
    rewrite (setTextContent_same _ _ _ T1). simpl.
    rewrite (setTextContent_same _ _ _ T2). simpl.
    apply setValue_same. exact V.
  - rewrite (updateRecommended_None _ _ NumberToString numeralToString
               bankroll percentCap p a pv Ha Hp (or_intror Hfin)) in H.
    destruct (no_recommendation_writes_inv _ _ H) as (H2 & H3).
    destruct (no_recommendation_writes p H2 H3) as (q & E & T & V & Fr & _).
    rewrite H in E. injection E as <-.
    rewrite (updateRecommended_None _ _ NumberToString numeralToString
               bankroll percentCap p' a pv);
      try (rewrite (getValue_frame _ p p') by (apply Fr; discriminate);
           assumption);
      [| right; assumption].
    rewrite (setTextContent_same _ _ _ T). simpl.
    apply setValue_same. exact V.
  - rewrite (updateRecommended_None _ _ NumberToString numeralToString
               bankroll percentCap p a pv Ha Hp (or_introl Hd)) in H.
    destruct (no_recommendation_writes_inv _ _ H) as (H2 & H3).
    destruct (no_recommendation_writes p H2 H3) as (q & E & T & V & Fr & _).
    rewrite H in E. injection E as <-.
    rewrite (updateRecommended_None _ _ NumberToString numeralToString
               bankroll percentCap p' a pv);
      try (rewrite (getValue_frame _ p p') by (apply Fr; discriminate);
           assumption);
      [| left; assumption].
    rewrite (setTextContent_same _ _ _ T). simpl.
    apply setValue_same. exact V.
Qed.

Lemma updateRecommended_idempotent_witness :
  exists p',
    updateRecommended example_StringToNumber example_parseFloat
      example_NumberToString example_numeralToString n1000 n0_02
      unfilled_page = Some p'
    /\ updateRecommended example_StringToNumber example_parseFloat
         example_NumberToString example_numeralToString n1000 n0_02 p'
       = Some p'.
Proof.
  eexists. split; [reflexivity |].
  apply (updateRecommended_idempotent
           example_StringToNumber example_parseFloat
           example_NumberToString example_numeralToString n1000 n0_02
           unfilled_page).
  reflexivity.
Defined.

(** * The empirical summary *)

Lemma updateEmpiricalInfo_iter p n :
  Nat.iter n updateEmpiricalInfo p =
  Page (elements p) (alerts p)
       (fetched p ++
        repeat (Request "/api/empirical_info"
                  (or_default (default "" (getValue "sport" p)) "")
                  (or_default (default "" (getValue "bet_type" p)) "")
                  (or_default (default "" (getValue "prob" p)) "0.5")) n).
Proof.
  induction n as [| n IH].
  - simpl. rewrite app_nil_r. destruct p; reflexivity.
  - simpl. rewrite IH. unfold updateEmpiricalInfo, getValue. simpl.
    rewrite <- app_assoc. do 2 f_equal.
    change (?r :: repeat ?r n) with (repeat r (S n)).
    rewrite <- repeat_cons. reflexivity.
Qed.

Lemma or_default_empty s : or_default s "" = s.
Proof. destruct s; reflexivity. Qed.

Lemma or_default_nonempty s d :
  nonempty d = true -> nonempty (or_default s d) = true.
Proof. destruct s; intros H; [exact H | reflexivity]. Qed.

(** X15: a call of [updateEmpiricalInfo] works on every page, also one
    that lacks the elements it reads; the call itself changes no element
    and shows no alert.  Called [n] times on a page whose inputs are not
    touched in between, it issues [n] requests, all the same: to
    [/api/empirical_info], with the values of [sport] and [bet_type] (empty
    when the element is absent) and a probability that is never empty,
    [0.5] standing in for an empty or absent one. *)
Theorem updateEmpiricalInfo_requests (p : page) (n : nat) :
  exists r,
    Nat.iter n updateEmpiricalInfo p =
      Page (elements p) (alerts p) (fetched p ++ repeat r n)
    /\ url r = "/api/empirical_info"
    /\ req_sport r = default "" (getValue "sport" p)
    /\ req_bet_type r = default "" (getValue "bet_type" p)
    /\ nonempty (req_prob r) = true
    /\ (forall v, getValue "prob" p = Some v -> nonempty v = true ->
                  req_prob r = v)
    /\ (getValue "prob" p = None \/ getValue "prob" p = Some "" ->
        req_prob r = "0.5").
Proof.
  eexists. split; [apply updateEmpiricalInfo_iter |]. simpl.
  repeat split.
  - apply or_default_empty.
  - apply or_default_empty.
  - apply or_default_nonempty. reflexivity.
  - intros v -> Hv. simpl. destruct v; [discriminate | reflexivity].
  - intros [-> | ->]; reflexivity.
Qed.

(** X16: the reply changes nothing but the text of [empirical_info]: every
    other element, the value of [empirical_info] itself, the alerts and
    the requests stay as they are; a failed request, and any reply on a
    page without [empirical_info], change nothing at all; otherwise the
    text becomes the summary composed from the reply. *)
Theorem empiricalInfoReply_frame
    StringToNumber NumberToString numeralToString
    (r : option data) (p : page) :
  (forall id, id <> "empirical_info" ->
     elements (empiricalInfoReply StringToNumber NumberToString
                 numeralToString r p) !! id = elements p !! id)
  /\ getValue "empirical_info"
       (empiricalInfoReply StringToNumber NumberToString numeralToString r p)
     = getValue "empirical_info" p
  /\ alerts (empiricalInfoReply StringToNumber NumberToString
               numeralToString r p) = alerts p
  /\ fetched (empiricalInfoReply StringToNumber NumberToString
                numeralToString r p) = fetched p
  /\ (r = None \/ elements p !! "empirical_info" = None ->
      empiricalInfoReply StringToNumber NumberToString numeralToString r p
      = p)
  /\ (forall d, r = Some d -> is_Some (elements p !! "empirical_info") ->
      getTextContent "empirical_info"
        (empiricalInfoReply StringToNumber NumberToString numeralToString
           r p)
      = Some (empiricalText StringToNumber NumberToString numeralToString d)).
Proof.
  unfold empiricalInfoReply. destruct r as [d |].
  - destruct (elements p !! "empirical_info") as [el |] eqn:E.
    + destruct (setTextContent_spec "empirical_info"
                  (empiricalText StringToNumber NumberToString
                     numeralToString d) p (ex_intro _ _ E))
        as (p' & E' & T & V & O & _ & A & F).
      rewrite E'. simpl. repeat split; try assumption.
      * intros [? | ?]; discriminate.
      * intros d' [= <-] _. exact T.
    + unfold setTextContent. rewrite E. simpl. repeat split; try reflexivity.
      intros d' _ [el H]. discriminate.
  - repeat split; try reflexivity. intros d' H. discriminate.
Qed.

(** X17: replies are shown in the order in which they arrive, not the order
    of the requests: a reply overwrites whatever an earlier reply (or none)
    left in [empirical_info], and a failed request leaves the line of the
    last reply that succeeded. *)
Theorem empiricalInfoReply_last_wins
    StringToNumber NumberToString numeralToString
    (r1 : option data) (d2 : data) (p : page) :
  empiricalInfoReply StringToNumber NumberToString numeralToString (Some d2)
    (empiricalInfoReply StringToNumber NumberToString numeralToString r1 p)
  = empiricalInfoReply StringToNumber NumberToString numeralToString
      (Some d2) p
  /\ empiricalInfoReply StringToNumber NumberToString numeralToString None
       (empiricalInfoReply StringToNumber NumberToString numeralToString
          (Some d2) p)
     = empiricalInfoReply StringToNumber NumberToString numeralToString
         (Some d2) p.
Proof.
  split; [| reflexivity].
  unfold empiricalInfoReply. destruct r1 as [d1 |]; [| reflexivity].
  unfold setTextContent.
  destruct (elements p !! "empirical_info") as [el |] eqn:E; simpl.
  - rewrite lookup_insert_eq. simpl. rewrite insert_insert_eq. reflexivity.
  - rewrite E. reflexivity.
Qed.

(** * The listeners *)

Lemma keeps_refl ids p : keeps ids p p.
Proof. repeat split. Qed.

Lemma keeps_trans ids p q r : keeps ids p q -> keeps ids q r -> keeps ids p r.
Proof.
  intros (A1 & F1 & E1) (A2 & F2 & E2). repeat split; try congruence.
  intros id H. rewrite E2, E1 by assumption. reflexivity.
Qed.

Lemma setValue_keeps ids id v p q :
  id ∈ ids -> setValue id v p = Some q -> keeps ids p q.
Proof.
  unfold setValue. intros Hin H.
  destruct (elements p !! id) as [el |]; simpl in H; [| discriminate].
  injection H as <-. repeat split. simpl. intros j Hj.
  apply lookup_insert_ne. intros ->. contradiction.
Qed.

Lemma setTextContent_keeps ids id t p q :
  id ∈ ids -> setTextContent id t p = Some q -> keeps ids p q.
Proof.
  unfold setTextContent. intros Hin H.
  destruct (elements p !! id) as [el |]; simpl in H; [| discriminate].
  injection H as <-. repeat split. simpl. intros j Hj.
  apply lookup_insert_ne. intros ->. contradiction.
Qed.

Lemma assign_keeps ids ws :
  Forall (fun w : assignment => forall p q, w p = Some q -> keeps ids p q) ws ->
  forall p, keeps ids p (assign ws p).
Proof.
  induction 1 as [| w ws Hw _ IH]; intros p; simpl.
  - apply keeps_refl.
  - destruct (w p) as [q |] eqn:E; [| apply keeps_refl].
    apply (keeps_trans _ _ q); [apply (Hw _ _ E) | apply IH].
Qed.

(** A call of [updateRecommended], returning or not, touches nothing but
    the three elements it writes. *)
Lemma run_updateRecommended_keeps
    StringToNumber parseFloat NumberToString numeralToString B c p :
  keeps ["converted_decimal"; "recommended_stake"; "odds_hidden"] p
    (run_updateRecommended StringToNumber parseFloat NumberToString
       numeralToString B c p).
Proof.
  unfold run_updateRecommended.
  destruct (getValue "american_odds" p) as [a |]; [| apply keeps_refl].
  destruct (getValue "prob" p) as [pv |]; [| apply keeps_refl].
  destruct (americanToDecimal StringToNumber (VStr a)) as [d |];
    [destruct (negb (isFinite (parseFloat pv))) |];
    apply assign_keeps;
    repeat (apply Forall_cons; split;
            [intros ? ?;
             first [apply setValue_keeps | apply setTextContent_keeps];
             set_solver |]);
    apply Forall_nil; exact I.
Qed.

(** When [updateRecommended] returns, [run_updateRecommended] gives the
    page it returns. *)
Lemma run_updateRecommended_returns
    StringToNumber parseFloat NumberToString numeralToString B c p p' :
  updateRecommended StringToNumber parseFloat NumberToString numeralToString
    B c p = Some p' ->
  run_updateRecommended StringToNumber parseFloat NumberToString
    numeralToString B c p = p'.
Proof.
  unfold updateRecommended, run_updateRecommended.
  destruct (getValue "american_odds" p) as [a |]; simpl; [| discriminate].
  destruct (getValue "prob" p) as [pv |]; simpl; [| discriminate].
  destruct (americanToDecimal StringToNumber (VStr a)) as [d |];
    [destruct (negb (isFinite (parseFloat pv))) |]; simpl;
    repeat (match goal with
            | |- context [setTextContent ?i ?t ?q] =>
                destruct (setTextContent i t q) as [? |]; simpl;
                [| discriminate]
            | |- context [setValue ?i ?t ?q] =>
                destruct (setValue i t q) as [? |]; simpl; [| discriminate]
            end);
    congruence.
Qed.

(** When the submit handler returns, [run_submitHandler] gives the page and
    the event it returns. *)
Lemma run_submitHandler_returns p e p' e' :
  submitHandler p e = Some (p', e') -> run_submitHandler p e = (p', e').
Proof.
  unfold submitHandler, run_submitHandler.
  destruct (getValue "bet_name" p) as [name |]; simpl; [| discriminate].
  destruct (getValue "odds_hidden" p) as [odds |]; simpl; [| discriminate].
  destruct (getValue "prob" p) as [prob |]; simpl; [| discriminate].
  destruct (getValue "actual_stake" p) as [stake |]; simpl; [| discriminate].
  destruct (getValue "sport" p) as [sport |]; simpl; [| discriminate].
  destruct (getValue "bet_type" p) as [type |]; simpl; [| discriminate].
  destruct (negb (nonempty name) || negb (nonempty odds)
            || negb (nonempty prob) || negb (nonempty stake));
    [congruence |].
  repeat (match goal with
          | |- context [setValue ?i ?t ?q] =>
              destruct (setValue i t q) as [? |]; simpl; [| discriminate]
          end).
  congruence.
Qed.

Lemma listen_callback id type cb p r :
  r ∈ listen id type cb p -> callback r = cb.
Proof.
  unfold listen. destruct (elements p !! id); intros H.
  - apply list_elem_of_singleton in H. subst r. reflexivity.
  - apply elem_of_nil in H. contradiction.
Qed.

(** X18: the [DOMContentLoaded] listener changes no element and shows no
    alert.  Without [bankroll_value] or [percent_cap_value] it raises
    before anything is installed or requested.  With both, it issues the
    one initial request; every [updateRecommended] it installs carries
    [parseFloat] of the bankroll text, or of [0] when that text is empty,
    and of the cap text, or of [0.02]; and it completes, with the submit
    handler installed, exactly when the page has [betForm]. *)
Theorem onLoad_outcome parseFloat (p : page) :
  elements (doc_page (document_of (onLoad parseFloat p))) = elements p
  /\ alerts (doc_page (document_of (onLoad parseFloat p))) = alerts p
  /\ (getTextContent "bankroll_value" p = None
      \/ getTextContent "percent_cap_value" p = None ->
      onLoad parseFloat p = TypeError (Document p []))
  /\ (forall tb tc,
        getTextContent "bankroll_value" p = Some tb ->
        getTextContent "percent_cap_value" p = Some tc ->
        doc_page (document_of (onLoad parseFloat p)) = updateEmpiricalInfo p
        /\ (forall r B c,
              r ∈ listeners (document_of (onLoad parseFloat p)) ->
              callback r = UpdateRecommended B c ->
              B = parseFloat (or_default tb "0")
              /\ c = parseFloat (or_default tc "0.02"))
        /\ ((exists d, onLoad parseFloat p = Completed d)
            <-> is_Some (elements p !! "betForm"))
        /\ (Registration "betForm" "submit" SubmitBet
              ∈ listeners (document_of (onLoad parseFloat p))
            <-> is_Some (elements p !! "betForm"))).
Proof.
  unfold onLoad.
  destruct (getTextContent "bankroll_value" p) as [tb |] eqn:Eb.
  2:{ repeat split; try reflexivity; intros; discriminate. }
  destruct (getTextContent "percent_cap_value" p) as [tc |] eqn:Ec.
  2:{ repeat split; try reflexivity; intros; discriminate. }
  cbv zeta.
  replace (elements (updateEmpiricalInfo p) !! "betForm")
    with (elements p !! "betForm") by reflexivity.
  set (B0 := parseFloat (or_default tb "0")).
  set (c0 := parseFloat (or_default tc "0.02")).
  set (ls := listen "american_odds" "input" (UpdateRecommended B0 c0) p
             ++ listen "prob" "input" (UpdateRecommended B0 c0) p
             ++ listen "sport" "input" UpdateEmpiricalInfo p
             ++ listen "bet_type" "change" UpdateEmpiricalInfo p
             ++ listen "prob" "input" UpdateEmpiricalInfo p).
  assert (Hls : forall r, r ∈ ls ->
                          callback r = UpdateRecommended B0 c0
                          \/ callback r = UpdateEmpiricalInfo).
  { intros r H. unfold ls in H. rewrite !elem_of_app in H.
    destruct H as [H | [H | [H | [H | H]]]];
      apply listen_callback in H; auto. }
  split; [destruct (elements p !! "betForm"); reflexivity |].
  split; [destruct (elements p !! "betForm"); reflexivity |].
  split; [intros [H | H]; discriminate |].
  intros tb' tc' [= <-] [= <-].
  split; [destruct (elements p !! "betForm"); reflexivity |].
  split; [| split].
  - intros r B c Hin Hcb.
    assert (H : callback r = UpdateRecommended B0 c0
                \/ callback r = UpdateEmpiricalInfo \/ callback r = SubmitBet).
    { destruct (elements p !! "betForm"); simpl in Hin.
      - apply elem_of_app in Hin as [Hin | Hin].
        + destruct (Hls r Hin); auto.
        + apply list_elem_of_singleton in Hin. subst r. auto.
      - destruct (Hls r Hin); auto. }
    destruct H as [H | [H | H]]; rewrite H in Hcb; try discriminate.
    injection Hcb as <- <-. split; reflexivity.
  - destruct (elements p !! "betForm") as [el |]; split.
    + eauto.
    + eauto.
    + intros [d H]. discriminate.
    + intros [el H]. discriminate.
  - destruct (elements p !! "betForm") as [el |]; simpl; split.
    + eauto.
    + intros _. apply elem_of_app. right.
      apply list_elem_of_singleton. reflexivity.
    + intros H. destruct (Hls _ H) as [H' | H']; discriminate.
    + intros [el H]. discriminate.
Qed.

(** X19: on a page that has all the elements the listener looks for, the
    load completes, and afterwards: an [input] event on the odds box
    recomputes the recommendation; an [input] event on the probability box
    recomputes it and then requests the empirical summary; an [input]
    event on [sport] and a [change] event on [bet_type] request the
    summary; a [submit] event on the form runs the submit handler.  A
    [change] event on [sport] or on the odds box, and an [input] event on
    [bet_type], run nothing. *)
Theorem events_after_load
    StringToNumber parseFloat NumberToString numeralToString
    (p0 : page) (tb tc : string) :
  getTextContent "bankroll_value" p0 = Some tb ->
  getTextContent "percent_cap_value" p0 = Some tc ->
  is_Some (elements p0 !! "american_odds") ->
  is_Some (elements p0 !! "prob") ->
  is_Some (elements p0 !! "sport") ->
  is_Some (elements p0 !! "bet_type") ->
  is_Some (elements p0 !! "betForm") ->
  exists ls,
    onLoad parseFloat p0 = Completed (Document (updateEmpiricalInfo p0) ls)
    /\ forall (p : page) (e : event),
        dispatchEvent StringToNumber parseFloat NumberToString
          numeralToString ls "american_odds" "input" p e
        = (run_updateRecommended StringToNumber parseFloat NumberToString
             numeralToString (parseFloat (or_default tb "0"))
             (parseFloat (or_default tc "0.02")) p, e)
        /\ dispatchEvent StringToNumber parseFloat NumberToString
             numeralToString ls "prob" "input" p e
           = (updateEmpiricalInfo
                (run_updateRecommended StringToNumber parseFloat
                   NumberToString numeralToString
                   (parseFloat (or_default tb "0"))
                   (parseFloat (or_default tc "0.02")) p), e)
        /\ dispatchEvent StringToNumber parseFloat NumberToString
             numeralToString ls "sport" "input" p e
           = (updateEmpiricalInfo p, e)
        /\ dispatchEvent StringToNumber parseFloat NumberToString
             numeralToString ls "bet_type" "change" p e
           = (updateEmpiricalInfo p, e)
        /\ dispatchEvent StringToNumber parseFloat NumberToString
             numeralToString ls "betForm" "submit" p e
           = run_submitHandler p e
        /\ dispatchEvent StringToNumber parseFloat NumberToString
             numeralToString ls "sport" "change" p e = (p, e)
        /\ dispatchEvent StringToNumber parseFloat NumberToString
             numeralToString ls "bet_type" "input" p e = (p, e)
        /\ dispatchEvent StringToNumber parseFloat NumberToString
             numeralToString ls "american_odds" "change" p e = (p, e)
        /\ (forall p',
              updateRecommended StringToNumber parseFloat NumberToString
                numeralToString (parseFloat (or_default tb "0"))
                (parseFloat (or_default tc "0.02")) p = Some p' ->
              dispatchEvent StringToNumber parseFloat NumberToString
                numeralToString ls "american_odds" "input" p e = (p', e))
        /\ (forall p' e',
              submitHandler p e = Some (p', e') ->
              dispatchEvent StringToNumber parseFloat NumberToString
                numeralToString ls "betForm" "submit" p e = (p', e')).
Proof.
  intros Hb Hc [e1 H1] [e2 H2] [e3 H3] [e4 H4] [e5 H5].
  unfold onLoad. rewrite Hb, Hc. cbv zeta.
  replace (elements (updateEmpiricalInfo p0) !! "betForm")
    with (elements p0 !! "betForm") by reflexivity.
  unfold listen. rewrite H1, H2, H3, H4, H5. simpl.
  eexists. split; [reflexivity |].
  intros p e. simpl.
  assert (Hs : (let '(p1, e0) := run_submitHandler p e in (p1, e0))
               = run_submitHandler p e)
    by (destruct (run_submitHandler p e); reflexivity).
  repeat split; try reflexivity; try exact Hs.
  - intros p' H.
    rewrite (run_updateRecommended_returns _ _ _ _ _ _ _ _ H). reflexivity.
  - intros p' e' H. rewrite Hs. apply run_submitHandler_returns. exact H.
Qed.

Lemma events_after_load_witness :
  exists ls,
    onLoad example_parseFloat_settings loaded_page
    = Completed (Document (updateEmpiricalInfo loaded_page) ls)
    /\ dispatchEvent example_StringToNumber example_parseFloat_settings
         example_NumberToString example_numeralToString ls
         "prob" "input" loaded_page (Event false)
       = (updateEmpiricalInfo
            (run_updateRecommended example_StringToNumber
               example_parseFloat_settings example_NumberToString
               example_numeralToString n1000 n0_02 loaded_page),
          Event false)
    /\ dispatchEvent example_StringToNumber example_parseFloat_settings
         example_NumberToString example_numeralToString ls
         "sport" "change" loaded_page (Event false)
       = (loaded_page, Event false).
Proof.
  destruct (events_after_load
              example_StringToNumber example_parseFloat_settings
              example_NumberToString example_numeralToString
              loaded_page "1000" "" eq_refl eq_refl
              (ex_intro _ _ eq_refl) (ex_intro _ _ eq_refl)
              (ex_intro _ _ eq_refl) (ex_intro _ _ eq_refl)
              (ex_intro _ _ eq_refl)) as (ls & E & H).
  exists ls. split; [exact E |].
  destruct (H loaded_page (Event false)) as (_ & Hp & _ & _ & _ & Hs & _).
  split; [exact Hp | exact Hs].
Defined.

Lemma not_written id :
  id <> "converted_decimal" -> id <> "recommended_stake" ->
  id <> "odds_hidden" ->
  id ∉ ["converted_decimal"; "recommended_stake"; "odds_hidden"].
Proof.
  intros N1 N2 N3 H.
  repeat (apply elem_of_cons in H as [H | H]; [contradiction |]).
  apply elem_of_nil in H. exact H.
Qed.

(** X20: once the load has completed on a page with a probability box, every
    [input] event on that box issues exactly one request for the empirical
    summary, also when the recomputation before it raises; the request
    carries the sport, the bet type and the probability as they are on the
    page at that moment, [0.5] standing in for an empty probability.  An
    [input] event on the odds box issues no request.  Neither shows an
    alert nor touches an element other than [converted_decimal],
    [recommended_stake] and [odds_hidden]. *)
Theorem input_events_and_requests
    StringToNumber parseFloat NumberToString numeralToString
    (p0 : page) (d : document) (p : page) (e : event) :
  onLoad parseFloat p0 = Completed d ->
  is_Some (elements p0 !! "prob") ->
  (exists q,
      dispatchEvent StringToNumber parseFloat NumberToString numeralToString
        (listeners d) "prob" "input" p e = (q, e)
      /\ fetched q =
         fetched p ++
         [Request "/api/empirical_info"
            (default "" (getValue "sport" p))
            (default "" (getValue "bet_type" p))
            (or_default (default "" (getValue "prob" p)) "0.5")]
      /\ alerts q = alerts p
      /\ forall id, id <> "converted_decimal" -> id <> "recommended_stake" ->
                    id <> "odds_hidden" ->
                    elements q !! id = elements p !! id)
  /\ (exists q,
        dispatchEvent StringToNumber parseFloat NumberToString
          numeralToString (listeners d) "american_odds" "input" p e = (q, e)
        /\ fetched q = fetched p
        /\ alerts q = alerts p
        /\ forall id, id <> "converted_decimal" ->
                      id <> "recommended_stake" -> id <> "odds_hidden" ->
                      elements q !! id = elements p !! id).
Proof.
  intros Hload [e2 H2]. unfold onLoad in Hload.
  destruct (getTextContent "bankroll_value" p0) as [tb |]; [| discriminate].
  destruct (getTextContent "percent_cap_value" p0) as [tc |];
    [| discriminate].
  cbv zeta in Hload.
  destruct (elements (updateEmpiricalInfo p0) !! "betForm");
    [| discriminate].
  injection Hload as <-. simpl listeners. unfold listen. rewrite H2.
  set (B := parseFloat (or_default tb "0")).
  set (c := parseFloat (or_default tc "0.02")).
  destruct (run_updateRecommended_keeps StringToNumber parseFloat
              NumberToString numeralToString B c p) as (A & F & K).
  split.
  - exists (updateEmpiricalInfo
              (run_updateRecommended StringToNumber parseFloat
                 NumberToString numeralToString B c p)).
    split.
    { destruct (elements p0 !! "american_odds"), (elements p0 !! "sport"),
        (elements p0 !! "bet_type"); reflexivity. }
    simpl. rewrite A, F.
    unfold getValue.
    rewrite !K by (apply not_written; discriminate).
    rewrite !or_default_empty.
    repeat split. intros id N1 N2 N3. apply K, not_written; assumption.
  - destruct (elements p0 !! "american_odds").
    + exists (run_updateRecommended StringToNumber parseFloat
                NumberToString numeralToString B c p).
      split.
      { destruct (elements p0 !! "sport"), (elements p0 !! "bet_type");
          reflexivity. }
      repeat split; try assumption.
      intros id N1 N2 N3. apply K, not_written; assumption.
    + exists p. split.
      { destruct (elements p0 !! "sport"), (elements p0 !! "bet_type");
          reflexivity. }
      repeat split.
Qed.

Lemma input_events_and_requests_witness :
  (exists q,
      dispatchEvent example_StringToNumber example_parseFloat_settings
        example_NumberToString example_numeralToString
        (listeners (document_of (onLoad example_parseFloat_settings
                                   loaded_page)))
        "prob" "input" loaded_page (Event false) = (q, Event false)
      /\ fetched q = [Request "/api/empirical_info" "NBA" "" "0.7"]
      /\ alerts q = [])
  /\ (exists q,
        dispatchEvent example_StringToNumber example_parseFloat_settings
          example_NumberToString example_numeralToString
          (listeners (document_of (onLoad example_parseFloat_settings
                                     loaded_page)))
          "american_odds" "input" loaded_page (Event false)
        = (q, Event false)
        /\ fetched q = []
        /\ alerts q = []).
Proof.
  destruct (input_events_and_requests
              example_StringToNumber example_parseFloat_settings
              example_NumberToString example_numeralToString
              loaded_page
              (document_of (onLoad example_parseFloat_settings loaded_page))
              loaded_page (Event false) eq_refl (ex_intro _ _ eq_refl))
    as [(q & E & F & A & _) (q' & E' & F' & A' & _)].
  split; [exists q | exists q']; repeat split; assumption.
Defined.

(** * The stake and the bankroll *)

Lemma floor_le_rounded x :
  valid x = true -> isNaN x = false ->
  leb n0_10 (round2 (Math_max x n0_10)) = true.
Proof.
  intros V N. change n0_10 with (round2 n0_10) at 1.
  apply round2_mono; [reflexivity | apply Math_max_valid; auto |].
  apply Math_max_ge_r; auto.
Qed.

(** X21: before its rounding to cents the stake is at most the bankroll, or
    the floor of 0.10 when the bankroll is smaller than that: for a finite
    bankroll that is not negative and every finite cap fraction, also one
    above 1, [computeKelly] returns 0 or [round2 s] for a Number [s] between
    [0.10] and [max(B, 0.10)], the Kelly fraction being at most 1; so the
    stake is at most [max(B, 0.10)] rounded to two decimals. *)
Theorem computeKelly_at_most_bankroll (B c o p : number) :
  valid B = true -> valid c = true -> valid o = true -> valid p = true ->
  isFinite B = true -> isFinite c = true -> isFinite o = true ->
  leb n0 B = true ->
  leb (computeKelly B c o p) (round2 (Math_max B n0_10)) = true
  /\ (computeKelly B c o p = pzero
      \/ exists s,
          computeKelly B c o p = round2 s
          /\ leb n0_10 s = true
          /\ leb s (Math_max B n0_10) = true).
Proof.
  intros VB Vc Vo Vp FB Fc Fo HB.
  destruct (leb_not_NaN _ _ HB) as [_ NB].
  pose proof (floor_le_rounded B VB NB) as Hfloor.
  destruct (Math_max_valid B n0_10 VB eq_refl NB eq_refl) as [Vm Nm].
  destruct (round2_valid _ Vm Nm) as [Vr Nr].
  assert (H0 : leb pzero (round2 (Math_max B n0_10)) = true)
    by (apply (leb_trans pzero n0_10); auto).
  rewrite computeKelly_main. fold (precondition_fails o p).
  destruct (precondition_fails o p) eqn:Hpre; [split; [exact H0 | left; reflexivity] |].
  destruct (leb (sub o n1) n0) eqn:Hnet; [split; [exact H0 | left; reflexivity] |].
  destruct (clamped_fraction o p Vo Vp Fo Hpre Hnet) as (Vf & Ff & Lf0 & Lf1).
  destruct (stake_and_cap B c o p VB Vc Vo Vp FB Fc Fo Hpre Hnet)
    as ((Vraw & Nraw) & (Vcap & Ncap)).
  destruct (cappedStake_is_a_number B c o p VB Vc Vo Vp FB Fc Fo Hpre Hnet)
    as (Vs & Ns & _).
  assert (L : leb (cappedStake B c o p) B = true).
  { apply (leb_trans _ (mul (Math_max pzero (kellyFraction o p)) B));
      try assumption.
    - unfold cappedStake. apply Math_min_le_l; assumption.
    - apply (Rounded_le _ _ _ _ (mul_Rounded _ _ Vf VB Ff FB)
                                (Rounded_B2R B VB FB)).
      pose proof (leb_B2R _ n1 Vf eq_refl Ff eq_refl Lf1) as R1.
      pose proof (leb_B2R pzero B eq_refl VB eq_refl FB HB) as R0.
      rewrite B2R_n1 in R1. change (B2R pzero) with 0%R in R0.
      nra. }
  split.
  - apply floor_and_round_mono; assumption.
  - right. exists (Math_max (cappedStake B c o p) n0_10).
    split; [reflexivity |]. split.
    + apply Math_max_ge_r; auto.
    + apply Math_max_mono_l; auto.
Qed.

Lemma computeKelly_at_most_bankroll_witness :
  leb (computeKelly n1 n3 n3 n0_75) (round2 (Math_max n1 n0_10)) = true
  /\ (computeKelly n1 n3 n3 n0_75 = pzero
      \/ exists s,
          computeKelly n1 n3 n3 n0_75 = round2 s
          /\ leb n0_10 s = true
          /\ leb s (Math_max n1 n0_10) = true).
Proof.
  apply (computeKelly_at_most_bankroll n1 n3 n3 n0_75); reflexivity.
Defined.

(** * What the submit handler leaves alone *)

Lemma not_a_form_field id :
  id <> "form_name" -> id <> "form_odds" -> id <> "form_prob" ->
  id <> "form_stake" -> id <> "form_sport" -> id <> "form_type" ->
  id ∉ ["form_name"; "form_odds"; "form_prob"; "form_stake"; "form_sport";
        "form_type"].
Proof.
  intros N1 N2 N3 N4 N5 N6 H.
  repeat (apply elem_of_cons in H as [H | H]; [contradiction |]).
  apply elem_of_nil in H. exact H.
Qed.

(** X22: whatever the page holds, and whether it returns or raises, the
    submit handler issues no request and touches no element other than the
    six hidden fields of the form.  It either leaves the event as it is and
    shows no alert, so that the form is sent (this is also what happens
    when it raises), or it shows the alert, calls [preventDefault] and
    changes no element at all. *)
Theorem run_submitHandler_frame (p : page) (e : event) :
  fetched (fst (run_submitHandler p e)) = fetched p
  /\ (forall id,
        id <> "form_name" -> id <> "form_odds" -> id <> "form_prob" ->
        id <> "form_stake" -> id <> "form_sport" -> id <> "form_type" ->
        elements (fst (run_submitHandler p e)) !! id = elements p !! id)
  /\ ((snd (run_submitHandler p e) = e
       /\ alerts (fst (run_submitHandler p e)) = alerts p)
      \/ run_submitHandler p e =
         (Page (elements p) (alerts p ++ ["Please fill in all fields."])
               (fetched p),
          Event true))
  /\ (forall p' e',
        submitHandler p e = Some (p', e') -> run_submitHandler p e = (p', e')).
Proof.
  assert (K : (keeps ["form_name"; "form_odds"; "form_prob"; "form_stake";
                      "form_sport"; "form_type"] p
                 (fst (run_submitHandler p e))
               /\ snd (run_submitHandler p e) = e)
              \/ run_submitHandler p e =
                 (Page (elements p)
                       (alerts p ++ ["Please fill in all fields."])
                       (fetched p),
                  Event true)).
  { unfold run_submitHandler.
    destruct (getValue "bet_name" p) as [name |];
      [| left; split; [apply keeps_refl | reflexivity]].
    destruct (getValue "odds_hidden" p) as [odds |];
      [| left; split; [apply keeps_refl | reflexivity]].
    destruct (getValue "prob" p) as [prob |];
      [| left; split; [apply keeps_refl | reflexivity]].
    destruct (getValue "actual_stake" p) as [stake |];
      [| left; split; [apply keeps_refl | reflexivity]].
    destruct (getValue "sport" p) as [sport |];
      [| left; split; [apply keeps_refl | reflexivity]].
    destruct (getValue "bet_type" p) as [type |];
      [| left; split; [apply keeps_refl | reflexivity]].
    destruct (negb (nonempty name) || negb (nonempty odds)
              || negb (nonempty prob) || negb (nonempty stake)).
    - right. reflexivity.
    - left. split; [| reflexivity]. cbn [fst].
      apply assign_keeps.
      repeat (apply Forall_cons; split;
              [intros ? ?; apply setValue_keeps; set_solver |]).
      apply Forall_nil; exact I. }
  split; [| split; [| split]].
  - destruct K as [((A & F & _) & _) | ->]; [exact F | reflexivity].
  - intros id N1 N2 N3 N4 N5 N6.
    destruct K as [((_ & _ & K) & _) | ->]; [| reflexivity].
    apply K, not_a_form_field; assumption.
  - destruct K as [((A & _ & _) & E) | ->]; [left; split; assumption |].
    right. reflexivity.
  - apply run_submitHandler_returns.
Qed.
